(** * msedgedriver_manager: a shallow embedding of [main.py]

    The module resolves a filesystem path to [msedgedriver.exe]: it looks
    at two well-known places, and otherwise detects the Edge version,
    downloads the driver archive, extracts it with the Windows shell and
    reconciles the result.

    Python state is threaded explicitly: a [World] holds the filesystem,
    the log written through [logging], the trace of calls made to the
    operating system and to libraries, and the (immutable) behaviour of
    everything outside the program (network, subprocesses, COM).  A
    computation is a state transformer that either returns a value or
    raises a Python exception.

    Layout.
    - [PyStr], [Re], [Py]: strings, the two regular expressions, values
      and exceptions.
    - [FS], [Sys], [Lib]: the filesystem, the world and the monad, the
      library calls the program makes.
    - [Main]: the functions of [main.py], under their names; loops and
      the blocks of [get_edge_driver_path] are definitions of their own.
    - [Scenario]: concrete machines.  [Spec], [Vocab]: vocabulary of
      the statements.
    - Then the facts and the properties: C1, C3 and C5 to C10, the
      further properties X1 to X19 with the lemmas they share, and at
      the end C2 (the archive download) and C4 (the reconciling step),
      which rest on those lemmas.

    Conventions.
    - Characters are code points 0..255 ([ascii]); [str] is [string].
    - A filesystem location is the list of its components, drive first;
      names are compared the way Windows does, ignoring case.
    - Every call that can raise in Python goes through [ext], which lets
      the environment inject an exception at that call.
    - [return] inside a block or a loop is a value of the block: [Some]
      or [inl] for a value returned, [None] or [inr] for falling
      through.
    - The model describes executions in which each external call
      returns; only subclasses of [Exception] are raised.  Files are
      read as they are stored (no decoding, no newline translation),
      JSON numbers are integers, and the shell copy is finished when
      [CopyHere] returns. *)

From Stdlib Require Import String Ascii List ZArith Bool Arith Lia.
From Stdlib Require Import DecimalString.
Import ListNotations.
Set Warnings "-register-all".
Open Scope list_scope.
Open Scope string_scope.

(** ** Python strings *)

Module PyStr.

Definition code (c : ascii) : nat := nat_of_ascii c.

Definition dquote : string := String (ascii_of_nat 34) EmptyString.
Definition newline : ascii := ascii_of_nat 10.
Definition backslash : ascii := ascii_of_nat 92.

(** [str.isspace] on one character, for code points below 256. *)
Definition is_space (c : ascii) : bool :=
  let n := code c in
  (Nat.leb 9 n && Nat.leb n 13) || (Nat.leb 28 n && Nat.leb n 32)
  || Nat.eqb n 133 || Nat.eqb n 160.

(** [str.lower] on one character, for code points below 256. *)
Definition lower_ascii (c : ascii) : ascii :=
  let n := code c in
  if (Nat.leb 65 n && Nat.leb n 90)
     || (Nat.leb 192 n && Nat.leb n 222 && negb (Nat.eqb n 215))
  then ascii_of_nat (n + 32) else c.

Fixpoint lower (s : string) : string :=
  match s with
  | EmptyString => EmptyString
  | String c s' => String (lower_ascii c) (lower s')
  end.

Fixpoint lstrip (s : string) : string :=
  match s with
  | EmptyString => EmptyString
  | String c s' => if is_space c then lstrip s' else s
  end.

Fixpoint rstrip (s : string) : string :=
  match s with
  | EmptyString => EmptyString
  | String c s' =>
      let r := rstrip s' in
      match r with
      | EmptyString => if is_space c then EmptyString else String c r
      | _ => String c r
      end
  end.

(** [s.strip()] *)
Definition strip (s : string) : string := rstrip (lstrip s).

(** [s.replace(c, r)] for a one-character needle. *)
Fixpoint replace_char (c : ascii) (r : string) (s : string) : string :=
  match s with
  | EmptyString => EmptyString
  | String d s' =>
      (if Ascii.eqb d c then r else String d EmptyString)
        ++ replace_char c r s'
  end.

(** [str(n)] for a non-negative and for a signed integer. *)
Definition of_nat (n : nat) : string :=
  NilZero.string_of_uint (Nat.to_uint n).
Definition of_Z (z : Z) : string :=
  NilZero.string_of_int (Z.to_int z).

(** Truth value of a [str]. *)
Definition nonempty (s : string) : bool :=
  match s with EmptyString => false | _ => true end.

End PyStr.

(** ** The two regular expressions of [get_edge_version]

    Python's [re] is a backtracking matcher: alternatives are tried
    leftmost first, [+] is greedy.  The patterns of the program are
    sequences of single characters and character classes, each taken
    once or one-or-more times, with one capturing group around a
    repeated class. *)

Module Re.
Import PyStr.

Inductive cclass : Type :=
| CLit (c : ascii)   (* a literal character *)
| CDot               (* [.] : anything but a newline *)
| CSpace.            (* [\s] *)

Definition cmatch (k : cclass) (c : ascii) : bool :=
  match k with
  | CLit d => Ascii.eqb c d
  | CDot => negb (Ascii.eqb c newline)
  | CSpace => is_space c
  end.

Inductive item : Type :=
| One (k : cclass)     (* k *)
| Plus (k : cclass)    (* k+ *)
| Group (k : cclass).  (* (k+) *)

Fixpoint lits (s : string) : list item :=
  match s with
  | EmptyString => []
  | String c s' => One (CLit c) :: lits s'
  end.

(** [match_here re s cap]: match [re] at the start of [s]; the result
    is the text of the capturing group ([cap] while none was met). *)
Fixpoint match_here (re : list item) (s : string) (cap : string)
  : option string :=
  match re with
  | [] => Some cap
  | One k :: re' =>
      match s with
      | String c s' => if cmatch k c then match_here re' s' cap else None
      | EmptyString => None
      end
  | Plus k :: re' =>
      (fix plus (s : string) : option string :=
         match s with
         | String c s' =>
             if cmatch k c then
               match plus s' with
               | Some r => Some r
               | None => match_here re' s' cap
               end
             else None
         | EmptyString => None
         end) s
  | Group k :: re' =>
      (fix plus (s : string) (acc : string) : option string :=
         match s with
         | String c s' =>
             if cmatch k c then
               let acc' := acc ++ String c EmptyString in
               match plus s' acc' with
               | Some r => Some r
               | None => match_here re' s' acc'
               end
             else None
         | EmptyString => None
         end) s EmptyString
  end.

(** [re.search(re, s)] followed by [.group(1)] when it matched. *)
Fixpoint search (re : list item) (s : string) : option string :=
  match match_here re s EmptyString with
  | Some g => Some g
  | None =>
      match s with
      | String _ s' => search re s'
      | EmptyString => None
      end
  end.

(** [r'Version=(.+)'] *)
Definition wmic_version : list item :=
  (lits "Version=" ++ [Group CDot])%list.

(** [r'version\s+REG_SZ\s+(.+)'] *)
Definition reg_version : list item :=
  (lits "version" ++ [Plus CSpace] ++ lits "REG_SZ"
     ++ [Plus CSpace; Group CDot])%list.

End Re.

(** ** Python values and exceptions *)

Module Py.
Import PyStr.

(** The values [json.load] can produce (floats are not modelled). *)
Inductive pyval : Type :=
| PyNone
| PyBool (b : bool)
| PyInt (z : Z)
| PyStr (s : string)
| PyList (l : list pyval)
| PyDict (kv : list (string * pyval)).

(** Truth value, as tested by [if v:] and [if not v:]. *)
Definition truthy (v : pyval) : bool :=
  match v with
  | PyNone => false
  | PyBool b => b
  | PyInt z => negb (Z.eqb z 0)
  | PyStr s => nonempty s
  | PyList l => match l with [] => false | _ => true end
  | PyDict kv => match kv with [] => false | _ => true end
  end.

Fixpoint dict_lookup (k : string) (kv : list (string * pyval))
  : option pyval :=
  match kv with
  | [] => None
  | (k', v) :: kv' => if String.eqb k k' then Some v else dict_lookup k kv'
  end.

Definition join_with (sep : string) (l : list string) : string :=
  String.concat sep l.

(** [repr(v)]; quotes and non-printable characters inside a string
    are left as they are. *)
Fixpoint repr (v : pyval) : string :=
  match v with
  | PyNone => "None"
  | PyBool true => "True"
  | PyBool false => "False"
  | PyInt z => of_Z z
  | PyStr s => "'" ++ s ++ "'"
  | PyList l => "[" ++ join_with ", " (map repr l) ++ "]"
  | PyDict kv =>
      "{" ++ join_with ", "
               (map (fun p => "'" ++ fst p ++ "': " ++ repr (snd p)) kv)
          ++ "}"
  end.

(** [str(v)], the text an f-string inserts. *)
Definition str (v : pyval) : string :=
  match v with
  | PyStr s => s
  | _ => repr v
  end.

Inductive exn_class : Type :=
| ValueError | TypeError | AttributeError
| OSError | FileNotFoundError | FileExistsError | PermissionError
| NotADirectoryError | TimeoutExpired | URLError
| UnicodeDecodeError | JSONDecodeError | COMError | ShutilError.

(** An instance of (a subclass of) [Exception]; [msg] is [str(e)]. *)
Record exn : Type := Exn { cls : exn_class; msg : string }.

End Py.

(** ** The filesystem *)

Module FS.
Import PyStr.

Definition path : Type := list string.

Inductive node : Type :=
| File (content : string)
| Dir (entries : list (string * node)).

Definition entries_t : Type := list (string * node).

(** Windows compares names without regard to case. *)
Definition name_eqb (a b : string) : bool :=
  String.eqb (lower a) (lower b).

Fixpoint assoc (n : string) (es : entries_t) : option node :=
  match es with
  | [] => None
  | (m, x) :: es' => if name_eqb n m then Some x else assoc n es'
  end.

Fixpoint lookup (nd : node) (p : path) : option node :=
  match p with
  | [] => Some nd
  | c :: p' =>
      match nd with
      | File _ => None
      | Dir es =>
          match assoc c es with
          | Some ch => lookup ch p'
          | None => None
          end
      end
  end.

(** [os.path.exists], [os.path.isdir] *)
Definition exists_ (fs : node) (p : path) : bool :=
  match lookup fs p with Some _ => true | None => false end.
Definition is_dir (fs : node) (p : path) : bool :=
  match lookup fs p with Some (Dir _) => true | _ => false end.

(** [os.path.join(p, name)] for a plain name, [os.path.dirname],
    [os.path.basename] *)
Definition join (p : path) (name : string) : path := (p ++ [name])%list.
Definition dirname (p : path) : path :=
  match p with
  | [] => []
  | [d] => [d]
  | _ => removelast p
  end.
Definition basename (p : path) : string := last p EmptyString.

(** The text of a path: components separated by a backslash. *)
Definition path_str (p : path) : string :=
  match p with
  | [d] => d ++ String backslash EmptyString
  | _ => String.concat (String backslash EmptyString) p
  end.

Definition path_eqb (p q : path) : bool :=
  if list_eq_dec string_dec p q then true else false.

(** The entries of a directory without the one called [n], and with
    [x] under the name [n] (in place when the name is taken). *)
Definition remove_entry (n : string) (es : entries_t) : entries_t :=
  filter (fun e => negb (name_eqb n (fst e))) es.
Fixpoint set_entry (n : string) (x : node) (es : entries_t) : entries_t :=
  match es with
  | [] => [(n, x)]
  | (m, y) :: es' =>
      if name_eqb n m then (m, x) :: es' else (m, y) :: set_entry n x es'
  end.

(** Change the entry called [n]: [f] sees the node there, if any, and
    says what is there afterwards. *)
Definition alter_entries (n : string) (f : option node -> option node)
  (es : entries_t) : entries_t :=
  match f (assoc n es) with
  | Some y => set_entry n y es
  | None => remove_entry n es
  end.

(** Change what is at path [p]; nothing happens when the directory
    that should hold it is missing. *)
Fixpoint alter (p : path) (f : option node -> option node) (nd : node)
  : node :=
  match p with
  | [] => nd
  | [c] =>
      match nd with
      | Dir es => Dir (alter_entries c f es)
      | File _ => nd
      end
  | c :: p' =>
      match nd with
      | Dir es =>
          Dir (alter_entries c
                 (fun o => match o with
                           | Some ch => Some (alter p' f ch)
                           | None => None
                           end) es)
      | File _ => nd
      end
  end.

Definition put (p : path) (x : node) (fs : node) : node :=
  alter p (fun _ => Some x) fs.
Definition delete (p : path) (fs : node) : node :=
  alter p (fun _ => None) fs.
Definition replace_at (p : path) (x : node) (fs : node) : node :=
  match p with [] => x | _ => put p x fs end.

(** Create [p] and every missing directory above it; [None] when a
    file is in the way. *)
Fixpoint mkdirs (p : path) (nd : node) : option node :=
  match p with
  | [] => match nd with Dir _ => Some nd | File _ => None end
  | c :: p' =>
      match nd with
      | File _ => None
      | Dir es =>
          let ch := match assoc c es with
                    | Some ch => ch
                    | None => Dir []
                    end in
          match mkdirs p' ch with
          | Some ch' => Some (Dir (alter_entries c (fun _ => Some ch') es))
          | None => None
          end
      end
  end.

Definition is_dir_node (x : node) : bool :=
  match x with Dir _ => true | File _ => false end.
Definition dirnames (es : entries_t) : list string :=
  map fst (filter (fun e => is_dir_node (snd e)) es).
Definition filenames (es : entries_t) : list string :=
  map fst (filter (fun e => negb (is_dir_node (snd e))) es).

(** [os.walk(top)], top down: one triple (dirpath, dirnames,
    filenames) per directory; nothing when [top] is not a
    directory. *)
Fixpoint walk_node (top : path) (nd : node)
  : list (path * list string * list string) :=
  match nd with
  | File _ => []
  | Dir es =>
      (top, dirnames es, filenames es)
        :: (fix subdirs (l : entries_t) :=
              match l with
              | [] => []
              | (n, ch) :: l' => (walk_node (join top n) ch ++ subdirs l')%list
              end) es
  end.

Definition walk (fs : node) (top : path)
  : list (path * list string * list string) :=
  match lookup fs top with
  | Some nd => walk_node top nd
  | None => []
  end.

(** Copy [src] over [dst], folder into folder, as the shell does
    when every question is answered with yes. *)
Fixpoint merge (src dst : node) : node :=
  match src, dst with
  | Dir ses, Dir des =>
      Dir ((fix each (l : entries_t) (acc : entries_t) : entries_t :=
              match l with
              | [] => acc
              | (n, s) :: l' =>
                  each l'
                    (alter_entries n
                       (fun o => Some match o with
                                      | Some d => merge s d
                                      | None => s
                                      end) acc)
              end) ses des)
  | _, _ => src
  end.

End FS.

(** ** The world outside the program, and computations in it *)

Module Sys.
Import PyStr Py FS.

Inductive level : Type := INFO | WARNING | ERROR.

Definition record_t : Type := (level * string)%type.

Inductive handle : Type := HInternet | HUrl.

(** Calls to the operating system and to libraries.  Each of them can
    raise; the arguments the program passes are kept. *)
Inductive call : Type :=
| LoadLibrary (dll : string)
| InternetOpenW
| InternetOpenUrlW (url : string)
| InternetReadFile
| InternetCloseHandle (h : handle)
| URLDownloadToFileW (url : string) (dst : path)
| UrlOpen (url : string) (timeout : option Z)
| CopyFileObj
| SubprocessRun (argv : list string) (timeout : option Z)
| OpenWrite (p : path)
| OpenAppend (p : path)
| OpenRead (p : path)
| FileWrite
| FileRead
| JsonLoad
| Makedirs (p : path)
| Remove (p : path)
| Move (src dst : path)
| Rmtree (p : path)
| Mkdtemp
| CreateObject (progid : string)
| NameSpace (p : path)
| Items
| CopyHere (flags : Z).

(** What one [InternetReadFile] does: it fails (returns FALSE), or
    succeeds and stores [data] in the buffer, no bytes at the end of
    the stream. *)
Inductive read_result : Type :=
| ReadFalse
| ReadBytes (data : string).

(** Everything the program does not control. *)
Record Env : Type := {
  (* the exception, if any, raised by the n-th call of the run *)
  fault : nat -> call -> option exn;
  (* os.path.abspath(sys.argv[0]), os.path.abspath(__file__),
     sys.executable *)
  script_path : path;
  module_file : path;
  sys_executable : path;
  (* tempfile.gettempdir() and the names mkdtemp tries in turn *)
  tempdir : path;
  mkdtemp_names : list string;
  (* standard output of a finished subprocess *)
  proc_stdout : list string -> string;
  (* WinINet: does InternetOpenW give a handle; per URL, no handle or
     the results of the successive reads (end of stream afterwards) *)
  wininet_open : bool;
  wininet_url : string -> option (list read_result);
  (* URLDownloadToFileW: the HRESULT and the content it would store *)
  urlmon : string -> Z * string;
  (* the body urllib receives *)
  urllib_body : string -> string;
  (* json.load on the text of a file; None when it is not JSON *)
  json_loads : string -> option pyval;
  (* the entries of a ZIP archive; None when the content is no
     archive *)
  zip_items : string -> option entries_t
}.

Record World : Type := {
  env : Env;
  fs : node;
  log : list record_t;
  calls : list call;
  (* directories made by tempfile.mkdtemp, oldest first *)
  created_tmp : list path;
  stdout : list string
}.

Definition set_fs (f : node) (w : World) : World :=
  {| env := env w; fs := f; log := log w; calls := calls w;
     created_tmp := created_tmp w; stdout := stdout w |}.
Definition add_log (r : record_t) (w : World) : World :=
  {| env := env w; fs := fs w; log := (log w ++ [r])%list;
     calls := calls w; created_tmp := created_tmp w; stdout := stdout w |}.
Definition add_call (c : call) (w : World) : World :=
  {| env := env w; fs := fs w; log := log w;
     calls := (calls w ++ [c])%list;
     created_tmp := created_tmp w; stdout := stdout w |}.
Definition add_tmp (d : path) (w : World) : World :=
  {| env := env w; fs := fs w; log := log w; calls := calls w;
     created_tmp := (created_tmp w ++ [d])%list; stdout := stdout w |}.
Definition add_stdout (s : string) (w : World) : World :=
  {| env := env w; fs := fs w; log := log w; calls := calls w;
     created_tmp := created_tmp w; stdout := (stdout w ++ [s])%list |}.

Inductive outcome (A : Type) : Type :=
| Ok (a : A)
| Raise (e : exn).
Arguments Ok {A} a.
Arguments Raise {A} e.

Definition M (A : Type) : Type := World -> outcome A * World.

Definition ret {A} (a : A) : M A := fun w => (Ok a, w).
Definition raise {A} (e : exn) : M A := fun w => (Raise e, w).
Definition bind {A B} (m : M A) (k : A -> M B) : M B :=
  fun w =>
    match m w with
    | (Ok a, w') => k a w'
    | (Raise e, w') => (Raise e, w')
    end.

(** [try: m  except Exception as e: h e] *)
Definition try_except {A} (m : M A) (h : exn -> M A) : M A :=
  fun w =>
    match m w with
    | (Ok a, w') => (Ok a, w')
    | (Raise e, w') => h e w'
    end.

(** [try: m  finally: f]; [m] stands for a block that may [return]. *)
Definition try_finally {A} (m : M A) (f : M unit) : M A :=
  fun w =>
    match m w with
    | (r, w') =>
        match f w' with
        | (Ok _, w'') => (r, w'')
        | (Raise e, w'') => (Raise e, w'')
        end
    end.

Definition get_env : M Env := fun w => (Ok (env w), w).
Definition get_fs : M node := fun w => (Ok (fs w), w).
Definition put_fs (f : node) : M unit := fun w => (Ok tt, set_fs f w).

End Sys.

Declare Scope py_scope.
Delimit Scope py_scope with py.
Notation "x <- m ;; k" := (Sys.bind m (fun x => k))
  (at level 61, m at next level, right associativity) : py_scope.
Notation "m ;; k" := (Sys.bind m (fun _ => k))
  (at level 61, right associativity) : py_scope.
Open Scope py_scope.

(** ** Library calls *)

Module Lib.
Import PyStr Py FS Sys.

(** [logging.info], [logging.warning], [logging.error] *)
Definition logging (l : level) (m : string) : M unit :=
  fun w => (Ok tt, add_log (l, m) w).

(** [print] *)
Definition print (s : string) : M unit :=
  fun w => (Ok tt, add_stdout s w).

(** An external call: it is recorded, and the environment may have it
    raise. *)
Definition ext (c : call) : M unit :=
  fun w =>
    match fault (env w) (length (calls w)) c with
    | Some e => (Raise e, add_call c w)
    | None => (Ok tt, add_call c w)
    end.

Definition os_path_exists (p : path) : M bool :=
  fun w => (Ok (exists_ (fs w) p), w).

(** [os.walk]: the triples are Python tuples. *)
Inductive pyobj : Type :=
| OPath (p : path)
| ONames (l : list string).

Definition pytuple : Type := list pyobj.

Definition os_walk (top : path) : M (list pytuple) :=
  fun w =>
    (Ok (map (fun t => match t with
                       | (d, ds, fl) => [OPath d; ONames ds; ONames fl]
                       end) (walk (fs w) top)), w).

(** [a, b = t] *)
Definition unpack2 (t : pytuple) : M (pyobj * pyobj) :=
  match t with
  | [a; b] => ret (a, b)
  | _ :: _ :: _ :: _ =>
      raise (Exn ValueError "too many values to unpack (expected 2)")
  | _ =>
      raise (Exn ValueError
               ("not enough values to unpack (expected 2, got "
                  ++ of_nat (length t) ++ ")"))
  end.

Fixpoint chars (s : string) : list string :=
  match s with
  | EmptyString => []
  | String c s' => String c EmptyString :: chars s'
  end.

(** [for x in o]: the elements of a list, the characters of a
    string. *)
Definition iterate (o : pyobj) : list string :=
  match o with
  | ONames l => l
  | OPath p => chars (path_str p)
  end.

(** [os.path.join(o, name)] *)
Definition os_path_join (o : pyobj) (name : string) : M path :=
  match o with
  | OPath p => ret (join p name)
  | ONames _ =>
      raise (Exn TypeError
               "expected str, bytes or os.PathLike object, not list")
  end.

Definition parent (p : path) : path := removelast p.

(** [open(p, 'wb')]: the file is created or emptied. *)
Definition open_wb (p : path) : M unit :=
  ext (OpenWrite p) ;;
  f <- get_fs ;;
  match lookup f p with
  | Some (Dir _) => raise (Exn PermissionError "Permission denied")
  | _ =>
      if is_dir f (parent p)
      then put_fs (put p (File EmptyString) f)
      else raise (Exn FileNotFoundError "No such file or directory")
  end.

(** [open(p, 'a')], as [logging.FileHandler] does. *)
Definition open_append (p : path) : M unit :=
  ext (OpenAppend p) ;;
  f <- get_fs ;;
  match lookup f p with
  | Some (Dir _) => raise (Exn PermissionError "Permission denied")
  | Some (File _) => ret tt
  | None =>
      if is_dir f (parent p)
      then put_fs (put p (File EmptyString) f)
      else raise (Exn FileNotFoundError "No such file or directory")
  end.

(** [f.write(data)] on a file just opened for writing. *)
Definition file_write (p : path) (data : string) : M unit :=
  ext FileWrite ;;
  f <- get_fs ;;
  put_fs (put p (File data) f).

(** [open(p, 'r')] then the content of the file. *)
Definition open_r (p : path) : M string :=
  ext (OpenRead p) ;;
  f <- get_fs ;;
  match lookup f p with
  | Some (File c) => ret c
  | Some (Dir _) => raise (Exn PermissionError "Permission denied")
  | None => raise (Exn FileNotFoundError "No such file or directory")
  end.

(** [os.makedirs(p)] *)
Definition os_makedirs (p : path) : M unit :=
  ext (Makedirs p) ;;
  f <- get_fs ;;
  if exists_ f p
  then raise (Exn FileExistsError "Cannot create a file when that file already exists")
  else match mkdirs p f with
       | Some f' => put_fs f'
       | None => raise (Exn NotADirectoryError "The directory name is invalid")
       end.

(** [os.remove(p)] *)
Definition os_remove (p : path) : M unit :=
  ext (Remove p) ;;
  f <- get_fs ;;
  match lookup f p with
  | Some (File _) => put_fs (delete p f)
  | Some (Dir _) => raise (Exn PermissionError "Access is denied")
  | None => raise (Exn FileNotFoundError "The system cannot find the file specified")
  end.

(** [shutil.rmtree(p)] *)
Definition shutil_rmtree (p : path) : M unit :=
  ext (Rmtree p) ;;
  f <- get_fs ;;
  match lookup f p with
  | Some (Dir _) => put_fs (delete p f)
  | Some (File _) => raise (Exn NotADirectoryError "The directory name is invalid")
  | None => raise (Exn FileNotFoundError "The system cannot find the path specified")
  end.

(** [shutil.move(src, dst)]: into [dst] when it is a directory, else
    onto it. *)
Definition shutil_move (src dst : path) : M unit :=
  ext (Move src dst) ;;
  f <- get_fs ;;
  match lookup f src with
  | None => raise (Exn FileNotFoundError "No such file or directory")
  | Some x =>
      let real_dst := if is_dir f dst then join dst (basename src) else dst in
      if is_dir f dst && exists_ f real_dst
      then raise (Exn ShutilError "Destination path already exists")
      else if is_dir f (parent real_dst)
      then put_fs (put real_dst x (delete src f))
      else raise (Exn FileNotFoundError "No such file or directory")
  end.

(** [tempfile.mkdtemp()]: the first candidate name that is free. *)
Fixpoint mkdtemp_try (dir : path) (names : list string) : M path :=
  match names with
  | [] => raise (Exn FileExistsError "No usable temporary directory name found")
  | n :: names' =>
      f <- get_fs ;;
      let d := join dir ("tmp" ++ n) in
      if exists_ f d then mkdtemp_try dir names'
      else if is_dir f dir
      then put_fs (put d (Dir []) f) ;;
           (fun w => (Ok tt, add_tmp d w)) ;;
           ret d
      else raise (Exn FileNotFoundError "No such file or directory")
  end.

Definition tempfile_mkdtemp : M path :=
  ext Mkdtemp ;;
  e <- get_env ;;
  mkdtemp_try (tempdir e) (mkdtemp_names e).

(** [subprocess.run(argv, capture_output=True, text=True,
    timeout=...)] then [.stdout] *)
Definition subprocess_run (argv : list string) (timeout : option Z)
  : M string :=
  ext (SubprocessRun argv timeout) ;;
  e <- get_env ;;
  ret (proc_stdout e argv).

(** [json.load(f)] on the file at [p], opened for reading. *)
Definition json_load (p : path) : M pyval :=
  c <- open_r p ;;
  ext JsonLoad ;;
  e <- get_env ;;
  match json_loads e c with
  | Some v => ret v
  | None => raise (Exn JSONDecodeError "Expecting value")
  end.

(** [d.get(k, dflt)] *)
Definition py_get (d : pyval) (k : string) (dflt : pyval) : M pyval :=
  match d with
  | PyDict kv =>
      ret match dict_lookup k kv with Some v => v | None => dflt end
  | _ => raise (Exn AttributeError "object has no attribute 'get'")
  end.

(** [shell.NameSpace(p)]: a folder object for a directory or an
    archive, None otherwise; the folder is given by its items. *)
Definition shell_NameSpace (p : path) : M (option entries_t) :=
  ext (NameSpace p) ;;
  f <- get_fs ;;
  e <- get_env ;;
  ret match lookup f p with
      | Some (Dir es) => Some es
      | Some (File c) => zip_items e c
      | None => None
      end.

(** [folder.Items()] *)
Definition folder_Items (items : entries_t) : M entries_t :=
  ext Items ;; ret items.

(** [dest_folder.CopyHere(items, flags)], [dest_folder] being the
    result of [shell.NameSpace(dest)].  The copy into a directory is
    modelled; the inside of an archive used as destination is not. *)
Definition folder_CopyHere (dest_folder : option entries_t) (dest : path)
  (items : entries_t) (flags : Z) : M unit :=
  match dest_folder with
  | None =>
      raise (Exn AttributeError
               "'NoneType' object has no attribute 'CopyHere'")
  | Some _ =>
      ext (CopyHere flags) ;;
      f <- get_fs ;;
      match lookup f dest with
      | Some (Dir es) => put_fs (replace_at dest (merge (Dir items) (Dir es)) f)
      | _ => ret tt
      end
  end.

(** [wintypes.name]: [ctypes.wintypes] defines [LPVOID], [LPCWSTR],
    [DWORD], [HANDLE], [BOOL] and the like, but no [HRESULT] (that
    name is in [ctypes]), so looking it up raises. *)
Definition wintypes_attr (name : string) : M unit :=
  if String.eqb name "HRESULT"
  then raise (Exn AttributeError
                "module 'ctypes.wintypes' has no attribute 'HRESULT'")
  else ret tt.

(** [URLDownloadToFileW(None, url, dst, flags, None)] with result
    type HRESULT: ctypes raises [OSError] on a failure code, so only
    success codes are returned. *)
Definition URLDownloadToFile (url : string) (dst : path) : M Z :=
  ext (URLDownloadToFileW url dst) ;;
  e <- get_env ;;
  f <- get_fs ;;
  let hr := fst (urlmon e url) in
  if Z.ltb hr 0 then raise (Exn OSError ("HRESULT " ++ of_Z hr))
  else if Z.eqb hr 0 then
    if is_dir f (parent dst) && negb (is_dir f dst)
    then put_fs (put dst (File (snd (urlmon e url))) f) ;; ret 0%Z
    else raise (Exn OSError "HRESULT -2146697208")
  else ret hr.

(** [with urlopen(req, timeout=t) as response, open(dst, 'wb') as
    out_file: shutil.copyfileobj(response, out_file)] *)
Definition urlopen_to_file (url : string) (timeout : option Z)
  (dst : path) : M unit :=
  ext (UrlOpen url timeout) ;;
  open_wb dst ;;
  ext CopyFileObj ;;
  e <- get_env ;;
  f <- get_fs ;;
  put_fs (put dst (File (urllib_body e url)) f).

End Lib.

(** ** The program *)

Module Main.
Import PyStr Py FS Sys Lib.

Definition LOG_FILE_NAME : string := "inet_read.log".

(** The loop of [inet_read]: read until a read fails or gives no
    bytes.  [script] is what the successive reads do. *)
Fixpoint read_loop (script : list read_result) (data : string)
  : M string :=
  ext InternetReadFile ;;
  match script with
  | [] => ret data
  | ReadFalse :: _ => ret data
  | ReadBytes b :: script' =>
      if Nat.eqb (String.length b) 0 then ret data
      else read_loop script' (data ++ b)
  end.

(** [inet_read(url)]: the bytes, or None. *)
Definition inet_read (url : string) : M (option string) :=
  try_except
    (logging INFO ("Using InetRead equivalent to download: " ++ url) ;;
     ext (LoadLibrary "wininet") ;;
     ext InternetOpenW ;;
     e <- get_env ;;
     if negb (wininet_open e) then
       logging ERROR "Failed to initialize WinINet" ;;
       ret None
     else
       try_finally
         (ext (InternetOpenUrlW url) ;;
          match wininet_url e url with
          | None =>
              logging ERROR ("Failed to open URL: " ++ url) ;;
              ret None
          | Some script =>
              try_finally
                (data <- read_loop script EmptyString ;;
                 logging INFO
                   ("Successfully downloaded "
                      ++ of_nat (String.length data)
                      ++ " bytes using InetRead equivalent") ;;
                 ret (Some data))
                (ext (InternetCloseHandle HUrl))
          end)
         (ext (InternetCloseHandle HInternet)))
    (fun e =>
       logging ERROR ("Error in InetRead equivalent: " ++ msg e) ;;
       ret None).

(** [download_file_inet_read(url, save_path)] *)
Definition download_file_inet_read (url : string) (save_path : path)
  : M bool :=
  try_except
    (data <- inet_read url ;;
     match data with
     | None => ret false
     | Some d =>
         open_wb save_path ;;
         file_write save_path d ;;
         logging INFO ("File saved to: " ++ path_str save_path) ;;
         ret true
     end)
    (fun e =>
       logging ERROR ("Error saving downloaded file: " ++ msg e) ;;
       ret false).

Definition is_driver_name (file : string) : bool :=
  String.eqb (lower file) "msedgedriver.exe".

(** The two nested loops of [extract_zip_with_shell]; the result is
    [found]. *)
Fixpoint extract_search (items : list pytuple) : M bool :=
  match items with
  | [] => ret false
  | t :: items' =>
      rf <- unpack2 t ;;
      if existsb is_driver_name (iterate (snd rf)) then ret true
      else extract_search items'
  end.

(** [extract_zip_with_shell(zip_path, extract_path)] *)
Definition extract_zip_with_shell (zip_path extract_path : path)
  : M bool :=
  try_except
    (logging INFO
       ("Extracting " ++ path_str zip_path ++ " to "
          ++ path_str extract_path ++ " using Shell.Application") ;;
     present <- os_path_exists extract_path ;;
     (if negb present then os_makedirs extract_path else ret tt) ;;
     ext (CreateObject "Shell.Application") ;;
     zip_folder <- shell_NameSpace zip_path ;;
     match zip_folder with
     | None =>
         logging ERROR ("Could not access ZIP file: " ++ path_str zip_path) ;;
         ret false
     | Some zf =>
         zip_items <- folder_Items zf ;;
         dest_folder <- shell_NameSpace extract_path ;;
         folder_CopyHere dest_folder extract_path zip_items 20 ;;
         let extracted_driver := join extract_path "msedgedriver.exe" in
         let completed :=
           logging INFO "ZIP extraction completed using Shell.Application" ;;
           ret true in
         at_top <- os_path_exists extracted_driver ;;
         if negb at_top then
           items <- os_walk extract_path ;;
           found <- extract_search items ;;
           if negb found then
             logging WARNING "msedgedriver.exe not found after extraction." ;;
             ret false
           else completed
         else completed
     end)
    (fun e =>
       logging ERROR
         ("Error extracting ZIP with Shell.Application: " ++ msg e) ;;
       ret false).

(** [download_file_with_wininet(url, save_path)] *)
Definition download_file_with_wininet (url : string) (save_path : path)
  : M bool :=
  try_except
    (logging INFO ("Attempting to download " ++ url ++ " using WinINet API") ;;
     returned <-
       try_except
         (ext (LoadLibrary "urlmon") ;;
          wintypes_attr "HRESULT" ;;
          result <- URLDownloadToFile url save_path ;;
          if Z.eqb result 0 then
            logging INFO
              ("Successfully downloaded to " ++ path_str save_path
                 ++ " using WinINet") ;;
            ret true
          else
            logging WARNING
              ("WinINet download failed with code " ++ of_Z result
                 ++ ", trying alternative") ;;
            ret false)
         (fun e =>
            logging WARNING
              ("WinINet API error: " ++ msg e ++ ", trying alternative") ;;
            ret false) ;;
     if returned then ret true
     else
       logging INFO "Attempting to download with urllib" ;;
       urlopen_to_file url (Some 30%Z) save_path ;;
       logging INFO
         ("Successfully downloaded to " ++ path_str save_path
            ++ " using urllib") ;;
       ret true)
    (fun e =>
       logging ERROR
         ("Error downloading file with WinINet and urllib: " ++ msg e) ;;
       ret false).

Definition edge_dir_x86 : path :=
  ["C:"; "Program Files (x86)"; "Microsoft"; "Edge"; "Application"].
Definition edge_dir_64 : path :=
  ["C:"; "Program Files"; "Microsoft"; "Edge"; "Application"].
Definition edge_paths : list path :=
  [join edge_dir_x86 "msedge.exe"; join edge_dir_64 "msedge.exe"].

Definition FALLBACK_VERSION : string := "136.0.3240.64".
Definition LATEST_STABLE_URL : string :=
  "https://msedgedriver.azureedge.net/LATEST_STABLE".

Definition wmic_argv (edge_path : path) : list string :=
  let wmic_path :=
    replace_char (ascii_of_nat 34) (String backslash dquote)
      (replace_char backslash (String backslash (String backslash EmptyString))
         (path_str edge_path)) in
  let wmic_query := "name=" ++ dquote ++ wmic_path ++ dquote in
  ["wmic"; "datafile"; "where"; wmic_query; "get"; "Version"; "/value"].

Definition reg_argv : list string :=
  ["reg"; "query"; "HKEY_CURRENT_USER\Software\Microsoft\Edge\BLBeacon";
   "/v"; "version"].

(** Method 1, the loop over [edge_paths]; [Some v] stands for
    [return v]. *)
Fixpoint method1_loop (paths : list path) : M (option string) :=
  match paths with
  | [] => ret None
  | edge_path :: paths' =>
      present <- os_path_exists edge_path ;;
      if present then
        out <- subprocess_run (wmic_argv edge_path) None ;;
        match Re.search Re.wmic_version out with
        | Some g =>
            let edge_version := strip g in
            logging INFO ("Edge version detected (wmic): " ++ edge_version) ;;
            ret (Some edge_version)
        | None => method1_loop paths'
        end
      else method1_loop paths'
  end.

Definition method1 : M (option string) :=
  try_except (method1_loop edge_paths)
    (fun e =>
       logging WARNING ("Could not get Edge version using wmic: " ++ msg e) ;;
       ret None).

(** Method 2, the registry. *)
Definition method2 : M (option string) :=
  try_except
    (out <- subprocess_run reg_argv None ;;
     match Re.search Re.reg_version out with
     | Some g =>
         let edge_version := strip g in
         logging INFO ("Edge version detected (registry): " ++ edge_version) ;;
         ret (Some edge_version)
     | None => ret None
     end)
    (fun e =>
       logging WARNING
         ("Could not get Edge version using registry: " ++ msg e) ;;
       ret None).

(** Method 3, the version file: [inl v] stands for [return v],
    [inr v] for falling through with [edge_version] equal to [v]. *)
Definition method3 : M (pyval + pyval) :=
  let unchanged := inr (PyStr EmptyString) in
  try_except
    (x86 <- os_path_exists edge_dir_x86 ;;
     let edge_dir := if negb x86 then edge_dir_64 else edge_dir_x86 in
     present <- os_path_exists edge_dir ;;
     if present then
       let version_file := join edge_dir "product_versions.json" in
       has_file <- os_path_exists version_file ;;
       if has_file then
         data <- json_load version_file ;;
         product <- py_get data "product" (PyDict []) ;;
         edge_version <- py_get product "version" (PyStr EmptyString) ;;
         if truthy edge_version then
           logging INFO
             ("Edge version detected (version file): " ++ str edge_version) ;;
           ret (inl edge_version)
         else ret (inr edge_version)
       else ret unchanged
     else ret unchanged)
    (fun e =>
       logging WARNING
         ("Could not get Edge version from version file: " ++ msg e) ;;
       ret unchanged).

(** The remote lookup inside the last block; [Some v] stands for
    [return v]. *)
Definition latest_stable : M (option string) :=
  try_except
    (e <- get_env ;;
     let temp_file := join (tempdir e) "edge_version.txt" in
     ok <- download_file_with_wininet LATEST_STABLE_URL temp_file ;;
     if ok then
       content <- open_r temp_file ;;
       ext FileRead ;;
       let edge_version := strip content in
       os_remove temp_file ;;
       logging INFO
         ("Using latest stable Edge driver version: " ++ edge_version) ;;
       ret (Some edge_version)
     else ret None)
    (fun e =>
       logging WARNING ("Could not get latest version: " ++ msg e) ;;
       ret None).

(** [get_edge_version()] *)
Definition get_edge_version : M pyval :=
  try_except
    (logging INFO "Detecting Edge browser version..." ;;
     r1 <- method1 ;;
     match r1 with
     | Some v => ret (PyStr v)
     | None =>
         r2 <- method2 ;;
         match r2 with
         | Some v => ret (PyStr v)
         | None =>
             r3 <- method3 ;;
             match r3 with
             | inl v => ret v
             | inr edge_version =>
                 if negb (truthy edge_version) then
                   logging WARNING
                     "Could not detect Edge version, using default latest version" ;;
                   r4 <- latest_stable ;;
                   match r4 with
                   | Some v => ret (PyStr v)
                   | None =>
                       logging INFO
                         ("Using fallback Edge version: " ++ FALLBACK_VERSION) ;;
                       ret (PyStr FALLBACK_VERSION)
                   end
                 else ret edge_version
             end
         end
     end)
    (fun e =>
       logging ERROR ("Error detecting Edge version: " ++ msg e) ;;
       logging INFO
         ("Using fallback Edge version due to error: " ++ FALLBACK_VERSION) ;;
       ret (PyStr FALLBACK_VERSION)).

Definition driver_url (edge_version : pyval) : string :=
  "https://msedgedriver.azureedge.net/" ++ str edge_version
    ++ "/edgedriver_win64.zip".

(** The inner loop of the search in [get_edge_driver_path], over the
    files of one directory; [Some p] stands for [return p]. *)
Fixpoint reconcile_files (root : pyobj) (files : list string)
  (base_path driver_path : path) : M (option path) :=
  match files with
  | [] => ret None
  | file :: files' =>
      if is_driver_name file then
        found_path <- os_path_join root file ;;
        (if negb (path_eqb (dirname found_path) base_path) then
           shutil_move found_path driver_path ;;
           logging INFO ("Moved Edge driver to: " ++ path_str driver_path)
         else ret tt) ;;
        moved <- os_path_exists driver_path ;;
        ret (Some (if moved then driver_path else found_path))
      else reconcile_files root files' base_path driver_path
  end.

(** The outer loop, over the tuples of [os.walk(base_path)]. *)
Fixpoint reconcile_walk (items : list pytuple)
  (base_path driver_path : path) : M (option path) :=
  match items with
  | [] => ret None
  | t :: items' =>
      rf <- unpack2 t ;;
      r <- reconcile_files (fst rf) (iterate (snd rf)) base_path driver_path ;;
      match r with
      | Some p => ret (Some p)
      | None => reconcile_walk items' base_path driver_path
      end
  end.

(** The last step of [get_edge_driver_path], after the extraction:
    the driver at its place, or looked for in the extracted files. *)
Definition reconcile (base_path driver_path : path) : M (option path) :=
  extracted <- os_path_exists driver_path ;;
  if extracted then
    logging INFO
      ("Edge driver downloaded and extracted to: " ++ path_str driver_path) ;;
    ret (Some driver_path)
  else
    items <- os_walk base_path ;;
    r <- reconcile_walk items base_path driver_path ;;
    match r with
    | Some p => ret (Some p)
    | None =>
        logging ERROR "Edge driver not found in extracted files." ;;
        ret None
    end.

(** The [try] block that follows [temp_dir = tempfile.mkdtemp()] in
    [get_edge_driver_path], with its [except] clause. *)
Definition try_download_and_extract (base_path driver_path : path)
  (edge_version : pyval) (temp_dir : path) : M (option path) :=
  try_except
    (let download_url := driver_url edge_version in
     let zip_path := join temp_dir "edgedriver.zip" in
     logging INFO ("Downloading Edge driver from: " ++ download_url) ;;
     downloaded <- download_file_inet_read download_url zip_path ;;
     if negb downloaded then
       logging ERROR "Failed to download Edge driver using InetRead method." ;;
       ret None
     else
       logging INFO "Extracting Edge driver using Shell.Application." ;;
       extracted <- extract_zip_with_shell zip_path base_path ;;
       if negb extracted then
         logging ERROR "Failed to extract Edge driver using Shell.Application." ;;
         ret None
       else
         try_except (os_remove zip_path) (fun _ => ret tt) ;;
         reconcile base_path driver_path)
    (fun e =>
       logging ERROR
         ("Error downloading or extracting Edge driver: " ++ msg e) ;;
       ret None).

(** Its [finally] clause. *)
Definition remove_temp_dir (temp_dir : path) : M unit :=
  try_except (shutil_rmtree temp_dir) (fun _ => ret tt).

(** The whole statement: try, except, finally. *)
Definition download_and_extract (base_path driver_path : path)
  (edge_version : pyval) (temp_dir : path) : M (option path) :=
  try_finally
    (try_download_and_extract base_path driver_path edge_version temp_dir)
    (remove_temp_dir temp_dir).

Definition base_path_of (e : Env) : path := dirname (script_path e).
Definition driver_path_of (e : Env) : path :=
  join (base_path_of e) "msedgedriver.exe".
Definition possible_driver_locations (e : Env) : list path :=
  [driver_path_of e; join (dirname (sys_executable e)) "msedgedriver.exe"].

(** The loop over [possible_driver_locations]; [Some p] stands for
    [return p]. *)
Fixpoint cache_check (locations : list path) : M (option path) :=
  match locations with
  | [] => ret None
  | p :: locations' =>
      present <- os_path_exists p ;;
      if present then
        logging INFO ("Edge driver found at: " ++ path_str p) ;;
        ret (Some p)
      else cache_check locations'
  end.

(** The outer [try] block of [get_edge_driver_path]. *)
Definition get_edge_driver_path_try : M (option path) :=
  e <- get_env ;;
  let base_path := base_path_of e in
  let driver_path := driver_path_of e in
  hit <- cache_check (possible_driver_locations e) ;;
  match hit with
  | Some p => ret (Some p)
  | None =>
      logging INFO "Edge driver not found in expected locations." ;;
      edge_version <- get_edge_version ;;
      if negb (truthy edge_version) then
        logging ERROR "Could not determine Edge version." ;;
        ret None
      else
        temp_dir <- tempfile_mkdtemp ;;
        download_and_extract base_path driver_path edge_version temp_dir
  end.

(** [get_edge_driver_path()]: the path of the driver, or None. *)
Definition get_edge_driver_path : M (option path) :=
  try_except get_edge_driver_path_try
    (fun e =>
       logging ERROR ("Error setting up Edge driver: " ++ msg e) ;;
       ret None).

(** [initialize_logging(folder_path)] *)
Definition initialize_logging (folder_path : path) : M unit :=
  let log_file := join folder_path LOG_FILE_NAME in
  open_append log_file ;;
  logging INFO ("Logging initialized. Log file: " ++ path_str log_file).

(** The body run under [if __name__ == "__main__":]. *)
Definition main : M unit :=
  e <- get_env ;;
  let folder := dirname (module_file e) in
  initialize_logging folder ;;
  driver_path <- get_edge_driver_path ;;
  match driver_path with
  | Some p =>
      if nonempty (path_str p)
      then print ("Edge driver is ready at: " ++ path_str p)
      else print "Failed to set up Edge driver."
  | None => print "Failed to set up Edge driver."
  end.

End Main.

(** ** Concrete machines

    A small disk and a few environments, used to run the program. *)

Module Scenario.
Import PyStr Py FS Sys Lib Main.

Definition nl : string := String newline EmptyString.

Definition edge_install : string * node :=
  ("Program Files (x86)",
    Dir [("Microsoft",
           Dir [("Edge",
                  Dir [("Application", Dir [("msedge.exe", File "MZ")])])])]).

(** Drive C: with the program in [C:\automation], Python in
    [C:\Python312], the temporary directory [C:\Temp] and Edge. *)
Definition disk (automation python temp : entries_t) : node :=
  Dir [("C:",
         Dir [("automation", Dir (("main.py", File "import os") :: automation));
              ("Python312", Dir (("python.exe", File "MZ") :: python));
              ("Temp", Dir temp);
              edge_install])].

Definition no_fault : nat -> call -> option exn := fun _ _ => None.

Definition machine (faults : nat -> call -> option exn)
  (stdout_of : list string -> string)
  (inet_open : bool) (inet_url : string -> option (list read_result))
  (urlmon_of : string -> Z * string)
  (archive : string -> option entries_t) : Env :=
  {| fault := faults;
     script_path := ["C:"; "automation"; "main.py"];
     module_file := ["C:"; "automation"; "main.py"];
     sys_executable := ["C:"; "Python312"; "python.exe"];
     tempdir := ["C:"; "Temp"];
     mkdtemp_names := ["k3x9q2ab"];
     proc_stdout := stdout_of;
     wininet_open := inet_open;
     wininet_url := inet_url;
     urlmon := urlmon_of;
     urllib_body := fun _ => EmptyString;
     json_loads := fun _ => None;
     zip_items := archive |}.

Definition boot (e : Env) (f : node) : World :=
  {| env := e; fs := f; log := []; calls := []; created_tmp := [];
     stdout := [] |}.

(** wmic answers with the version of the installed browser. *)
Definition wmic_answers (argv : list string) : string :=
  match argv with
  | "wmic" :: _ => nl ++ nl ++ "Version=136.0.3240.64" ++ nl ++ nl
  | _ => EmptyString
  end.

(** Neither wmic nor reg prints a version. *)
Definition silent (argv : list string) : string := EmptyString.

(** The registry value [version] is there, and empty. *)
Definition reg_empty_version (argv : list string) : string :=
  match argv with
  | "reg" :: _ =>
      nl ++ "HKEY_CURRENT_USER\Software\Microsoft\Edge\BLBeacon" ++ nl
         ++ "    version    REG_SZ    " ++ nl ++ nl
  | _ => EmptyString
  end.

Definition no_url (url : string) : option (list read_result) := None.
Definition urlmon_down (url : string) : Z * string :=
  ((-2146697208)%Z, EmptyString).
Definition no_archive (c : string) : option entries_t := None.

(** The archive arrives in two reads. *)
Definition archive_bytes : string := "PK0304".
Definition archive_in_two_reads (url : string) : option (list read_result) :=
  Some [ReadBytes "PK03"; ReadBytes "04"].

(** The third read fails: the stream is cut after four bytes. *)
Definition archive_cut (url : string) : option (list read_result) :=
  Some [ReadBytes "PK03"; ReadFalse; ReadBytes "04"].

Definition driver_file : string * node := ("msedgedriver.exe", File "MZ").

(** An archive with the driver at its root, and one with the driver
    inside a folder. *)
Definition flat_archive (c : string) : option entries_t :=
  if String.eqb c archive_bytes
  then Some [driver_file; ("Driver_Notes", Dir [("credits.html", File "c")])]
  else None.
Definition nested_archive (c : string) : option entries_t :=
  if String.eqb c archive_bytes
  then Some [("edgedriver_win64", Dir [driver_file])]
  else None.

(** (a) The driver is already beside the interpreter. *)
Definition w_cached : World :=
  boot (machine no_fault silent false no_url urlmon_down no_archive)
    (disk [] [driver_file] []).

(** (a') The driver is beside the script and beside the interpreter. *)
Definition w_cached_both : World :=
  boot (machine no_fault silent false no_url urlmon_down no_archive)
    (disk [driver_file] [driver_file] []).

(** (b) Version from wmic, WinINet cannot be initialised. *)
Definition w_offline : World :=
  boot (machine no_fault wmic_answers false no_url urlmon_down no_archive)
    (disk [] [] []).

(** (c) As (b), and the temporary directory cannot be removed. *)
Definition rmtree_denied (n : nat) (c : call) : option exn :=
  match c with
  | Rmtree _ =>
      Some (Exn PermissionError
              "The process cannot access the file because it is being used by another process")
  | _ => None
  end.
Definition w_offline_locked : World :=
  boot (machine rmtree_denied wmic_answers false no_url urlmon_down no_archive)
    (disk [] [] []).

(** (d) Everything works, the driver is at the root of the archive. *)
Definition w_flat : World :=
  boot (machine no_fault wmic_answers true archive_in_two_reads urlmon_down
          flat_archive)
    (disk [] [] []).

(** (d') As (d), and the temporary directory cannot be removed. *)
Definition w_flat_locked : World :=
  boot (machine rmtree_denied wmic_answers true archive_in_two_reads
          urlmon_down flat_archive)
    (disk [] [] []).

(** (d'') As (d), but no temporary directory can be made. *)
Definition mkdtemp_denied (n : nat) (c : call) : option exn :=
  match c with
  | Mkdtemp => Some (Exn OSError "[Errno 28] No space left on device")
  | _ => None
  end.
Definition w_mkdtemp_fails : World :=
  boot (machine mkdtemp_denied wmic_answers true archive_in_two_reads
          urlmon_down flat_archive)
    (disk [] [] []).

(** (e) Everything works, the driver is inside a folder of the
    archive. *)
Definition w_nested : World :=
  boot (machine no_fault wmic_answers true archive_in_two_reads urlmon_down
          nested_archive)
    (disk [] [] []).

(** (f) The registry holds an empty version. *)
Definition w_reg_empty : World :=
  boot (machine no_fault reg_empty_version true archive_in_two_reads
          urlmon_down flat_archive)
    (disk [] [] []).

(** (g) wmic and reg cannot be started. *)
Definition spawn_fails (n : nat) (c : call) : option exn :=
  match c with
  | SubprocessRun _ _ =>
      Some (Exn FileNotFoundError
              "[WinError 2] The system cannot find the file specified")
  | _ => None
  end.
Definition w_spawn_fails : World :=
  boot (machine spawn_fails silent false no_url urlmon_down no_archive)
    (disk [] [] []).

(** The same machine, where urllib receives [body]. *)
Definition with_urllib_body (body : string -> string) (e : Env) : Env :=
  {| fault := fault e;
     script_path := script_path e;
     module_file := module_file e;
     sys_executable := sys_executable e;
     tempdir := tempdir e;
     mkdtemp_names := mkdtemp_names e;
     proc_stdout := proc_stdout e;
     wininet_open := wininet_open e;
     wininet_url := wininet_url e;
     urlmon := urlmon e;
     urllib_body := body;
     json_loads := json_loads e;
     zip_items := zip_items e |}.

(** (h) No local version; the remote marker is fetched. *)
Definition latest_marker (url : string) : string := "137.0.0.1" ++ nl.
Definition w_remote : World :=
  boot (with_urllib_body latest_marker
          (machine no_fault silent false no_url urlmon_down no_archive))
    (disk [] [] []).

(** (i) As (h), but the marker cannot be decoded when read. *)
Definition read_undecodable (n : nat) (c : call) : option exn :=
  match c with
  | FileRead =>
      Some (Exn UnicodeDecodeError
              "'charmap' codec can't decode byte 0x8f in position 3")
  | _ => None
  end.
Definition w_remote_undecodable : World :=
  boot (with_urllib_body latest_marker
          (machine read_undecodable silent false no_url urlmon_down
             no_archive))
    (disk [] [] []).

(** (j) The archive stream is cut after the first read. *)
Definition w_cut : World :=
  boot (machine no_fault wmic_answers true archive_cut urlmon_down
          flat_archive)
    (disk [] [] []).

(** (k) No local version, and no network at all. *)
Definition urlopen_fails (n : nat) (c : call) : option exn :=
  match c with
  | UrlOpen _ _ =>
      Some (Exn URLError "<urlopen error [Errno 11001] getaddrinfo failed>")
  | _ => None
  end.
Definition w_no_network : World :=
  boot (machine urlopen_fails silent false no_url urlmon_down no_archive)
    (disk [] [] []).

(** (l) As (e), once the archive is stored in the workspace. *)
Definition w_nested_downloaded : World :=
  boot (machine no_fault wmic_answers true archive_in_two_reads urlmon_down
          nested_archive)
    (disk [] [] [("tmpk3x9q2ab", Dir [("edgedriver.zip", File archive_bytes)])]).

(** (m) As (d), once the archive is stored in the workspace. *)
Definition w_flat_downloaded : World :=
  boot (machine no_fault wmic_answers true archive_in_two_reads urlmon_down
          flat_archive)
    (disk [] [] [("tmpk3x9q2ab", Dir [("edgedriver.zip", File archive_bytes)])]).

Definition temp_file : path := ["C:"; "Temp"; "edge_version.txt"].
Definition workspace : path := ["C:"; "Temp"; "tmpk3x9q2ab"].
Definition base_path : path := ["C:"; "automation"].
Definition driver_path : path := ["C:"; "automation"; "msedgedriver.exe"].

End Scenario.

(** ** Vocabulary of the statements *)

Module Spec.
Import PyStr Py FS Sys Lib Main.

(** [w'] is [w] after some calls and some log records, all of them
    of the given kinds; no temporary directory was made and nothing
    was printed. *)
Definition extends (Qc : call -> Prop) (Ql : record_t -> Prop)
  (w w' : World) : Prop :=
  env w' = env w /\
  created_tmp w' = created_tmp w /\
  stdout w' = stdout w /\
  (exists l, calls w' = (calls w ++ l)%list /\ Forall Qc l) /\
  (exists l, log w' = (log w ++ l)%list /\ Forall Ql l).

(** Every run of [m] extends the world in that way. *)
Definition keeps (Qc : call -> Prop) (Ql : record_t -> Prop)
  {A} (m : M A) : Prop :=
  forall w, extends Qc Ql w (snd (m w)).

(** [m] always returns: no exception leaves it. *)
Definition total {A} (m : M A) : Prop :=
  forall w, exists a w', m w = (Ok a, w').

(** Whenever [m] returns, the value satisfies [Q]. *)
Definition returns {A} (Q : A -> Prop) (m : M A) : Prop :=
  forall w a w', m w = (Ok a, w') -> Q a.

(** A path that ends in a file name. *)
Definition named (p : path) : Prop :=
  exists q n, p = join q n /\ n <> EmptyString.
Definition named_result (r : option path) : Prop :=
  forall p, r = Some p -> named p.

Definition any_call (c : call) : Prop := True.
Definition any_record (r : record_t) : Prop := True.

(** A subprocess, if the call is one, is started without timeout. *)
Definition no_timeout (c : call) : Prop :=
  match c with
  | SubprocessRun _ t => t = None
  | _ => True
  end.

(** The call is to neither of the two transports of
    [download_file_with_wininet]. *)
Definition not_chain (c : call) : Prop :=
  match c with
  | URLDownloadToFileW _ _ | UrlOpen _ _ => False
  | _ => True
  end.

(** A call to one of the two transports, if the call is one, fetches
    the version marker. *)
Definition for_marker (c : call) : Prop :=
  match c with
  | URLDownloadToFileW url _ | UrlOpen url _ => url = LATEST_STABLE_URL
  | _ => True
  end.

Definition not_warning (r : record_t) : Prop := fst r <> WARNING.

Definition is_chain_call (c : call) : bool :=
  match c with
  | URLDownloadToFileW _ _ | UrlOpen _ _ => true
  | _ => false
  end.
Definition is_warning (r : record_t) : bool :=
  match fst r with WARNING => true | _ => false end.
Definition is_error (r : record_t) : bool :=
  match fst r with ERROR => true | _ => false end.

(** The bytes of successive reads, put together. *)
Definition joined (chunks : list string) (data : string) : string :=
  fold_left String.append chunks data.

(** The world after the calls of [l], in that order. *)
Definition add_calls (l : list call) (w : World) : World :=
  fold_left (fun w c => add_call c w) l w.

(** The world after [inet_read url] has read [chunks] and then met
    the end of the stream or a failed read. *)
Definition after_inet_read (url : string) (chunks : list string)
  (w : World) : World :=
  add_call (InternetCloseHandle HInternet)
    (add_call (InternetCloseHandle HUrl)
       (add_log
          (INFO,
           "Successfully downloaded "
             ++ of_nat (String.length (joined chunks EmptyString))
             ++ " bytes using InetRead equivalent")
          (add_calls (repeat InternetReadFile (S (length chunks)))
             (add_call (InternetOpenUrlW url)
                (add_call InternetOpenW
                   (add_call (LoadLibrary "wininet")
                      (add_log
                         (INFO,
                          "Using InetRead equivalent to download: " ++ url)
                         w))))))).

(** The world after [download_file_inet_read url save_path] has
    stored those bytes. *)
Definition after_download (url : string) (save_path : path)
  (chunks : list string) (w : World) : World :=
  let w1 := add_call (OpenWrite save_path) (after_inet_read url chunks w) in
  let w2 :=
    add_call FileWrite
      (set_fs (put save_path (File EmptyString) (fs w)) w1) in
  add_log (INFO, "File saved to: " ++ path_str save_path)
    (set_fs (put save_path (File (joined chunks EmptyString))
               (put save_path (File EmptyString) (fs w))) w2).

(** The environment never injects an exception. *)
Definition quiet (e : Env) : Prop := forall n c, fault e n c = None.

(** What [main] prints for a result of [get_edge_driver_path]. *)
Definition report (r : option path) : string :=
  match r with
  | Some p => "Edge driver is ready at: " ++ path_str p
  | None => "Failed to set up Edge driver."
  end.

(** The three records that announce a detected version of no
    characters. *)
Definition empty_version_records : list record_t :=
  [(INFO, "Edge version detected (wmic): ");
   (INFO, "Edge version detected (registry): ");
   (INFO, "Using latest stable Edge driver version: ")].

Definition unpack_error : exn :=
  Exn ValueError "too many values to unpack (expected 2)".

End Spec.

(** ** Vocabulary of the further properties *)

Module Vocab.
Import PyStr Py FS Sys Lib Main Spec.

(** Every run of [m] takes the world to one related to it by [R]. *)
Definition steps (R : World -> World -> Prop) {A} (m : M A) : Prop :=
  forall w, R w (snd (m w)).

(** The filesystem is the same. *)
Definition same_fs (w w' : World) : Prop := fs w' = fs w.

(** Whatever was a directory still is one. *)
Definition dirs_kept (w w' : World) : Prop :=
  forall q, is_dir (fs w) q = true -> is_dir (fs w') q = true.

(** [w'] is [w] after some calls, all of which satisfy [Q]. *)
Definition calls_since (Q : call -> Prop) (w w' : World) : Prop :=
  exists l, calls w' = (calls w ++ l)%list /\ Forall Q l.

(** What a run may call: nothing is moved, and what goes through the
    two transports of [download_file_with_wininet] is the version
    marker. *)
Definition expected_call (c : call) : Prop :=
  match c with
  | Move _ _ => False
  | URLDownloadToFileW url _ | UrlOpen url _ => url = LATEST_STABLE_URL
  | _ => True
  end.

(** A call that leaves the machine: loading urlmon, the two
    transports, the copy of the response. *)
Definition is_network (c : call) : bool :=
  match c with
  | LoadLibrary _ | URLDownloadToFileW _ _ | UrlOpen _ _ | CopyFileObj => true
  | _ => false
  end.
Definition local_call (c : call) : Prop := is_network c = false.

(** A step that stays on the machine and leaves the filesystem as it
    is. *)
Definition local_step (w w' : World) : Prop :=
  fs w' = fs w /\ calls_since local_call w w'.

(** The last block of [get_edge_version], entered when the three
    local methods have left [edge_version] empty: the warning, the
    remote lookup, and the hardcoded version when that fails. *)
Definition remote_or_default : M pyval :=
  logging WARNING
    "Could not detect Edge version, using default latest version" ;;
  r4 <- latest_stable ;;
  match r4 with
  | Some v => ret (PyStr v)
  | None =>
      logging INFO ("Using fallback Edge version: " ++ FALLBACK_VERSION) ;;
      ret (PyStr FALLBACK_VERSION)
  end.

(** Every character of [s] satisfies [P]. *)
Fixpoint all_chars (P : ascii -> bool) (s : string) : bool :=
  match s with
  | EmptyString => true
  | String c s' => P c && all_chars P s'
  end.

Definition not_char (d : ascii) (c : ascii) : bool := negb (Ascii.eqb c d).
Definition not_newline (c : ascii) : bool := negb (Ascii.eqb c newline).

(** [t] is empty or begins with a newline: the line ends there. *)
Definition ends_line (t : string) : bool :=
  match t with
  | EmptyString => true
  | String c _ => Ascii.eqb c newline
  end.

(** [t] does not begin with white space. *)
Definition starts_solid (t : string) : bool :=
  match t with
  | EmptyString => false
  | String c _ => negb (is_space c)
  end.

(** [d] is [p] or lies above it, names compared as the filesystem
    compares them. *)
Fixpoint prefix_ci (d p : path) : bool :=
  match d, p with
  | [], _ => true
  | c :: d', c' :: p' => name_eqb c c' && prefix_ci d' p'
  | _ :: _, [] => false
  end.

(** Whenever [m] returns, the value and the world satisfy [Q]. *)
Definition post {A} (Q : A -> World -> Prop) (m : M A) : Prop :=
  forall w a w', m w = (Ok a, w') -> Q a w'.

(** The driver that [get_edge_driver_path] returns after a download
    is at [driver_path]. *)
Definition at_driver_path (dr : path) (r : option path) (w : World) : Prop :=
  forall p, r = Some p -> p = dr /\ exists_ (fs w) dr = true.

(** The wmic processes of method 1 when none of them prints a
    version: one for each of [edge_paths] that exists. *)
Definition wmic_calls (f : node) : list call :=
  map (fun p => SubprocessRun (wmic_argv p) None)
    (filter (exists_ f) edge_paths).

(** The directory method 3 looks into. *)
Definition edge_dir_of (f : node) : path :=
  if negb (exists_ f edge_dir_x86) then edge_dir_64 else edge_dir_x86.

(** reg prints the recorded version, wmic nothing. *)
Definition reg_answers (argv : list string) : string :=
  match argv with
  | "reg" :: _ =>
      Scenario.nl ++ "HKEY_CURRENT_USER\Software\Microsoft\Edge\BLBeacon"
        ++ Scenario.nl ++ "    version    REG_SZ    136.0.3240.64"
        ++ Scenario.nl ++ Scenario.nl
  | _ => EmptyString
  end.

Definition w_registry : World :=
  Scenario.boot
    (Scenario.machine Scenario.no_fault reg_answers false Scenario.no_url
       Scenario.urlmon_down Scenario.no_archive)
    (Scenario.disk [] [] []).

(** Only the version file tells the version. *)
Definition manifest_text : string :=
  "{" ++ dquote ++ "product" ++ dquote ++ ": {" ++ dquote ++ "version"
    ++ dquote ++ ": " ++ dquote ++ "136.0.3240.64" ++ dquote ++ "}}".
Definition manifest_value : pyval :=
  PyDict [("product", PyDict [("version", PyStr "136.0.3240.64")])].

Definition w_manifest : World :=
  Scenario.boot
    {| fault := Scenario.no_fault;
       script_path := ["C:"; "automation"; "main.py"];
       module_file := ["C:"; "automation"; "main.py"];
       sys_executable := ["C:"; "Python312"; "python.exe"];
       tempdir := ["C:"; "Temp"];
       mkdtemp_names := ["k3x9q2ab"];
       proc_stdout := Scenario.silent;
       wininet_open := false;
       wininet_url := Scenario.no_url;
       urlmon := Scenario.urlmon_down;
       urllib_body := fun _ => EmptyString;
       json_loads :=
         fun c => if String.eqb c manifest_text then Some manifest_value
                  else None;
       zip_items := Scenario.no_archive |}
    (put (join edge_dir_x86 "product_versions.json") (File manifest_text)
       (Scenario.disk [] [] [])).

(** The log file cannot be opened. *)
Definition log_denied (n : nat) (c : call) : option exn :=
  match c with
  | OpenAppend _ => Some (Exn PermissionError "[Errno 13] Permission denied")
  | _ => None
  end.
Definition w_log_denied : World :=
  Scenario.boot
    (Scenario.machine log_denied Scenario.wmic_answers false Scenario.no_url
       Scenario.urlmon_down Scenario.no_archive)
    (Scenario.disk [] [] []).

End Vocab.

(** ** Facts about the filesystem *)

Module FSFacts.
Import PyStr FS.

Lemma assoc_remove_entry (n : string) (es : entries_t) :
  assoc n (remove_entry n es) = None.
Proof.
  induction es as [|[m x] es IH]; simpl; [reflexivity|].
  destruct (name_eqb n m) eqn:E; simpl; [exact IH|].
  rewrite E. exact IH.
Qed.

Lemma assoc_set_entry (n : string) (x : node) (es : entries_t) :
  assoc n (set_entry n x es) = Some x.
Proof.
  induction es as [|[m y] es IH]; simpl.
  - unfold name_eqb. rewrite String.eqb_refl. reflexivity.
  - destruct (name_eqb n m) eqn:E; simpl; rewrite E; [reflexivity|exact IH].
Qed.

Lemma assoc_alter_entries (n : string) (f : option node -> option node)
  (es : entries_t) :
  assoc n (alter_entries n f es) = f (assoc n es).
Proof.
  unfold alter_entries. destruct (f (assoc n es)) as [y|].
  - apply assoc_set_entry.
  - apply assoc_remove_entry.
Qed.

(** Looking at [p] after a change at [p]. *)
Lemma lookup_alter (f : option node -> option node) (p : path) :
  p <> [] ->
  forall nd,
    lookup (alter p f nd) p
    = match lookup nd (removelast p) with
      | Some (Dir _) => f (lookup nd p)
      | _ => lookup nd p
      end.
Proof.
  intros Hp. induction p as [|c p IH]; [congruence|].
  intro nd. destruct p as [|c' p'].
  - simpl. destruct nd as [s|es]; simpl; [reflexivity|].
    rewrite assoc_alter_entries.
    destruct (assoc c es) as [ch|]; simpl; destruct (f _); reflexivity.
  - assert (Hne : c' :: p' <> []) by discriminate.
    specialize (IH Hne).
    change (removelast (c :: c' :: p')) with (c :: removelast (c' :: p')).
    destruct nd as [s|es]; [reflexivity|].
    change (alter (c :: c' :: p') f (Dir es))
      with (Dir (alter_entries c
                   (fun o => match o with
                             | Some ch => Some (alter (c' :: p') f ch)
                             | None => None
                             end) es)).
    change (lookup (Dir ?d) (c :: ?q))
      with (match assoc c d with Some ch => lookup ch q | None => None end).
    rewrite assoc_alter_entries.
    destruct (assoc c es) as [ch|]; [apply IH|reflexivity].
Qed.

(** Whatever exists lies in a directory. *)
Lemma lookup_parent (p : path) :
  p <> [] ->
  forall nd x, lookup nd p = Some x ->
  exists es, lookup nd (removelast p) = Some (Dir es).
Proof.
  intros Hp. induction p as [|c p IH]; [congruence|].
  intros nd x H. destruct p as [|c' p'].
  - simpl in *. destruct nd as [s|es]; [discriminate|eauto].
  - change (removelast (c :: c' :: p')) with (c :: removelast (c' :: p')).
    destruct nd as [s|es]; [discriminate|].
    simpl in H |- *. destruct (assoc c es) as [ch|]; [|discriminate].
    apply (IH ltac:(discriminate) ch x H).
Qed.

Lemma lookup_delete (p : path) (nd : node) :
  p <> [] -> lookup (delete p nd) p = None.
Proof.
  intro Hp. unfold delete. rewrite lookup_alter by assumption.
  destruct (lookup nd p) as [x|] eqn:E.
  - destruct (lookup_parent p Hp nd x E) as [es Hes]. rewrite Hes. reflexivity.
  - destruct (lookup nd (removelast p)) as [[s|es]|]; reflexivity.
Qed.

Lemma lookup_put (p : path) (x nd : node) :
  p <> [] -> is_dir nd (removelast p) = true ->
  lookup (put p x nd) p = Some x.
Proof.
  intros Hp Hd. unfold put. rewrite lookup_alter by assumption.
  unfold is_dir in Hd.
  destruct (lookup nd (removelast p)) as [[s|es]|]; congruence.
Qed.

(** A change at [p] leaves the directory above [p] a directory. *)
Lemma is_dir_alter_parent (f : option node -> option node) (p : path) :
  p <> [] ->
  forall nd,
    is_dir nd (removelast p) = true ->
    is_dir (alter p f nd) (removelast p) = true.
Proof.
  intros Hp. induction p as [|c p IH]; [congruence|].
  intros nd H. destruct p as [|c' p'].
  - simpl in *. unfold is_dir in *. simpl in *.
    destruct nd as [s|es]; [discriminate|reflexivity].
  - change (removelast (c :: c' :: p')) with (c :: removelast (c' :: p')) in *.
    unfold is_dir in H |- *.
    destruct nd as [s|es]; [discriminate|].
    change (alter (c :: c' :: p') f (Dir es))
      with (Dir (alter_entries c
                   (fun o => match o with
                             | Some ch => Some (alter (c' :: p') f ch)
                             | None => None
                             end) es)).
    change (lookup (Dir ?d) (c :: ?q))
      with (match assoc c d with Some ch => lookup ch q | None => None end)
      in H |- *.
    rewrite assoc_alter_entries.
    destruct (assoc c es) as [ch|]; [|discriminate].
    apply (IH ltac:(discriminate) ch). exact H.
Qed.

Lemma is_dir_delete (p : path) (nd : node) :
  p <> [] -> is_dir (delete p nd) p = false.
Proof.
  intro Hp. unfold is_dir. rewrite lookup_delete; auto.
Qed.

Lemma exists_delete (p : path) (nd : node) :
  p <> [] -> exists_ (delete p nd) p = false.
Proof.
  intro Hp. unfold exists_. rewrite lookup_delete; auto.
Qed.

Lemma join_not_nil (p : path) (n : string) : join p n <> [].
Proof. unfold join. destruct p; discriminate. Qed.

(** [os.walk] on a directory yields its own triple first. *)
Lemma walk_dir (fs : node) (top : path) :
  is_dir fs top = true ->
  exists ds fl rest, walk fs top = (top, ds, fl) :: rest.
Proof.
  unfold is_dir, walk. destruct (lookup fs top) as [[s|es]|]; try discriminate.
  intros _. simpl. eauto.
Qed.

End FSFacts.

(** ** Facts about computations *)

Module MFacts.
Import PyStr Py FS Sys Lib Main Spec.

Lemma ext_quiet (c : call) (w : World) :
  fault (env w) (length (calls w)) c = None ->
  ext c w = (Ok tt, add_call c w).
Proof. intro H. unfold ext. rewrite H. reflexivity. Qed.

Lemma ext_fault (c : call) (w : World) (e : exn) :
  fault (env w) (length (calls w)) c = Some e ->
  ext c w = (Raise e, add_call c w).
Proof. intro H. unfold ext. rewrite H. reflexivity. Qed.

(** *** Computations that always return *)

Lemma total_ret {A} (a : A) : total (ret a).
Proof. intro w. exists a, w. reflexivity. Qed.

Lemma total_logging (l : level) (m : string) : total (logging l m).
Proof. intro w. eexists. eexists. reflexivity. Qed.

Lemma total_bind {A B} (m : M A) (k : A -> M B) :
  total m -> (forall a, total (k a)) -> total (bind m k).
Proof.
  intros Hm Hk w. destruct (Hm w) as (a & w1 & E).
  destruct (Hk a w1) as (b & w2 & E2).
  exists b, w2. unfold bind. rewrite E. exact E2.
Qed.

Lemma total_try_except {A} (m : M A) (h : exn -> M A) :
  (forall e, total (h e)) -> total (try_except m h).
Proof.
  intros Hh w. unfold try_except.
  destruct (m w) as [[a|e] w1].
  - eauto.
  - apply Hh.
Qed.

Lemma total_try_finally {A} (m : M A) (f : M unit) :
  total m -> total f -> total (try_finally m f).
Proof.
  intros Hm Hf w. unfold try_finally.
  destruct (Hm w) as (a & w1 & E). rewrite E.
  destruct (Hf w1) as ([] & w2 & E2). rewrite E2. eauto.
Qed.

(** *** Frames *)

Section Frames.
Variable Qc : call -> Prop.
Variable Ql : record_t -> Prop.

Lemma extends_refl (w : World) : extends Qc Ql w w.
Proof.
  repeat split; try reflexivity.
  - exists []. rewrite app_nil_r. auto.
  - exists []. rewrite app_nil_r. auto.
Qed.

Lemma extends_trans (w1 w2 w3 : World) :
  extends Qc Ql w1 w2 -> extends Qc Ql w2 w3 -> extends Qc Ql w1 w3.
Proof.
  intros (He & Ht & Hs & (lc & Hc & Fc) & (ll & Hl & Fl))
         (He' & Ht' & Hs' & (lc' & Hc' & Fc') & (ll' & Hl' & Fl')).
  repeat split; try congruence.
  - exists (lc ++ lc')%list. split.
    + rewrite Hc', Hc, app_assoc. reflexivity.
    + apply Forall_app; auto.
  - exists (ll ++ ll')%list. split.
    + rewrite Hl', Hl, app_assoc. reflexivity.
    + apply Forall_app; auto.
Qed.

Lemma extends_set_fs (f : node) (w : World) :
  extends Qc Ql w (set_fs f w).
Proof.
  repeat split; try reflexivity; exists []; simpl;
    rewrite app_nil_r; auto.
Qed.

Lemma extends_add_log (r : record_t) (w : World) :
  Ql r -> extends Qc Ql w (add_log r w).
Proof.
  intro H. repeat split; try reflexivity.
  - exists []. rewrite app_nil_r. auto.
  - exists [r]. auto.
Qed.

Lemma extends_add_call (c : call) (w : World) :
  Qc c -> extends Qc Ql w (add_call c w).
Proof.
  intro H. repeat split; try reflexivity.
  - exists [c]. auto.
  - exists []. rewrite app_nil_r. auto.
Qed.

Lemma keeps_ret {A} (a : A) : keeps Qc Ql (ret a).
Proof. intro w. apply extends_refl. Qed.

Lemma keeps_raise {A} (e : exn) : keeps Qc Ql (@raise A e).
Proof. intro w. apply extends_refl. Qed.

Lemma keeps_bind {A B} (m : M A) (k : A -> M B) :
  keeps Qc Ql m -> (forall a, keeps Qc Ql (k a)) ->
  keeps Qc Ql (bind m k).
Proof.
  intros Hm Hk w. specialize (Hm w). unfold bind.
  destruct (m w) as [[a|e] w1]; simpl in Hm.
  - eapply extends_trans; [exact Hm|apply Hk].
  - exact Hm.
Qed.

Lemma keeps_try_except {A} (m : M A) (h : exn -> M A) :
  keeps Qc Ql m -> (forall e, keeps Qc Ql (h e)) ->
  keeps Qc Ql (try_except m h).
Proof.
  intros Hm Hh w. specialize (Hm w). unfold try_except.
  destruct (m w) as [[a|e] w1]; simpl in Hm.
  - exact Hm.
  - eapply extends_trans; [exact Hm|apply Hh].
Qed.

Lemma keeps_try_finally {A} (m : M A) (f : M unit) :
  keeps Qc Ql m -> keeps Qc Ql f -> keeps Qc Ql (try_finally m f).
Proof.
  intros Hm Hf w. specialize (Hm w). unfold try_finally.
  destruct (m w) as [r w1]; simpl in Hm.
  specialize (Hf w1). destruct (f w1) as [[u|e] w2]; simpl in Hf |- *;
    eapply extends_trans; eauto.
Qed.

Lemma keeps_logging (l : level) (m : string) :
  Ql (l, m) -> keeps Qc Ql (logging l m).
Proof. intros H w. apply extends_add_log. exact H. Qed.

Lemma keeps_ext (c : call) : Qc c -> keeps Qc Ql (ext c).
Proof.
  intros H w. unfold ext.
  destruct (fault _ _ _); apply extends_add_call; exact H.
Qed.

Lemma keeps_get_env : keeps Qc Ql get_env.
Proof. intro w. apply extends_refl. Qed.

Lemma keeps_get_fs : keeps Qc Ql get_fs.
Proof. intro w. apply extends_refl. Qed.

Lemma keeps_put_fs (f : node) : keeps Qc Ql (put_fs f).
Proof. intro w. apply extends_set_fs. Qed.

Lemma keeps_os_path_exists (p : path) : keeps Qc Ql (os_path_exists p).
Proof. intro w. apply extends_refl. Qed.

Lemma keeps_os_walk (p : path) : keeps Qc Ql (os_walk p).
Proof. intro w. apply extends_refl. Qed.

End Frames.

Lemma keeps_weaken (Qc Qc' : call -> Prop) (Ql Ql' : record_t -> Prop)
  {A} (m : M A) :
  (forall c, Qc c -> Qc' c) -> (forall r, Ql r -> Ql' r) ->
  keeps Qc Ql m -> keeps Qc' Ql' m.
Proof.
  intros Hc Hl H w.
  destruct (H w) as (He & Ht & Hs & (lc & Ec & Fc) & (ll & El & Fl)).
  repeat split; auto.
  - exists lc. split; [exact Ec|]. eapply Forall_impl; eauto.
  - exists ll. split; [exact El|]. eapply Forall_impl; eauto.
Qed.

(** The side conditions on single calls and records. *)
Ltac side :=
  solve [ exact I
        | reflexivity
        | assumption
        | unfold not_warning; simpl; discriminate
        | simpl; auto ].

(** One step of a frame proof: follow the structure of the
    computation. *)
Ltac frame_step :=
  lazymatch goal with
  | |- keeps _ _ (bind _ _) => apply keeps_bind; [|intros]
  | |- keeps _ _ (try_except _ _) => apply keeps_try_except; [|intros]
  | |- keeps _ _ (try_finally _ _) => apply keeps_try_finally
  | |- keeps _ _ (ret _) => apply keeps_ret
  | |- keeps _ _ (raise _) => apply keeps_raise
  | |- keeps _ _ (logging _ _) => apply keeps_logging; side
  | |- keeps _ _ (ext _) => apply keeps_ext; side
  | |- keeps _ _ get_env => apply keeps_get_env
  | |- keeps _ _ get_fs => apply keeps_get_fs
  | |- keeps _ _ (put_fs _) => apply keeps_put_fs
  | |- keeps _ _ (os_path_exists _) => apply keeps_os_path_exists
  | |- keeps _ _ (os_walk _) => apply keeps_os_walk
  | |- keeps _ _ (match ?x with _ => _ end) => destruct x
  | |- keeps _ _ (let _ := _ in _) => cbv zeta
  end.

Create HintDb frames.

Ltac frame :=
  repeat first
    [ frame_step
    | solve [eauto with frames]
    | progress unfold unpack2, os_path_join, open_wb, open_append, file_write,
        open_r, os_makedirs, os_remove, shutil_rmtree, shutil_move,
        subprocess_run, json_load, py_get, shell_NameSpace, folder_Items,
        folder_CopyHere, wintypes_attr, URLDownloadToFile, urlopen_to_file ].

End MFacts.

(** ** Frames of the program's functions *)

Module ProgFrames.
Import PyStr Py FS Sys Lib Main Spec MFacts.

Section Loops.
Variable Qc : call -> Prop.
Variable Ql : record_t -> Prop.
Hypothesis Ql_info : forall m, Ql (INFO, m).

Lemma keeps_read_loop :
  Qc InternetReadFile ->
  forall script data, keeps Qc Ql (read_loop script data).
Proof.
  intros H script. induction script as [|r script IH]; intro data;
    cbn [read_loop]; frame.
Qed.

Lemma keeps_extract_search :
  forall items, keeps Qc Ql (extract_search items).
Proof.
  induction items as [|t items IH]; cbn [extract_search]; frame.
Qed.

Lemma keeps_method1_loop :
  (forall argv, Qc (SubprocessRun argv None)) ->
  forall paths, keeps Qc Ql (method1_loop paths).
Proof.
  intros H paths. induction paths as [|p paths IH];
    cbn [method1_loop]; frame.
Qed.

Lemma keeps_reconcile_files :
  (forall a b, Qc (Move a b)) ->
  forall root files base_path driver_path,
    keeps Qc Ql (reconcile_files root files base_path driver_path).
Proof.
  intros H root files base_path driver_path.
  induction files as [|f files IH]; cbn [reconcile_files]; frame.
Qed.

Lemma keeps_reconcile_walk :
  (forall a b, Qc (Move a b)) ->
  forall items base_path driver_path,
    keeps Qc Ql (reconcile_walk items base_path driver_path).
Proof.
  intros H items base_path driver_path.
  induction items as [|t items IH]; cbn [reconcile_walk]; frame.
  apply keeps_reconcile_files; assumption.
Qed.

Lemma keeps_cache_check :
  forall locations, keeps Qc Ql (cache_check locations).
Proof.
  induction locations as [|p locations IH]; cbn [cache_check]; frame.
Qed.

End Loops.

(** The archive download goes through WinINet reads only and logs no
    warning. *)
Lemma keeps_inet_read (url : string) :
  keeps not_chain not_warning (inet_read url).
Proof.
  unfold inet_read. frame.
  apply keeps_read_loop; side.
Qed.

Lemma keeps_download_file_inet_read (url : string) (save_path : path) :
  keeps not_chain not_warning (download_file_inet_read url save_path).
Proof.
  unfold download_file_inet_read. frame.
  apply keeps_inet_read.
Qed.

Lemma keeps_download_file_with_wininet (url : string) (save_path : path) :
  keeps no_timeout any_record (download_file_with_wininet url save_path).
Proof. unfold download_file_with_wininet. frame. Qed.

Lemma keeps_method1 : keeps no_timeout any_record method1.
Proof.
  unfold method1. frame.
  apply keeps_method1_loop; intros; side.
Qed.

Lemma keeps_method2 : keeps no_timeout any_record method2.
Proof. unfold method2. frame. Qed.

Lemma keeps_method3 : keeps no_timeout any_record method3.
Proof. unfold method3. frame. Qed.

Lemma keeps_latest_stable : keeps no_timeout any_record latest_stable.
Proof.
  unfold latest_stable. frame.
  apply keeps_download_file_with_wininet.
Qed.

(** Version detection starts its subprocesses without timeout, and
    makes no temporary directory. *)
Lemma keeps_get_edge_version : keeps no_timeout any_record get_edge_version.
Proof.
  unfold get_edge_version. frame.
  - apply keeps_method1.
  - apply keeps_method2.
  - apply keeps_method3.
  - apply keeps_latest_stable.
Qed.

Lemma keeps_extract_zip_with_shell (zip_path extract_path : path) :
  keeps any_call any_record (extract_zip_with_shell zip_path extract_path).
Proof.
  unfold extract_zip_with_shell. frame.
  all: apply keeps_extract_search.
Qed.

Lemma keeps_reconcile (base_path driver_path : path) :
  keeps any_call any_record (reconcile base_path driver_path).
Proof.
  unfold reconcile. frame.
  apply keeps_reconcile_walk; intros; side.
Qed.

Lemma keeps_try_download_and_extract (base_path driver_path : path)
  (v : pyval) (d : path) :
  keeps any_call any_record
    (try_download_and_extract base_path driver_path v d).
Proof.
  unfold try_download_and_extract. frame.
  - eapply keeps_weaken; [| |apply keeps_download_file_inet_read];
      intros; exact I.
  - apply keeps_extract_zip_with_shell.
  - apply keeps_reconcile.
Qed.

Lemma total_try_download_and_extract (base_path driver_path : path)
  (v : pyval) (d : path) :
  total (try_download_and_extract base_path driver_path v d).
Proof.
  unfold try_download_and_extract. apply total_try_except.
  intro e. apply total_bind; [apply total_logging|].
  intros _. apply total_ret.
Qed.

End ProgFrames.

(** ** What the functions return *)

Module ProgResults.
Import PyStr Py FS Sys Lib Main Spec MFacts.

Lemma returns_ret {A} (Q : A -> Prop) (a : A) : Q a -> returns Q (ret a).
Proof. intros H w a' w' E. inversion E; subst. exact H. Qed.

Lemma returns_raise {A} (Q : A -> Prop) (e : exn) : returns Q (@raise A e).
Proof. intros w a' w' E. discriminate E. Qed.

Lemma returns_bind {A B} (P : A -> Prop) (Q : B -> Prop)
  (m : M A) (k : A -> M B) :
  returns P m -> (forall a, P a -> returns Q (k a)) ->
  returns Q (bind m k).
Proof.
  intros Hm Hk w b w' E. unfold bind in E.
  destruct (m w) as [[a|e] w1] eqn:Em; [|discriminate].
  eapply Hk; [eapply Hm; exact Em|exact E].
Qed.

Lemma returns_any {A} (m : M A) : returns (fun _ => True) m.
Proof. intros w a w' _. exact I. Qed.

Lemma returns_seq {A B} (Q : B -> Prop) (m : M A) (k : A -> M B) :
  (forall a, returns Q (k a)) -> returns Q (bind m k).
Proof.
  intro Hk. apply (returns_bind (fun _ => True)); [apply returns_any|auto].
Qed.

Lemma returns_try_except {A} (Q : A -> Prop) (m : M A) (h : exn -> M A) :
  returns Q m -> (forall e, returns Q (h e)) -> returns Q (try_except m h).
Proof.
  intros Hm Hh w a w' E. unfold try_except in E.
  destruct (m w) as [[a0|e] w1] eqn:Em.
  - inversion E; subst. eapply Hm; exact Em.
  - eapply Hh; exact E.
Qed.

Lemma returns_try_finally {A} (Q : A -> Prop) (m : M A) (f : M unit) :
  returns Q m -> returns Q (try_finally m f).
Proof.
  intros Hm w a w' E. unfold try_finally in E.
  destruct (m w) as [r w1] eqn:Em.
  destruct (f w1) as [[u|e] w2]; [|discriminate].
  inversion E; subst. eapply Hm; exact Em.
Qed.

Lemma nonempty_app_r (a b : string) :
  nonempty b = true -> nonempty (a ++ b) = true.
Proof. intro H. destruct a; simpl; auto. Qed.

Lemma nonempty_app_l (a b : string) :
  nonempty a = true -> nonempty (a ++ b) = true.
Proof. intro H. destruct a; simpl; [discriminate H|reflexivity]. Qed.

(** A path that ends in a file name is not the empty text. *)
Lemma named_nonempty (p : path) :
  named p -> nonempty (path_str p) = true.
Proof.
  intros (q & n & -> & Hn). unfold join, path_str.
  destruct q as [|a q]; simpl.
  - apply nonempty_app_l. destruct n; [congruence|reflexivity].
  - destruct (q ++ [n])%list as [|b l] eqn:E.
    + destruct q; discriminate.
    + apply nonempty_app_r. reflexivity.
Qed.

Lemma driver_name_not_empty (file : string) :
  is_driver_name file = true -> file <> EmptyString.
Proof. intros H ->. discriminate H. Qed.

Lemma named_join (q : path) (n : string) :
  n <> EmptyString -> named (join q n).
Proof. intro H. exists q, n. auto. Qed.

Lemma returns_reconcile_files (root : pyobj) (files : list string)
  (base_path driver_path : path) :
  named driver_path ->
  returns named_result (reconcile_files root files base_path driver_path).
Proof.
  intro Hd. induction files as [|file files IH]; cbn [reconcile_files].
  - apply returns_ret. intros p E. discriminate E.
  - destruct (is_driver_name file) eqn:Ef; [|exact IH].
    apply (returns_bind named).
    + destruct root as [q|l]; simpl.
      * apply returns_ret. apply named_join.
        apply driver_name_not_empty. exact Ef.
      * apply returns_raise.
    + intros found_path Hf. apply returns_seq. intros _.
      apply returns_seq. intros moved. apply returns_ret.
      intros p E. inversion E; subst. destruct moved; assumption.
Qed.

Lemma returns_reconcile_walk (items : list pytuple)
  (base_path driver_path : path) :
  named driver_path ->
  returns named_result (reconcile_walk items base_path driver_path).
Proof.
  intro Hd. induction items as [|t items IH]; cbn [reconcile_walk].
  - apply returns_ret. intros p E. discriminate E.
  - apply returns_seq. intros rf.
    eapply returns_bind; [apply returns_reconcile_files; exact Hd|].
    intros [p|] Hr.
    + apply returns_ret. exact Hr.
    + exact IH.
Qed.

Lemma returns_reconcile (base_path driver_path : path) :
  named driver_path ->
  returns named_result (reconcile base_path driver_path).
Proof.
  intro Hd. unfold reconcile. apply returns_seq. intros [|].
  - apply returns_seq. intros _. apply returns_ret.
    intros p E. inversion E; subst. exact Hd.
  - apply returns_seq. intros items.
    eapply returns_bind; [apply returns_reconcile_walk; exact Hd|].
    intros [p|] Hr.
    + apply returns_ret. exact Hr.
    + apply returns_seq. intros _. apply returns_ret.
      intros p E. discriminate E.
Qed.

Lemma named_none : named_result None.
Proof. intros p E. discriminate E. Qed.

Lemma returns_download_and_extract (base_path driver_path : path)
  (v : pyval) (d : path) :
  named driver_path ->
  returns named_result (download_and_extract base_path driver_path v d).
Proof.
  intro Hd. unfold download_and_extract, try_download_and_extract.
  apply returns_try_finally. apply returns_try_except.
  - cbv zeta. apply returns_seq. intros _. apply returns_seq. intros [|]; simpl.
    + apply returns_seq. intros _. apply returns_seq. intros [|]; simpl.
      * apply returns_seq. intros _. apply returns_reconcile. exact Hd.
      * apply returns_seq. intros _. apply returns_ret. apply named_none.
    + apply returns_seq. intros _. apply returns_ret. apply named_none.
  - intro e. apply returns_seq. intros _. apply returns_ret. apply named_none.
Qed.

Lemma returns_cache_check (locations : list path) :
  Forall named locations ->
  returns named_result (cache_check locations).
Proof.
  induction 1 as [|p locations Hp _ IH]; cbn [cache_check].
  - apply returns_ret. apply named_none.
  - apply returns_seq. intros [|].
    + apply returns_seq. intros _. apply returns_ret.
      intros q E. inversion E; subst. exact Hp.
    + exact IH.
Qed.

(** Every path returned by [get_edge_driver_path] ends in a file
    name. *)
Lemma returns_get_edge_driver_path :
  returns named_result get_edge_driver_path.
Proof.
  unfold get_edge_driver_path, get_edge_driver_path_try. apply returns_try_except.
  - apply returns_seq. intros e. cbv zeta.
    eapply returns_bind.
    + apply returns_cache_check. unfold possible_driver_locations.
      repeat constructor; apply named_join; discriminate.
    + intros [p|] Hr.
      * apply returns_ret. exact Hr.
      * apply returns_seq. intros _. apply returns_seq. intros v.
        destruct (negb (truthy v)).
        -- apply returns_seq. intros _. apply returns_ret. apply named_none.
        -- apply returns_seq. intros d.
           apply returns_download_and_extract.
           apply named_join. discriminate.
  - intro e. apply returns_seq. intros _. apply returns_ret. apply named_none.
Qed.

(** No exception leaves [get_edge_driver_path]. *)
Lemma total_get_edge_driver_path : total get_edge_driver_path.
Proof.
  unfold get_edge_driver_path, get_edge_driver_path_try. apply total_try_except.
  intro e. apply total_bind; [apply total_logging|].
  intros _. apply total_ret.
Qed.

Lemma total_get_edge_version : total get_edge_version.
Proof.
  unfold get_edge_version. apply total_try_except.
  intro e. apply total_bind; [apply total_logging|]. intros _.
  apply total_bind; [apply total_logging|]. intros _. apply total_ret.
Qed.

End ProgResults.

(** * The properties *)

Import PyStr Py FS Sys Lib Main Spec FSFacts MFacts ProgFrames ProgResults.

(** ** Cache check *)

Lemma cache_check_first_match (locations : list path) (w : World) (p : path) :
  find (exists_ (fs w)) locations = Some p ->
  cache_check locations w
  = (Ok (Some p), add_log (INFO, "Edge driver found at: " ++ path_str p) w).
Proof.
  induction locations as [|q locations IH]; simpl; [discriminate|].
  unfold bind, os_path_exists.
  destruct (exists_ (fs w) q) eqn:E.
  - intro H. inversion H; subst. reflexivity.
  - exact IH.
Qed.

(** The loop over the expected locations, in one formula. *)
Lemma cache_check_find (locations : list path) (w : World) :
  cache_check locations w
  = match find (exists_ (fs w)) locations with
    | Some p =>
        (Ok (Some p),
         add_log (INFO, "Edge driver found at: " ++ path_str p) w)
    | None => (Ok None, w)
    end.
Proof.
  induction locations as [|p locations IH]; [reflexivity|].
  cbn [cache_check find]. unfold os_path_exists, logging, ret, bind.
  destruct (exists_ (fs w) p); [reflexivity|exact IH].
Qed.

(** C1.  The candidates are [msedgedriver.exe] in the folder of the
    script ([dirname] of the absolute [sys.argv[0]]) and, after it,
    [msedgedriver.exe] in the folder of the interpreter
    ([dirname] of [sys.executable]).  When the first exists it is
    returned, whether the second exists or not; when only the second
    exists, the second is returned.  In both cases the world
    [get_edge_driver_path] leaves differs from the initial one by one
    log record only: no call was made, so neither version detection
    (subprocess, files) nor any network or download work took place,
    and the filesystem is untouched. *)
Theorem cache_hit_returns_first_match (w : World) (p : path) :
  let beside_script :=
    join (dirname (script_path (env w))) "msedgedriver.exe" in
  let beside_interpreter :=
    join (dirname (sys_executable (env w))) "msedgedriver.exe" in
  (exists_ (fs w) beside_script = true /\ p = beside_script) \/
  (exists_ (fs w) beside_script = false /\
   exists_ (fs w) beside_interpreter = true /\ p = beside_interpreter) ->
  get_edge_driver_path w
  = (Ok (Some p), add_log (INFO, "Edge driver found at: " ++ path_str p) w).
Proof.
  intros beside_script beside_interpreter H.
  unfold get_edge_driver_path, get_edge_driver_path_try, try_except, bind,
    get_env.
  rewrite (cache_check_first_match _ _ p); [reflexivity|].
  unfold possible_driver_locations, driver_path_of, base_path_of.
  fold beside_script beside_interpreter. cbn [find].
  destruct H as [[H1 ->]|(H1 & H2 & ->)].
  - rewrite H1. reflexivity.
  - rewrite H1, H2. reflexivity.
Qed.

Lemma cache_hit_witness :
  get_edge_driver_path Scenario.w_cached_both
  = (Ok (Some ["C:"; "automation"; "msedgedriver.exe"]),
     add_log (INFO, "Edge driver found at: C:\automation\msedgedriver.exe")
       Scenario.w_cached_both)
  /\ get_edge_driver_path Scenario.w_cached
     = (Ok (Some ["C:"; "Python312"; "msedgedriver.exe"]),
        add_log (INFO, "Edge driver found at: C:\Python312\msedgedriver.exe")
          Scenario.w_cached).
Proof.
  split.
  - apply (cache_hit_returns_first_match Scenario.w_cached_both
             ["C:"; "automation"; "msedgedriver.exe"]).
    left. split; reflexivity.
  - apply (cache_hit_returns_first_match Scenario.w_cached
             ["C:"; "Python312"; "msedgedriver.exe"]).
    right. repeat split; reflexivity.
Defined.

(** ** No exception leaves the resolver *)

(** C7.  Whatever the world, and whatever exceptions the calls inside
    the pipeline raise, [get_edge_driver_path] returns and raises
    nothing.  What it returns is the result of its [try] block when
    the block returns; when the block raises [e], the [except] clause
    logs the error [Error setting up Edge driver: e] and None is
    returned.  The block does raise: an exception of
    [tempfile.mkdtemp], which is outside the inner [try], leaves it.
    Once logging is initialised, [main] ends normally after printing
    one line: the path when there is one, and [Failed to set up Edge
    driver.] otherwise, in particular after a caught exception. *)
Theorem resolver_never_raises_main_reports (w : World) :
  (exists r w', get_edge_driver_path w = (Ok r, w')) /\
  (forall r w',
      get_edge_driver_path_try w = (Ok r, w') ->
      get_edge_driver_path w = (Ok r, w')) /\
  (forall e w',
      get_edge_driver_path_try w = (Raise e, w') ->
      get_edge_driver_path w
      = (Ok None,
         add_log (ERROR, "Error setting up Edge driver: " ++ msg e) w')) /\
  (forall v w2 e w3,
      find (exists_ (fs w)) (possible_driver_locations (env w)) = None ->
      get_edge_version
        (add_log (INFO, "Edge driver not found in expected locations.") w)
      = (Ok v, w2) ->
      truthy v = true ->
      tempfile_mkdtemp w2 = (Raise e, w3) ->
      get_edge_driver_path_try w = (Raise e, w3)) /\
  (forall w0,
      initialize_logging (dirname (module_file (env w))) w = (Ok tt, w0) ->
      (exists r w1,
          get_edge_driver_path w0 = (Ok r, w1) /\
          main w = (Ok tt, add_stdout (report r) w1)) /\
      (forall e w',
          get_edge_driver_path_try w0 = (Raise e, w') ->
          main w
          = (Ok tt,
             add_stdout "Failed to set up Edge driver."
               (add_log (ERROR, "Error setting up Edge driver: " ++ msg e)
                  w')))).
Proof.
  assert (Hok : forall w0 r w',
             get_edge_driver_path_try w0 = (Ok r, w') ->
             get_edge_driver_path w0 = (Ok r, w')).
  { intros w0 r w' E. unfold get_edge_driver_path, try_except. rewrite E.
    reflexivity. }
  assert (Hraise : forall w0 e w',
             get_edge_driver_path_try w0 = (Raise e, w') ->
             get_edge_driver_path w0
             = (Ok None,
                add_log (ERROR, "Error setting up Edge driver: " ++ msg e) w')).
  { intros w0 e w' E. unfold get_edge_driver_path, try_except. rewrite E.
    reflexivity. }
  split; [apply total_get_edge_driver_path|].
  split; [apply Hok|]. split; [apply Hraise|]. split.
  - intros v w2 e w3 Hmiss Hv Ht Hm.
    unfold get_edge_driver_path_try, get_env. unfold bind at 1.
    unfold bind at 1. rewrite cache_check_find, Hmiss.
    unfold bind at 1. unfold logging at 1. unfold bind at 1.
    rewrite Hv, Ht. cbn [negb]. unfold bind at 1. rewrite Hm. reflexivity.
  - intros w0 Hinit. split.
    + destruct (total_get_edge_driver_path w0) as (r & w1 & E).
      exists r, w1. split; [exact E|].
      unfold main, bind, get_env. rewrite Hinit, E.
      destruct r as [p|]; [|reflexivity].
      rewrite (named_nonempty p); [reflexivity|].
      exact (returns_get_edge_driver_path w0 (Some p) w1 E p eq_refl).
    + intros e w' E. unfold main, bind, get_env.
      rewrite Hinit, (Hraise w0 e w' E). reflexivity.
Qed.

Lemma resolver_never_raises_witness :
  let w0 :=
    snd (initialize_logging
           (dirname (module_file (env Scenario.w_mkdtemp_fails)))
           Scenario.w_mkdtemp_fails) in
  let e := Exn OSError "[Errno 28] No space left on device" in
  get_edge_driver_path_try w0 = (Raise e, snd (get_edge_driver_path_try w0)) /\
  get_edge_driver_path w0
  = (Ok None,
     add_log
       (ERROR,
        "Error setting up Edge driver: [Errno 28] No space left on device")
       (snd (get_edge_driver_path_try w0))) /\
  main Scenario.w_mkdtemp_fails
  = (Ok tt,
     add_stdout "Failed to set up Edge driver."
       (add_log
          (ERROR,
           "Error setting up Edge driver: [Errno 28] No space left on device")
          (snd (get_edge_driver_path_try w0)))).
Proof.
  cbv zeta.
  pose proof (resolver_never_raises_main_reports Scenario.w_mkdtemp_fails)
    as (_ & _ & _ & _ & Hmain).
  pose proof (resolver_never_raises_main_reports
                (snd (initialize_logging
                        (dirname (module_file (env Scenario.w_mkdtemp_fails)))
                        Scenario.w_mkdtemp_fails)))
    as (_ & _ & Hraise & Hmk & _).
  split; [|split].
  - eapply Hmk; [reflexivity|reflexivity|reflexivity|reflexivity].
  - apply (Hraise (Exn OSError "[Errno 28] No space left on device")).
    reflexivity.
  - apply (proj2 (Hmain _ eq_refl)
             (Exn OSError "[Errno 28] No space left on device")).
    reflexivity.
Defined.

(** ** The byte-stream read *)

Lemma env_add_calls (l : list call) (w : World) :
  env (add_calls l w) = env w.
Proof.
  revert w. induction l as [|c l IH]; intro w; [reflexivity|].
  unfold add_calls in *. simpl. rewrite IH. reflexivity.
Qed.

Lemma fs_add_calls (l : list call) (w : World) :
  fs (add_calls l w) = fs w.
Proof.
  revert w. induction l as [|c l IH]; intro w; [reflexivity|].
  unfold add_calls in *. simpl. rewrite IH. reflexivity.
Qed.

Lemma env_after_inet_read (url : string) (chunks : list string) (w : World) :
  env (after_inet_read url chunks w) = env w.
Proof.
  unfold after_inet_read. cbn [env add_call add_log].
  rewrite env_add_calls. reflexivity.
Qed.

Lemma fs_after_inet_read (url : string) (chunks : list string) (w : World) :
  fs (after_inet_read url chunks w) = fs w.
Proof.
  unfold after_inet_read. cbn [fs add_call add_log].
  rewrite fs_add_calls. reflexivity.
Qed.

(** A read that fails ends the loop as the end of the stream does. *)
Lemma read_loop_failed_read (chunks : list string) (rest : list read_result) :
  forall data w,
    read_loop (map ReadBytes chunks ++ ReadFalse :: rest)%list data w
    = read_loop (map ReadBytes chunks) data w.
Proof.
  induction chunks as [|b chunks IH]; intros data w; simpl.
  - reflexivity.
  - unfold bind. destruct (ext InternetReadFile w) as [[u|e] w1]; [|reflexivity].
    destruct (Nat.eqb (String.length b) 0); [reflexivity|]. apply IH.
Qed.

Lemma read_loop_quiet (chunks : list string) :
  forall data w,
    quiet (env w) -> Forall (fun b => b <> EmptyString) chunks ->
    read_loop (map ReadBytes chunks) data w
    = (Ok (joined chunks data),
       add_calls (repeat InternetReadFile (S (length chunks))) w).
Proof.
  induction chunks as [|b chunks IH]; intros data w Hq Hne.
  - simpl. unfold bind. rewrite ext_quiet by apply Hq. reflexivity.
  - inversion Hne; subst. cbn [map read_loop]. unfold bind at 1.
    rewrite ext_quiet by apply Hq.
    destruct b as [|c b]; [congruence|]. cbn [String.length Nat.eqb].
    rewrite IH; auto.
Qed.

Lemma inet_read_cut_stream (w : World) (url : string)
  (chunks : list string) (rest : list read_result) :
  quiet (env w) -> wininet_open (env w) = true ->
  wininet_url (env w) url
  = Some (map ReadBytes chunks ++ ReadFalse :: rest)%list ->
  Forall (fun b => b <> EmptyString) chunks ->
  inet_read url w
  = (Ok (Some (joined chunks EmptyString)), after_inet_read url chunks w).
Proof.
  intros Hq Ho Hu Hne.
  unfold inet_read, try_except, try_finally, bind, logging, get_env, ret.
  rewrite ext_quiet by apply Hq.
  rewrite ext_quiet by apply Hq.
  cbn [env add_call add_log]. rewrite Ho. cbn [negb].
  rewrite ext_quiet by apply Hq.
  rewrite Hu. rewrite read_loop_failed_read.
  rewrite read_loop_quiet by (auto; apply Hq).
  rewrite ext_quiet by (cbn [env add_log]; rewrite env_add_calls; apply Hq).
  rewrite ext_quiet
    by (cbn [env add_log add_call]; rewrite env_add_calls; apply Hq).
  reflexivity.
Qed.

Lemma download_cut_stream (w : World) (url : string) (save_path : path)
  (chunks : list string) (rest : list read_result) :
  quiet (env w) -> wininet_open (env w) = true ->
  wininet_url (env w) url
  = Some (map ReadBytes chunks ++ ReadFalse :: rest)%list ->
  Forall (fun b => b <> EmptyString) chunks ->
  is_dir (fs w) (parent save_path) = true ->
  is_dir (fs w) save_path = false ->
  download_file_inet_read url save_path w
  = (Ok true, after_download url save_path chunks w).
Proof.
  intros Hq Ho Hu Hne Hd Hf.
  unfold download_file_inet_read, try_except, bind at 1.
  rewrite (inet_read_cut_stream w url chunks rest) by assumption.
  unfold open_wb, file_write, bind, logging, get_fs, put_fs, ret.
  rewrite ext_quiet by (rewrite env_after_inet_read; apply Hq).
  cbn [fs add_call]. rewrite fs_after_inet_read.
  unfold is_dir in Hf.
  destruct (lookup (fs w) save_path) as [[c|es]|] eqn:El; try discriminate;
    rewrite Hd;
    rewrite ext_quiet
      by (cbn [env set_fs add_call]; rewrite env_after_inet_read; apply Hq);
    reflexivity.
Qed.

(** C10.  In [inet_read], a read that fails after the handles were
    opened and [chunks] were read ends the loop exactly as the end of
    the stream does.  So, when nothing else goes wrong, [inet_read]
    returns the bytes read so far as its result, and
    [download_file_inet_read] stores them at [save_path] and returns
    True: the file holds the truncated content, whatever the rest of
    the stream was. *)
Theorem failed_read_yields_truncated_success (url : string) (save_path : path)
  (chunks : list string) (rest : list read_result) :
  (forall data w,
      read_loop (map ReadBytes chunks ++ ReadFalse :: rest)%list data w
      = read_loop (map ReadBytes chunks) data w) /\
  (forall w,
      quiet (env w) ->
      wininet_open (env w) = true ->
      wininet_url (env w) url
      = Some (map ReadBytes chunks ++ ReadFalse :: rest)%list ->
      Forall (fun b => b <> EmptyString) chunks ->
      save_path <> [] ->
      is_dir (fs w) (parent save_path) = true ->
      is_dir (fs w) save_path = false ->
      fst (inet_read url w) = Ok (Some (joined chunks EmptyString)) /\
      fst (download_file_inet_read url save_path w) = Ok true /\
      lookup (fs (snd (download_file_inet_read url save_path w))) save_path
      = Some (File (joined chunks EmptyString))).
Proof.
  split; [apply read_loop_failed_read|].
  intros w Hq Ho Hu Hne Hp Hd Hf.
  rewrite (inet_read_cut_stream w url chunks rest) by assumption.
  rewrite (download_cut_stream w url save_path chunks rest) by assumption.
  repeat split.
  unfold after_download. cbn [snd fs add_log set_fs].
  apply lookup_put; [exact Hp|].
  apply is_dir_alter_parent; assumption.
Qed.

Lemma failed_read_witness :
  fst (inet_read "https://msedgedriver.azureedge.net/136.0.3240.64/edgedriver_win64.zip"
         Scenario.w_cut)
  = Ok (Some "PK03")
  /\ fst (download_file_inet_read
            "https://msedgedriver.azureedge.net/136.0.3240.64/edgedriver_win64.zip"
            ["C:"; "Temp"; "edgedriver.zip"] Scenario.w_cut)
     = Ok true
  /\ lookup
       (fs (snd (download_file_inet_read
                   "https://msedgedriver.azureedge.net/136.0.3240.64/edgedriver_win64.zip"
                   ["C:"; "Temp"; "edgedriver.zip"] Scenario.w_cut)))
       ["C:"; "Temp"; "edgedriver.zip"]
     = Some (File "PK03").
Proof.
  apply (proj2 (failed_read_yields_truncated_success
                  "https://msedgedriver.azureedge.net/136.0.3240.64/edgedriver_win64.zip"
                  ["C:"; "Temp"; "edgedriver.zip"] ["PK03"] [ReadBytes "04"])
           Scenario.w_cut).
  - intros n c. reflexivity.
  - reflexivity.
  - reflexivity.
  - repeat constructor. discriminate.
  - discriminate.
  - reflexivity.
  - reflexivity.
Defined.

(** ** The temporary workspace *)

Lemma remove_temp_dir_spec (d : path) (w : World) :
  exists w',
    remove_temp_dir d w = (Ok tt, w') /\
    env w' = env w /\ log w' = log w /\ created_tmp w' = created_tmp w /\
    calls w' = (calls w ++ [Rmtree d])%list /\
    (fault (env w) (length (calls w)) (Rmtree d) = None ->
     d <> [] -> is_dir (fs w') d = false).
Proof.
  unfold remove_temp_dir, try_except, shutil_rmtree, bind, ext, get_fs, put_fs, ret, raise.
  destruct (fault (env w) (length (calls w)) (Rmtree d)) as [e|] eqn:Ef.
  - eexists. repeat split. discriminate.
  - cbn [fs add_call].
    destruct (lookup (fs w) d) as [[c|es]|] eqn:El;
      eexists; (split; [reflexivity|]); repeat split; intros _ Hd; cbn [fs set_fs add_call].
    + unfold is_dir. rewrite El. reflexivity.
    + apply is_dir_delete. exact Hd.
    + unfold is_dir. rewrite El. reflexivity.
Qed.

Lemma mkdtemp_try_spec (dir : path) (names : list string) (w : World) :
  match mkdtemp_try dir names w with
  | (Ok d, w') =>
      d <> [] /\ env w' = env w /\ calls w' = calls w /\ log w' = log w /\
      created_tmp w' = (created_tmp w ++ [d])%list
  | (Raise e, w') =>
      env w' = env w /\ calls w' = calls w /\ log w' = log w /\
      created_tmp w' = created_tmp w
  end.
Proof.
  induction names as [|n names IH]; cbn [mkdtemp_try].
  - unfold raise. auto.
  - unfold bind, get_fs, put_fs, ret, raise.
    destruct (exists_ (fs w) (join dir ("tmp" ++ n))); [exact IH|].
    destruct (is_dir (fs w) dir).
    + cbn. repeat split. apply join_not_nil.
    + auto.
Qed.

Lemma tempfile_mkdtemp_spec (w : World) :
  match tempfile_mkdtemp w with
  | (Ok d, w') =>
      d <> [] /\ env w' = env w /\ calls w' = (calls w ++ [Mkdtemp])%list /\
      created_tmp w' = (created_tmp w ++ [d])%list
  | (Raise e, w') => created_tmp w' = created_tmp w
  end.
Proof.
  unfold tempfile_mkdtemp, bind, ext, get_env.
  destruct (fault _ _ _); [reflexivity|].
  pose proof (mkdtemp_try_spec (tempdir (env (add_call Mkdtemp w))) (mkdtemp_names (env (add_call Mkdtemp w))) (add_call Mkdtemp w)) as H.
  destruct (mkdtemp_try _ _ _) as [[d|e] w'].
  - destruct H as (H1 & H2 & H3 & H4 & H5). repeat split; auto.
  - destruct H as (H1 & H2 & H3 & H4). exact H4.
Qed.

(** The [try] block, then the [finally] clause. *)
Lemma download_and_extract_steps (b dr : path) (v : pyval) (d : path)
  (w : World) :
  exists r w4 w5,
    try_download_and_extract b dr v d w = (Ok r, w4) /\
    download_and_extract b dr v d w = (Ok r, w5) /\
    log w5 = log w4 /\
    calls w5 = (calls w4 ++ [Rmtree d])%list /\
    created_tmp w5 = created_tmp w /\
    exists l,
      calls w4 = (calls w ++ l)%list /\
      (fault (env w) (length (calls w ++ l)) (Rmtree d) = None ->
       d <> [] -> is_dir (fs w5) d = false).
Proof.
  unfold download_and_extract, try_finally.
  destruct (total_try_download_and_extract b dr v d w) as (r & w1 & E).
  pose proof (keeps_try_download_and_extract b dr v d w) as K. rewrite E in K.
  destruct K as (He & Ht & Hs & (lc & Hc & _) & _). cbn [snd] in *.
  rewrite E.
  destruct (remove_temp_dir_spec d w1)
    as (w2 & E2 & He2 & Hl2 & Ht2 & Hc2 & Hd2).
  rewrite E2. exists r, w1, w2. repeat split; try congruence.
  exists lc. split; [exact Hc|].
  rewrite <- Hc, <- He. exact Hd2.
Qed.

(** C5, as the code has it.  In every run of [get_edge_driver_path] that
    creates the workspace [d] with [tempfile.mkdtemp], the last call
    made before returning is [shutil.rmtree(d)], on every path: success,
    failed download, failed extraction, exception.  An error of that
    call is swallowed: whether it raises or not, the function returns
    what its [try] block returned, and logs nothing after the block.
    Whenever the call does not fail, no directory is left at [d] when
    the function returns. *)
Theorem workspace_removal_is_attempted (w : World) (d : path) :
  In d (created_tmp (snd (get_edge_driver_path w))) ->
  ~ In d (created_tmp w) ->
  exists l,
    calls (snd (get_edge_driver_path w)) = (calls w ++ l ++ [Rmtree d])%list /\
    (fault (env w) (length (calls w ++ l)) (Rmtree d) = None ->
     is_dir (fs (snd (get_edge_driver_path w))) d = false) /\
    exists v w3 r w4,
      try_download_and_extract (base_path_of (env w)) (driver_path_of (env w))
        v d w3
      = (Ok r, w4) /\
      calls w4 = (calls w ++ l)%list /\
      fst (get_edge_driver_path w) = Ok r /\
      log (snd (get_edge_driver_path w)) = log w4.
Proof.
  unfold get_edge_driver_path, get_edge_driver_path_try, try_except, bind, get_env, logging, ret.
  pose proof (keeps_cache_check any_call any_record (fun _ => I) (possible_driver_locations (env w)) w) as K1.
  destruct (cache_check _ w) as [[[p|]|e] w1]; cbn [snd] in *;
    destruct K1 as (He1 & Ht1 & _ & (l1 & Hc1 & _) & _);
    try (intros Hin Hn; exfalso; apply Hn; cbn [snd created_tmp add_log] in Hin; congruence).
  pose proof (keeps_get_edge_version (add_log (INFO, "Edge driver not found in expected locations.") w1)) as K2.
  destruct (get_edge_version _) as [[v|e] w2]; cbn [snd] in *;
    destruct K2 as (He2 & Ht2 & _ & (l2 & Hc2 & _) & _);
    cbn [env created_tmp calls add_log] in *;
    try (intros Hin Hn; exfalso; apply Hn; cbn [snd created_tmp add_log] in Hin; congruence).
  destruct (negb (truthy v));
    try (intros Hin Hn; exfalso; apply Hn; cbn [snd created_tmp add_log] in Hin; congruence).
  pose proof (tempfile_mkdtemp_spec w2) as K3.
  destruct (tempfile_mkdtemp w2) as [[d0|e] w3];
    try (intros Hin Hn; exfalso; apply Hn; cbn [snd created_tmp add_log] in Hin; congruence).
  destruct K3 as (Hd0 & He3 & Hc3 & Ht3).
  destruct (download_and_extract_steps (base_path_of (env w)) (driver_path_of (env w)) v d0 w3)
    as (r & w4 & w5 & Eb & E4 & Hl5 & Hc5 & Ht4 & l4 & Hc4 & Hf4).
  rewrite E4. cbn [fst snd]. intros Hin Hn.
  assert (d = d0) as ->.
  { rewrite Ht4, Ht3, Ht2, Ht1 in Hin. apply in_app_or in Hin.
    destruct Hin as [Hin|[Hin|[]]]; [contradiction|congruence]. }
  exists (l1 ++ l2 ++ [Mkdtemp] ++ l4)%list.
  assert (Hc : calls w4 = (calls w ++ l1 ++ l2 ++ [Mkdtemp] ++ l4)%list).
  { rewrite Hc4, Hc3, Hc2, Hc1. rewrite <- !app_assoc. reflexivity. }
  split; [|split].
  - rewrite Hc5, Hc. rewrite <- !app_assoc. reflexivity.
  - intro Hf. apply Hf4; [|exact Hd0].
    rewrite He3, He2, He1. rewrite Hc3, Hc2, Hc1.
    repeat rewrite <- app_assoc. exact Hf.
  - exists v, w3, r, w4. repeat split; assumption.
Qed.

Lemma workspace_removal_witness :
  (exists l,
      calls (snd (get_edge_driver_path Scenario.w_flat_locked))
      = (calls Scenario.w_flat_locked ++ l ++ [Rmtree Scenario.workspace])%list /\
      (fault (env Scenario.w_flat_locked)
         (length (calls Scenario.w_flat_locked ++ l))
         (Rmtree Scenario.workspace)
       = None ->
       is_dir (fs (snd (get_edge_driver_path Scenario.w_flat_locked)))
         Scenario.workspace = false) /\
      exists v w3 r w4,
        try_download_and_extract
          (base_path_of (env Scenario.w_flat_locked))
          (driver_path_of (env Scenario.w_flat_locked))
          v Scenario.workspace w3
        = (Ok r, w4) /\
        calls w4 = (calls Scenario.w_flat_locked ++ l)%list /\
        fst (get_edge_driver_path Scenario.w_flat_locked) = Ok r /\
        log (snd (get_edge_driver_path Scenario.w_flat_locked)) = log w4) /\
  fst (get_edge_driver_path Scenario.w_flat_locked)
  = Ok (Some Scenario.driver_path) /\
  is_dir (fs (snd (get_edge_driver_path Scenario.w_flat_locked)))
    Scenario.workspace = true.
Proof.
  split; [|split; reflexivity].
  apply (workspace_removal_is_attempted Scenario.w_flat_locked
           Scenario.workspace).
  - vm_compute. auto.
  - intros [].
Defined.

(** C5 as stated fails: the download fails, the workspace was created,
    its removal raises (the directory is in use) and the error is
    passed over, so the directory is still there when
    [get_edge_driver_path] has returned. *)
Lemma workspace_left_when_rmtree_fails :
  fst (get_edge_driver_path Scenario.w_offline_locked) = Ok None /\
  In (ERROR, "Failed to download Edge driver using InetRead method.")
    (log (snd (get_edge_driver_path Scenario.w_offline_locked))) /\
  created_tmp (snd (get_edge_driver_path Scenario.w_offline_locked))
  = [Scenario.workspace] /\
  is_dir (fs (snd (get_edge_driver_path Scenario.w_offline_locked)))
    Scenario.workspace = true.
Proof. vm_compute. repeat split. auto 10. Qed.

(** ** Running a computation step by step *)

Ltac norm := cbv beta iota; cbn [fs env calls log add_call add_log set_fs].

Ltac run_step :=
  cbv beta iota; cbn [fs env calls log add_call add_log set_fs fst snd];
  lazymatch goal with
  | |- context [match fault ?a ?b ?c with _ => _ end] =>
      destruct (fault a b c)
  | |- context [match lookup ?a ?b with _ => _ end] =>
      destruct (lookup a b) as [[?|?]|]
  end.

Ltac case_fault :=
  cbv beta iota;
  lazymatch goal with
  | |- context [fault ?a ?b ?c] => destruct (fault a b c)
  end.

(** ** The search of the extracted files *)

(** Each tuple of [os.walk] has three components, and unpacking it
    into two names raises. *)
Lemma os_walk_dir (top : path) (w : World) :
  is_dir (fs w) top = true ->
  exists ds fl rest,
    os_walk top w = (Ok ([OPath top; ONames ds; ONames fl] :: rest), w).
Proof.
  intro H. destruct (walk_dir (fs w) top H) as (ds & fl & rest & E).
  unfold os_walk. rewrite E. simpl. eauto.
Qed.

(** The search of [extract_zip_with_shell] raises as soon as the
    directory exists. *)
Lemma extract_search_raises (top : path) (w : World) :
  is_dir (fs w) top = true ->
  (items <- os_walk top ;; extract_search items) w = (Raise unpack_error, w).
Proof.
  intro H. destruct (os_walk_dir top w H) as (ds & fl & rest & E).
  unfold bind. rewrite E. reflexivity.
Qed.

(** So does the search of [get_edge_driver_path]. *)
Lemma reconcile_raises (base_path driver_path : path) (w : World) :
  exists_ (fs w) driver_path = false ->
  is_dir (fs w) base_path = true ->
  reconcile base_path driver_path w = (Raise unpack_error, w).
Proof.
  intros Hd Hb. destruct (os_walk_dir base_path w Hb) as (ds & fl & rest & E).
  unfold reconcile, bind, os_path_exists. rewrite Hd, E. reflexivity.
Qed.

Lemma bind_ok_inv {A B} (m : M A) (k : A -> M B) (w w' : World) (b : B) :
  bind m k w = (Ok b, w') ->
  exists a w1, m w = (Ok a, w1) /\ k a w1 = (Ok b, w').
Proof.
  unfold bind. destruct (m w) as [[a|e] w1]; [eauto|discriminate].
Qed.

(** The search of [extract_zip_with_shell] never finds anything: it
    has nothing to look at, or it raises. *)
Lemma extract_search_never_finds (top : path) (w w' : World) (b : bool) :
  (items <- os_walk top ;; extract_search items) w = (Ok b, w') -> b = false.
Proof.
  unfold bind, os_walk.
  destruct (walk (fs w) top) as [|[[d ds] fl] rest]; simpl.
  - unfold ret. intro H. inversion H. reflexivity.
  - discriminate.
Qed.

Lemma extract_success_at_top_only (zip_path extract_path : path) (w w' : World) :
  extract_zip_with_shell zip_path extract_path w = (Ok true, w') ->
  exists_ (fs w') (join extract_path "msedgedriver.exe") = true.
Proof.
  unfold extract_zip_with_shell, try_except.
  match goal with |- context [match ?m w with _ => _ end] =>
    destruct (m w) as [[b|e] w1] eqn:E end.
  2:{ unfold bind, logging, ret. discriminate. }
  intro H. inversion H; subst. clear H.
  apply bind_ok_inv in E. destruct E as (_ & w1 & _ & E).
  apply bind_ok_inv in E. destruct E as (present & w2 & _ & E).
  apply bind_ok_inv in E. destruct E as (_ & w3 & _ & E).
  apply bind_ok_inv in E. destruct E as (_ & w4 & _ & E).
  apply bind_ok_inv in E. destruct E as (zf & w5 & _ & E).
  destruct zf as [zf|].
  2:{ unfold bind, logging, ret in E. discriminate. }
  apply bind_ok_inv in E. destruct E as (items & w6 & _ & E).
  apply bind_ok_inv in E. destruct E as (dest & w7 & _ & E).
  apply bind_ok_inv in E. destruct E as (_ & w8 & _ & E).
  cbv zeta in E.
  apply bind_ok_inv in E. destruct E as (at_top & w9 & Ht & E).
  unfold os_path_exists in Ht. inversion Ht; subst. clear Ht.
  destruct (exists_ (fs w9) (join extract_path "msedgedriver.exe")) eqn:Etop;
    cbn [negb] in E.
  - unfold bind, logging, ret in E. inversion E; subst. exact Etop.
  - exfalso.
    assert (Hs : forall r, (items <- os_walk extract_path ;; extract_search items) w9 = r ->
                           match r with (Ok true, _) => False | _ => True end).
    { intros [[[|]|e] wr] Hr; auto. apply extract_search_never_finds in Hr. discriminate. }
    unfold bind in E, Hs.
    destruct (os_walk extract_path w9) as [[its|e] wa]; [|discriminate].
    specialize (Hs _ eq_refl).
    destruct (extract_search its wa) as [[[|]|e] wb]; try contradiction;
      cbn [negb] in E; unfold logging, ret in E; discriminate.
Qed.

(** C3, on the code.  [extract_zip_with_shell] reports success only
    when the driver is at the top of the destination after the copy:
    the search of the subdirectories unpacks the three-component tuples
    of [os.walk] into two names, which raises [ValueError], and the
    [except] clause turns that into False.  So with an archive that
    holds the driver inside the folder [edgedriver_win64], the driver is
    in a subdirectory of the destination after the copy and the result
    is False, where the claim has success. *)
Theorem extract_fails_when_driver_in_subfolder :
  (forall zip_path extract_path w w',
      extract_zip_with_shell zip_path extract_path w = (Ok true, w') ->
      exists_ (fs w') (join extract_path "msedgedriver.exe") = true) /\
  (let zip_path := join Scenario.workspace "edgedriver.zip" in
   let run :=
     extract_zip_with_shell zip_path Scenario.base_path
       Scenario.w_nested_downloaded in
   lookup (fs (snd run))
     (Scenario.base_path ++ ["edgedriver_win64"; "msedgedriver.exe"])%list
   = Some (File "MZ") /\
   exists_ (fs (snd run)) Scenario.driver_path = false /\
   fst run = Ok false /\
   log (snd run)
   = [(INFO,
       "Extracting C:\Temp\tmpk3x9q2ab\edgedriver.zip to C:\automation using Shell.Application");
      (ERROR,
       "Error extracting ZIP with Shell.Application: too many values to unpack (expected 2)")]).
Proof.
  split; [exact extract_success_at_top_only|].
  vm_compute. repeat split.
Qed.

Lemma extract_witness :
  exists_
    (fs (snd (extract_zip_with_shell (join Scenario.workspace "edgedriver.zip")
                Scenario.base_path Scenario.w_flat_downloaded)))
    Scenario.driver_path = true.
Proof.
  apply (proj1 extract_fails_when_driver_in_subfolder
           (join Scenario.workspace "edgedriver.zip") Scenario.base_path
           Scenario.w_flat_downloaded).
  reflexivity.
Defined.

(** With the driver inside a folder of the archive, the run of
    [get_edge_driver_path] ends in the extraction, which reports
    failure: the reconciling step is not reached. *)
Example nested_archive_stops_at_extraction :
  let run := get_edge_driver_path Scenario.w_nested in
  lookup (fs (snd run))
    (Scenario.base_path ++ ["edgedriver_win64"; "msedgedriver.exe"])%list
  = Some (File "MZ") /\
  exists_ (fs (snd run)) Scenario.driver_path = false /\
  fst run = Ok None /\
  In (ERROR, "Failed to extract Edge driver using Shell.Application.")
    (log (snd run)).
Proof. vm_compute. repeat split. auto 20. Qed.

(** The same machine with the driver at the root of the archive: the
    driver is extracted to its place and the workspace is gone. *)
Example resolves_flat_archive :
  let run := get_edge_driver_path Scenario.w_flat in
  fst run = Ok (Some Scenario.driver_path) /\
  lookup (fs (snd run)) Scenario.driver_path = Some (File "MZ") /\
  exists_ (fs (snd run)) Scenario.workspace = false.
Proof. vm_compute. repeat split. Qed.

(** ** Version detection *)

Lemma method1_loop_detected (paths : list path) :
  forall w v w',
    method1_loop paths w = (Ok (Some v), w') ->
    log w' = (log w ++ [(INFO, ("Edge version detected (wmic): " ++ v)%string)])%list.
Proof.
  induction paths as [|p paths IH]; intros w v w'; cbn [method1_loop].
  - discriminate.
  - unfold os_path_exists, subprocess_run, ext, get_env, logging, ret, bind.
    destruct (exists_ (fs w) p); [|apply IH].
    case_fault; [discriminate|].
    destruct (Re.search _ _) as [g|].
    + intro H. inversion H; subst. reflexivity.
    + intro H. apply IH in H. exact H.
Qed.

Lemma method1_detected (w : World) (v : string) (w' : World) :
  method1 w = (Ok (Some v), w') ->
  log w' = (log w ++ [(INFO, ("Edge version detected (wmic): " ++ v)%string)])%list.
Proof.
  unfold method1, try_except.
  destruct (method1_loop edge_paths w) as [[r|e] w1] eqn:E.
  - intro H. inversion H; subst. apply (method1_loop_detected _ _ _ _ E).
  - unfold bind, logging, ret. discriminate.
Qed.

Lemma method2_detected (w : World) (v : string) (w' : World) :
  method2 w = (Ok (Some v), w') ->
  log w' = (log w ++ [(INFO, ("Edge version detected (registry): " ++ v)%string)])%list.
Proof.
  unfold method2, try_except, subprocess_run, ext, get_env, logging, ret, bind.
  case_fault; [discriminate|].
  destruct (Re.search _ _) as [g|]; [|discriminate].
  intro H. inversion H; subst. reflexivity.
Qed.

Lemma latest_stable_detected (w : World) (v : string) (w' : World) :
  latest_stable w = (Ok (Some v), w') ->
  exists l,
    log w'
    = (log w ++ l ++ [(INFO, ("Using latest stable Edge driver version: " ++ v)%string)])%list.
Proof.
  unfold latest_stable, try_except, bind at 1, get_env.
  unfold bind at 1.
  pose proof (keeps_download_file_with_wininet LATEST_STABLE_URL
                (join (tempdir (env w)) "edge_version.txt") w) as K.
  destruct (download_file_with_wininet _ _ w) as [[[|]|e] w1];
    destruct K as (_ & _ & _ & _ & (l & Hl & _)); cbn [snd] in Hl.
  - unfold open_r, os_remove, ext, get_fs, put_fs, logging, ret, raise, bind.
    repeat run_step; try discriminate.
    all: intro H; inversion H; subst; exists l;
      cbn [log add_log set_fs add_call];
      rewrite Hl, app_assoc; reflexivity.
  - unfold ret. discriminate.
  - unfold bind, logging, ret. discriminate.
Qed.

Lemma method3_result (w : World) (r : pyval + pyval) (w' : World) :
  method3 w = (Ok r, w') ->
  match r with
  | inl v => truthy v = true
  | inr v => truthy v = false
  end.
Proof.
  assert (R : returns (fun r : pyval + pyval =>
                         match r with
                         | inl v => truthy v = true
                         | inr v => truthy v = false
                         end) method3).
  { unfold method3. apply returns_try_except.
    - apply returns_seq. intros x86. cbv zeta. apply returns_seq. intros [|].
      + apply returns_seq. intros [|].
        * apply returns_seq. intros data. apply returns_seq. intros product.
          apply returns_seq. intros v. destruct (truthy v) eqn:Ev.
          -- apply returns_seq. intros _. apply returns_ret. exact Ev.
          -- apply returns_ret. exact Ev.
        * apply returns_ret. reflexivity.
      + apply returns_ret. reflexivity.
    - intro e. apply returns_seq. intros _. apply returns_ret. reflexivity. }
  intro H. exact (R w r w' H).
Qed.

(** C6, as the code has it.  [get_edge_version] always returns and
    raises nothing.  The value is true as a condition (a version that is
    not empty) in every case but one: the text matched by method 1 or
    2, or the remote marker, is returned after [strip()] without being
    tested, and when nothing is left of it the result is the empty
    string; the log then ends with the record that announces it.  For
    that case [get_edge_driver_path] keeps its guard: whenever no
    driver is at the expected locations and [get_edge_version] returns
    a value that is false as a condition, [get_edge_driver_path] logs
    the error [Could not determine Edge version.] and returns None at
    once, without creating a workspace or downloading anything.  When
    the four methods yield nothing, the hardcoded version is
    returned. *)
Theorem version_probe_total_and_empty_cases (w : World) :
  (exists v w',
      get_edge_version w = (Ok v, w') /\
      (truthy v = true \/
       (v = PyStr EmptyString /\
        exists l r,
          log w' = (log w ++ l ++ [r])%list /\ In r empty_version_records))) /\
  (forall w1 w2 w3 v3 w4,
      method1 (add_log (INFO, "Detecting Edge browser version...") w)
      = (Ok None, w1) ->
      method2 w1 = (Ok None, w2) ->
      method3 w2 = (Ok (inr v3), w3) ->
      latest_stable
        (add_log
           (WARNING,
            "Could not detect Edge version, using default latest version") w3)
      = (Ok None, w4) ->
      get_edge_version w
      = (Ok (PyStr FALLBACK_VERSION),
         add_log (INFO, "Using fallback Edge version: 136.0.3240.64") w4)) /\
  (forall wr v w',
      find (exists_ (fs wr)) (possible_driver_locations (env wr)) = None ->
      w = add_log (INFO, "Edge driver not found in expected locations.") wr ->
      get_edge_version w = (Ok v, w') ->
      truthy v = false ->
      get_edge_driver_path wr
      = (Ok None, add_log (ERROR, "Could not determine Edge version.") w')).
Proof.
  split; [|split].
  2:{ intros w1 w2 w3 v3 w4 E1 E2 E3 E4.
      unfold get_edge_version, try_except, bind, logging.
      rewrite E1, E2, E3.
      pose proof (method3_result _ _ _ E3) as T3. cbn in T3. rewrite T3.
      cbn [negb]. rewrite E4. reflexivity. }
  2:{ intros wr v w' Hmiss -> Hv Ht.
      unfold get_edge_driver_path, get_edge_driver_path_try, try_except,
        get_env.
      unfold bind at 1. unfold bind at 1. rewrite cache_check_find, Hmiss.
      unfold bind at 1. unfold logging at 1. unfold bind at 1.
      rewrite Hv, Ht. reflexivity. }
  destruct (total_get_edge_version w) as (v & w' & E).
  exists v, w'. split; [exact E|].
  revert E. unfold get_edge_version, try_except, bind at 1, logging.
  unfold bind at 1.
  destruct (method1 _) as [[[v1|]|e1] w1] eqn:E1.
  - unfold ret. intro H. inversion H; subst.
    destruct v1 as [|c s]; [right|left; reflexivity].
    split; [reflexivity|]. apply method1_detected in E1.
    exists [(INFO, "Detecting Edge browser version...")], (INFO, "Edge version detected (wmic): ").
    split; [rewrite E1; cbn [log add_log]; rewrite <- app_assoc; reflexivity|simpl; auto].
  - unfold bind at 1.
    pose proof (keeps_method1 (add_log (INFO, "Detecting Edge browser version...") w)) as K1.
    rewrite E1 in K1. destruct K1 as (_ & _ & _ & _ & (l1 & Hl1 & _)). cbn [snd log add_log] in Hl1.
    destruct (method2 w1) as [[[v2|]|e2] w2] eqn:E2.
    + unfold ret. intro H. inversion H; subst.
      destruct v2 as [|c s]; [right|left; reflexivity].
      split; [reflexivity|]. apply method2_detected in E2.
      exists ([(INFO, "Detecting Edge browser version...")] ++ l1)%list, (INFO, "Edge version detected (registry): ").
      split; [rewrite E2, Hl1; rewrite <- !app_assoc; reflexivity|simpl; auto].
    + unfold bind at 1.
      pose proof (keeps_method2 w1) as K2.
      rewrite E2 in K2. destruct K2 as (_ & _ & _ & _ & (l2 & Hl2 & _)). cbn [snd] in Hl2.
      destruct (method3 w2) as [[[v3|v3]|e3] w3] eqn:E3.
      * unfold ret. intro H. inversion H; subst. left. exact (method3_result _ _ _ E3).
      * pose proof (method3_result _ _ _ E3) as T3. cbn in T3. rewrite T3. cbn [negb].
        pose proof (keeps_method3 w2) as K3.
        rewrite E3 in K3. destruct K3 as (_ & _ & _ & _ & (l3 & Hl3 & _)). cbn [snd] in Hl3.
        unfold bind at 1. unfold bind at 1.
        destruct (latest_stable _) as [[[v4|]|e4] w4] eqn:E4.
        -- unfold ret. intro H. inversion H; subst.
           destruct v4 as [|c s]; [right|left; reflexivity].
           split; [reflexivity|]. apply latest_stable_detected in E4. destruct E4 as (l4 & Hl4).
           exists ([(INFO, "Detecting Edge browser version...")] ++ l1 ++ l2 ++ l3 ++ [(WARNING, "Could not detect Edge version, using default latest version")] ++ l4)%list,
             (INFO, "Using latest stable Edge driver version: ").
           split; [|simpl; auto].
           rewrite Hl4. cbn [log add_log]. rewrite Hl3, Hl2, Hl1.
           repeat rewrite <- app_assoc. reflexivity.
        -- unfold bind, ret. intro H. inversion H; subst. left. reflexivity.
        -- unfold bind, ret. intro H. inversion H; subst. left. reflexivity.
      * unfold bind, ret. intro H. inversion H; subst. left. reflexivity.
    + unfold bind, ret. intro H. inversion H; subst. left. reflexivity.
  - unfold bind, ret. intro H. inversion H; subst. left. reflexivity.
Qed.

Lemma version_probe_witness :
  (exists w4,
      get_edge_version Scenario.w_no_network
      = (Ok (PyStr "136.0.3240.64"),
         add_log (INFO, "Using fallback Edge version: 136.0.3240.64") w4)) /\
  get_edge_driver_path Scenario.w_reg_empty
  = (Ok None,
     add_log (ERROR, "Could not determine Edge version.")
       (snd (get_edge_version
               (add_log (INFO, "Edge driver not found in expected locations.")
                  Scenario.w_reg_empty)))).
Proof.
  split.
  - eexists.
    eapply (proj1 (proj2 (version_probe_total_and_empty_cases
                            Scenario.w_no_network))).
    + reflexivity.
    + reflexivity.
    + reflexivity.
    + reflexivity.
  - apply (proj2 (proj2 (version_probe_total_and_empty_cases
                           (add_log
                              (INFO,
                               "Edge driver not found in expected locations.")
                              Scenario.w_reg_empty)))
             Scenario.w_reg_empty (PyStr EmptyString)).
    + reflexivity.
    + reflexivity.
    + reflexivity.
    + reflexivity.
Defined.

(** C6 as stated fails: the registry value [version] is present and
    empty; method 2 matches it, [get_edge_version] returns the empty
    string, and [get_edge_driver_path] takes the branch that returns
    None for want of a version. *)
Lemma empty_version_reaches_guard :
  fst (get_edge_version Scenario.w_reg_empty) = Ok (PyStr EmptyString) /\
  fst (get_edge_driver_path Scenario.w_reg_empty) = Ok None /\
  In (ERROR, "Could not determine Edge version.")
    (log (snd (get_edge_driver_path Scenario.w_reg_empty))).
Proof. vm_compute. repeat split. auto 10. Qed.

(** ** Subprocesses *)

Lemma method1_loop_spawn_fails (paths : list path) (w : World) (p : path) (e : exn) :
  find (exists_ (fs w)) paths = Some p ->
  fault (env w) (length (calls w)) (SubprocessRun (wmic_argv p) None) = Some e ->
  method1_loop paths w = (Raise e, add_call (SubprocessRun (wmic_argv p) None) w).
Proof.
  induction paths as [|q paths IH]; cbn [find method1_loop]; [discriminate|].
  unfold bind at 1. unfold os_path_exists at 1.
  destruct (exists_ (fs w) q).
  - intros H Hf. inversion H; subst.
    unfold subprocess_run, bind. rewrite (ext_fault _ _ _ Hf). reflexivity.
  - exact IH.
Qed.

(** C8, as the code has it.  [subprocess.run] is called with
    [capture_output] and [text] only: every subprocess started by
    version detection is started without timeout.  Any exception
    raised by starting or running [wmic] or [reg] (a timeout would be
    one) is caught by the method's own [except] clause: a warning is
    logged and the method yields nothing, so the chain goes on with the
    next method. *)
Theorem subprocesses_run_without_timeout (w : World) :
  (exists l,
      calls (snd (get_edge_version w)) = (calls w ++ l)%list /\
      forall argv t, In (SubprocessRun argv t) l -> t = None) /\
  (forall p e,
      find (exists_ (fs w)) edge_paths = Some p ->
      fault (env w) (length (calls w)) (SubprocessRun (wmic_argv p) None) = Some e ->
      method1 w
      = (Ok None,
         add_log (WARNING, "Could not get Edge version using wmic: " ++ msg e)
           (add_call (SubprocessRun (wmic_argv p) None) w))) /\
  (forall e,
      fault (env w) (length (calls w)) (SubprocessRun reg_argv None) = Some e ->
      method2 w
      = (Ok None,
         add_log (WARNING, "Could not get Edge version using registry: " ++ msg e)
           (add_call (SubprocessRun reg_argv None) w))).
Proof.
  split; [|split].
  - destruct (keeps_get_edge_version w) as (_ & _ & _ & (l & Hl & F) & _).
    exists l. split; [exact Hl|].
    intros argv t Hin. rewrite Forall_forall in F. exact (F _ Hin).
  - intros p e Hp Hf. unfold method1, try_except.
    rewrite (method1_loop_spawn_fails _ _ _ _ Hp Hf). reflexivity.
  - intros e Hf. unfold method2, try_except, subprocess_run, bind.
    rewrite (ext_fault _ _ _ Hf). reflexivity.
Qed.

Lemma subprocess_witness :
  exists e,
    method1 Scenario.w_spawn_fails
    = (Ok None,
       add_log (WARNING, "Could not get Edge version using wmic: " ++ msg e)
         (add_call (SubprocessRun (wmic_argv (join edge_dir_x86 "msedge.exe")) None)
            Scenario.w_spawn_fails))
    /\ method2 Scenario.w_spawn_fails
       = (Ok None,
          add_log (WARNING, "Could not get Edge version using registry: " ++ msg e)
            (add_call (SubprocessRun reg_argv None) Scenario.w_spawn_fails)).
Proof.
  exists (Exn FileNotFoundError "[WinError 2] The system cannot find the file specified").
  split.
  - apply (proj1 (proj2 (subprocesses_run_without_timeout Scenario.w_spawn_fails))).
    + reflexivity.
    + reflexivity.
  - apply (proj2 (proj2 (subprocesses_run_without_timeout Scenario.w_spawn_fails))).
    reflexivity.
Defined.

Lemma subprocess_spawned_without_timeout :
  In (SubprocessRun (wmic_argv (join edge_dir_x86 "msedge.exe")) None)
    (calls (snd (get_edge_version Scenario.w_offline))) /\
  fst (get_edge_version Scenario.w_offline) = Ok (PyStr "136.0.3240.64").
Proof. vm_compute. auto. Qed.

(** ** The remote version marker *)

(** C9, as the code has it.  The remote lookup removes
    [edge_version.txt] after the download reported success and the
    file was read.  When the download reports failure nothing more is
    done: no removal is attempted. *)
Theorem marker_removed_only_after_successful_read (w w1 : World) :
  let temp_file := join (tempdir (env w)) "edge_version.txt" in
  (download_file_with_wininet LATEST_STABLE_URL temp_file w = (Ok false, w1) ->
   latest_stable w = (Ok None, w1)) /\
  (forall c,
      download_file_with_wininet LATEST_STABLE_URL temp_file w = (Ok true, w1) ->
      lookup (fs w1) temp_file = Some (File c) ->
      fault (env w1) (length (calls w1)) (OpenRead temp_file) = None ->
      fault (env w1) (S (length (calls w1))) FileRead = None ->
      fault (env w1) (S (S (length (calls w1)))) (Remove temp_file) = None ->
      exists w2,
        latest_stable w = (Ok (Some (strip c)), w2) /\
        In (Remove temp_file) (calls w2) /\
        exists_ (fs w2) temp_file = false).
Proof.
  cbv zeta. split.
  - intro E. unfold latest_stable, try_except, bind, get_env. rewrite E. reflexivity.
  - intros c E Hl F1 F2 F3.
    unfold latest_stable, try_except, get_env, bind at 1.
    unfold bind at 1. rewrite E.
    unfold open_r, os_remove, ext, get_fs, put_fs, logging, ret, raise, bind.
    norm. rewrite F1. norm. rewrite Hl. norm.
    rewrite length_app. cbn [length]. rewrite Nat.add_1_r. rewrite F2. norm.
    rewrite !length_app. cbn [length]. rewrite !Nat.add_1_r. rewrite F3. norm.
    rewrite Hl. norm.
    eexists. split; [reflexivity|]. cbn [calls fs add_log set_fs add_call]. split.
    + apply in_or_app. right. left. reflexivity.
    + apply exists_delete. apply join_not_nil.
Qed.

Lemma marker_removed_witness :
  let download :=
    download_file_with_wininet LATEST_STABLE_URL Scenario.temp_file
      Scenario.w_remote in
  fst download = Ok true /\
  calls (snd download)
  = [LoadLibrary "urlmon"; UrlOpen LATEST_STABLE_URL (Some 30%Z);
     OpenWrite Scenario.temp_file; CopyFileObj] /\
  filter is_warning (log (snd download))
  = [(WARNING,
      "WinINet API error: module 'ctypes.wintypes' has no attribute 'HRESULT', trying alternative")] /\
  exists w2,
    latest_stable Scenario.w_remote = (Ok (Some "137.0.0.1"), w2) /\
    In (Remove Scenario.temp_file) (calls w2) /\
    exists_ (fs w2) Scenario.temp_file = false.
Proof.
  cbv zeta. split; [reflexivity|]. split; [reflexivity|].
  split; [reflexivity|].
  apply (proj2 (marker_removed_only_after_successful_read Scenario.w_remote
                  (snd (download_file_with_wininet LATEST_STABLE_URL
                          Scenario.temp_file Scenario.w_remote)))
           ("137.0.0.1" ++ Scenario.nl)).
  - reflexivity.
  - reflexivity.
  - reflexivity.
  - reflexivity.
  - reflexivity.
Defined.

(** C9 as stated fails: the marker is downloaded, reading it raises
    (it cannot be decoded), the [except] clause logs a warning and the
    hardcoded version is returned; [os.remove] was never called and the
    file, which was not there before, is left in the temporary
    directory. *)
Lemma marker_left_when_read_fails :
  exists_ (fs Scenario.w_remote_undecodable) Scenario.temp_file = false /\
  fst (get_edge_version Scenario.w_remote_undecodable)
  = Ok (PyStr "136.0.3240.64") /\
  existsb (fun c => match c with Remove _ => true | _ => false end)
    (calls (snd (get_edge_version Scenario.w_remote_undecodable))) = false /\
  exists_ (fs (snd (get_edge_version Scenario.w_remote_undecodable)))
    Scenario.temp_file = true.
Proof. vm_compute. repeat split. Qed.

(** * Further properties of the program *)

Import Vocab.

(** ** Relations kept by every step *)

Section Steps.
Variable R : World -> World -> Prop.
Hypothesis R_refl : forall w, R w w.
Hypothesis R_trans : forall w1 w2 w3, R w1 w2 -> R w2 w3 -> R w1 w3.

Lemma steps_ret {A} (a : A) : steps R (ret a).
Proof. intro w. apply R_refl. Qed.

Lemma steps_raise {A} (e : exn) : steps R (@raise A e).
Proof. intro w. apply R_refl. Qed.

Lemma steps_bind {A B} (m : M A) (k : A -> M B) :
  steps R m -> (forall a, steps R (k a)) -> steps R (bind m k).
Proof.
  intros Hm Hk w. specialize (Hm w). unfold bind.
  destruct (m w) as [[a|e] w1]; simpl in Hm.
  - eapply R_trans; [exact Hm|apply Hk].
  - exact Hm.
Qed.

Lemma steps_try_except {A} (m : M A) (h : exn -> M A) :
  steps R m -> (forall e, steps R (h e)) -> steps R (try_except m h).
Proof.
  intros Hm Hh w. specialize (Hm w). unfold try_except.
  destruct (m w) as [[a|e] w1]; simpl in Hm.
  - exact Hm.
  - eapply R_trans; [exact Hm|apply Hh].
Qed.

Lemma steps_try_finally {A} (m : M A) (f : M unit) :
  steps R m -> steps R f -> steps R (try_finally m f).
Proof.
  intros Hm Hf w. specialize (Hm w). unfold try_finally.
  destruct (m w) as [r w1]; simpl in Hm.
  specialize (Hf w1). destruct (f w1) as [[u|e] w2]; simpl in Hf |- *;
    eapply R_trans; eauto.
Qed.

Lemma steps_get_env : steps R get_env.
Proof. intro w. apply R_refl. Qed.

Lemma steps_get_fs : steps R get_fs.
Proof. intro w. apply R_refl. Qed.

Lemma steps_os_path_exists (p : path) : steps R (os_path_exists p).
Proof. intro w. apply R_refl. Qed.

Lemma steps_os_walk (p : path) : steps R (os_walk p).
Proof. intro w. apply R_refl. Qed.

Lemma steps_unpack2 (t : pytuple) : steps R (unpack2 t).
Proof. intro w. unfold unpack2. repeat (destruct t as [|? t]; try apply R_refl). Qed.

Lemma steps_py_get (d : pyval) (k : string) (v : pyval) : steps R (py_get d k v).
Proof. intro w. destruct d; apply R_refl. Qed.

End Steps.

Create HintDb leaves.

(** Follow the structure of a computation down to its calls. *)
Ltac walk_step Rr Rt :=
  lazymatch goal with
  | |- steps _ (bind _ _) => apply (steps_bind _ Rt); [|intros]
  | |- steps _ (try_except _ _) => apply (steps_try_except _ Rt); [|intros]
  | |- steps _ (try_finally _ _) => apply (steps_try_finally _ Rt)
  | |- steps _ (ret _) => apply (steps_ret _ Rr)
  | |- steps _ (raise _) => apply (steps_raise _ Rr)
  | |- steps _ get_env => apply (steps_get_env _ Rr)
  | |- steps _ get_fs => apply (steps_get_fs _ Rr)
  | |- steps _ (os_path_exists _) => apply (steps_os_path_exists _ Rr)
  | |- steps _ (os_walk _) => apply (steps_os_walk _ Rr)
  | |- steps _ (unpack2 _) => apply (steps_unpack2 _ Rr)
  | |- steps _ (py_get _ _ _) => apply (steps_py_get _ Rr)
  | |- steps _ (match ?x with _ => _ end) => destruct x
  | |- steps _ (let _ := _ in _) => cbv zeta
  end.

Ltac walk Rr Rt :=
  repeat first [ walk_step Rr Rt | solve [eauto with leaves] ].

(** *** The filesystem is the same *)

Lemma same_fs_refl (w : World) : same_fs w w.
Proof. reflexivity. Qed.

Lemma same_fs_trans (w1 w2 w3 : World) :
  same_fs w1 w2 -> same_fs w2 w3 -> same_fs w1 w3.
Proof. unfold same_fs. congruence. Qed.

Lemma same_fs_logging (l : level) (m : string) : steps same_fs (logging l m).
Proof. intro w. reflexivity. Qed.

Lemma same_fs_ext (c : call) : steps same_fs (ext c).
Proof. intro w. unfold ext. destruct (fault _ _ _); reflexivity. Qed.

#[local] Hint Resolve same_fs_logging same_fs_ext : leaves.

Ltac walk_fs := walk same_fs_refl same_fs_trans.

Lemma same_fs_read_loop (script : list read_result) :
  forall data, steps same_fs (read_loop script data).
Proof.
  induction script as [|r script IH]; intro data; cbn [read_loop]; walk_fs.
Qed.

(** [inet_read] never touches the filesystem. *)
Lemma same_fs_inet_read (url : string) : steps same_fs (inet_read url).
Proof.
  unfold inet_read. walk_fs. apply same_fs_read_loop.
Qed.

(** ** The helpers return, whatever happens *)



(** X1.  The four helpers never raise: whatever the calls inside them
    do, [inet_read] returns bytes or None, and
    [download_file_inet_read], [extract_zip_with_shell] and
    [download_file_with_wininet] return True or False. *)
Theorem helpers_never_raise (url : string) (p q : path) (w : World) :
  (exists r w', inet_read url w = (Ok r, w')) /\
  (exists b w', download_file_inet_read url p w = (Ok b, w')) /\
  (exists b w', extract_zip_with_shell p q w = (Ok b, w')) /\
  (exists b w', download_file_with_wininet url p w = (Ok b, w')).
Proof.
  repeat split;
    refine (total_try_except _ _ _ w); intro e;
    (apply total_bind; [apply total_logging|]); intros _; apply total_ret.
Qed.

(** ** The WinINet handles *)

Lemma calls_read_loop (script : list read_result) :
  forall data w,
    exists l, calls (snd (read_loop script data w)) = (calls w ++ l)%list.
Proof.
  intros data w.
  destruct (keeps_read_loop any_call any_record I script data w)
    as (_ & _ & _ & (l & Hl & _) & _).
  eauto.
Qed.

(** X2.  [inet_read] releases what it acquired, on every path.  Once
    [InternetOpenW] has given a handle, the last call made is
    [InternetCloseHandle] on it, whether the URL could be opened or
    not and whatever the reads do (fail, raise); and once the URL
    handle was obtained, it is closed just before.  When
    [InternetOpenW] gives no handle, nothing is closed. *)
Theorem inet_read_releases_handles (url : string) (w : World) :
  fault (env w) (length (calls w)) (LoadLibrary "wininet") = None ->
  fault (env w) (S (length (calls w))) InternetOpenW = None ->
  (wininet_open (env w) = false ->
   calls (snd (inet_read url w))
   = (calls w ++ [LoadLibrary "wininet"; InternetOpenW])%list) /\
  (wininet_open (env w) = true ->
   exists l,
     calls (snd (inet_read url w))
     = (calls w ++ [LoadLibrary "wininet"; InternetOpenW; InternetOpenUrlW url]
          ++ l ++ [InternetCloseHandle HInternet])%list /\
     (fault (env w) (S (S (length (calls w)))) (InternetOpenUrlW url) = None ->
      wininet_url (env w) url <> None ->
      exists l', l = (l' ++ [InternetCloseHandle HUrl])%list)).
Proof.
  intros F1 F2.
  assert (L1 : length (calls w ++ [LoadLibrary "wininet"]) = S (length (calls w))).
  { rewrite length_app. simpl. lia. }
  assert (L2 : length ((calls w ++ [LoadLibrary "wininet"]) ++ [InternetOpenW])
               = S (S (length (calls w)))).
  { rewrite !length_app. simpl. lia. }
  split; intro Ho;
    unfold inet_read, try_except, try_finally, logging, get_env, ret, bind;
    unfold ext at 1; norm; rewrite F1;
    unfold ext at 1; norm; rewrite L1, F2; norm;
    rewrite Ho; cbn [negb]; norm.
  - cbn [snd calls add_call add_log]. rewrite <- app_assoc. reflexivity.
  - unfold ext at 1. norm. rewrite L2.
    destruct (fault (env w) (S (S (length (calls w)))) (InternetOpenUrlW url))
      as [e|] eqn:F3.
    + exists []. split.
      * unfold ext. repeat run_step; cbn [snd calls add_call add_log];
          rewrite <- !app_assoc; reflexivity.
      * discriminate.
    + destruct (wininet_url (env w) url) as [script|] eqn:Hu.
      * match goal with
        | |- context [read_loop script EmptyString ?w0] =>
            destruct (calls_read_loop script EmptyString w0) as (l0 & Hl0);
            destruct (read_loop script EmptyString w0) as [[data|e] w4]
        end; cbn [snd] in Hl0; cbn [calls add_call] in Hl0;
          exists (l0 ++ [InternetCloseHandle HUrl])%list;
          (split; [|intros _ _; eauto]);
          unfold ext; repeat run_step; cbn [snd calls add_call add_log];
          rewrite Hl0; rewrite <- !app_assoc; reflexivity.
      * exists []. split; [|intros _ H; congruence].
        unfold ext. repeat run_step; cbn [snd calls add_call add_log];
          rewrite <- !app_assoc; reflexivity.
Qed.

Lemma inet_read_handles_witness :
  exists l l',
    calls (snd (inet_read "https://example.invalid/a.zip" Scenario.w_cut))
    = (calls Scenario.w_cut
         ++ [LoadLibrary "wininet"; InternetOpenW;
             InternetOpenUrlW "https://example.invalid/a.zip"]
         ++ l ++ [InternetCloseHandle HInternet])%list /\
    l = (l' ++ [InternetCloseHandle HUrl])%list.
Proof.
  destruct (proj2 (inet_read_releases_handles "https://example.invalid/a.zip"
                     Scenario.w_cut eq_refl eq_refl) eq_refl)
    as (l & H1 & H2).
  destruct (H2 eq_refl ltac:(discriminate)) as (l' & H3).
  exists l, l'. split; assumption.
Defined.

(** ** What a failed read leaves behind *)

(** X3.  [inet_read] never touches the filesystem, and when it yields
    None [download_file_inet_read] returns False having done nothing
    more: no file is opened, nothing is written. *)
Theorem failed_read_writes_nothing (url : string) (save_path : path)
  (w : World) :
  fs (snd (inet_read url w)) = fs w /\
  (fst (inet_read url w) = Ok None ->
   download_file_inet_read url save_path w
   = (Ok false, snd (inet_read url w))).
Proof.
  split; [apply same_fs_inet_read|].
  unfold download_file_inet_read, try_except, bind.
  destruct (inet_read url w) as [[[d|]|e] w1]; cbn [fst snd]; intro H;
    try discriminate H.
  reflexivity.
Qed.

Lemma failed_read_writes_nothing_witness :
  fst (inet_read "https://example.invalid/a.zip" Scenario.w_offline) = Ok None /\
  download_file_inet_read "https://example.invalid/a.zip"
    ["C:"; "Temp"; "a.zip"] Scenario.w_offline
  = (Ok false, snd (inet_read "https://example.invalid/a.zip" Scenario.w_offline)).
Proof.
  split; [reflexivity|].
  apply (proj2 (failed_read_writes_nothing "https://example.invalid/a.zip"
                  ["C:"; "Temp"; "a.zip"] Scenario.w_offline)).
  reflexivity.
Defined.

(** ** The two-step download *)

Ltac run_all :=
  repeat (cbv beta iota;
          cbn [fs env calls log add_call add_log set_fs fst snd];
          match goal with
          | |- context [match fault ?a ?b ?c with _ => _ end] =>
              destruct (fault a b c)
          | |- context [match lookup ?a ?b with _ => _ end] =>
              destruct (lookup a b) as [[?|?]|]
          | |- context [if ?b then _ else _] => destruct b eqn:?
          end).








(** ** More about the filesystem *)

Lemma name_eqb_true (a b : string) :
  name_eqb a b = true <-> lower a = lower b.
Proof. unfold name_eqb. apply String.eqb_eq. Qed.

Lemma name_eqb_refl (a : string) : name_eqb a a = true.
Proof. apply name_eqb_true. reflexivity. Qed.

Lemma name_eqb_left (a b c : string) :
  name_eqb a b = true -> name_eqb a c = name_eqb b c.
Proof.
  intro H. apply name_eqb_true in H. unfold name_eqb. rewrite H. reflexivity.
Qed.

Lemma name_eqb_sym (a b : string) : name_eqb a b = name_eqb b a.
Proof. unfold name_eqb. apply String.eqb_sym. Qed.

(** Names that differ only by case find the same entry. *)
Lemma assoc_name (a b : string) (es : entries_t) :
  name_eqb a b = true -> assoc a es = assoc b es.
Proof.
  intro H. induction es as [|[m x] es IH]; simpl; [reflexivity|].
  rewrite (name_eqb_left a b m H). destruct (name_eqb b m); auto.
Qed.

Lemma assoc_set_entry_other (a c : string) (y : node) (es : entries_t) :
  name_eqb a c = false -> assoc a (set_entry c y es) = assoc a es.
Proof.
  intro H. induction es as [|[m x] es IH]; simpl.
  - rewrite H. reflexivity.
  - destruct (name_eqb c m) eqn:Ec; simpl.
    + assert (Ha : name_eqb a m = false).
      { rewrite (name_eqb_sym a m), <- (name_eqb_left c m a Ec),
          (name_eqb_sym c a). exact H. }
      rewrite Ha. reflexivity.
    + destruct (name_eqb a m); [reflexivity|exact IH].
Qed.

Lemma assoc_remove_entry_other (a c : string) (es : entries_t) :
  name_eqb a c = false -> assoc a (remove_entry c es) = assoc a es.
Proof.
  intro H. induction es as [|[m x] es IH]; simpl; [reflexivity|].
  destruct (name_eqb c m) eqn:Ec; simpl.
  - assert (Ha : name_eqb a m = false).
    { rewrite (name_eqb_sym a m), <- (name_eqb_left c m a Ec),
        (name_eqb_sym c a). exact H. }
    rewrite Ha. exact IH.
  - destruct (name_eqb a m); [reflexivity|exact IH].
Qed.

Lemma assoc_alter_entries_other (a c : string)
  (f : option node -> option node) (es : entries_t) :
  name_eqb a c = false -> assoc a (alter_entries c f es) = assoc a es.
Proof.
  intro H. unfold alter_entries. destruct (f (assoc c es)).
  - apply assoc_set_entry_other. exact H.
  - apply assoc_remove_entry_other. exact H.
Qed.

Lemma alter_cons (c c' : string) (p : path) (f : option node -> option node)
  (es : entries_t) :
  alter (c :: c' :: p) f (Dir es)
  = Dir (alter_entries c
           (fun o => match o with
                     | Some ch => Some (alter (c' :: p) f ch)
                     | None => None
                     end) es).
Proof. reflexivity. Qed.

Lemma lookup_cons (c : string) (q : path) (es : entries_t) :
  lookup (Dir es) (c :: q)
  = match assoc c es with Some ch => lookup ch q | None => None end.
Proof. reflexivity. Qed.

(** Looking below [p] after a change at [p]. *)
Lemma lookup_alter_below (f : option node -> option node) (p : path) :
  p <> [] ->
  forall nd q es,
    lookup nd (removelast p) = Some (Dir es) ->
    lookup (alter p f nd) (p ++ q)%list
    = match f (lookup nd p) with
      | Some x => lookup x q
      | None => None
      end.
Proof.
  intros Hp. induction p as [|c p IH]; [congruence|].
  intros nd q es H. destruct p as [|c' p'].
  - simpl in H. inversion H; subst. simpl.
    rewrite assoc_alter_entries.
    destruct (assoc c es) as [ch|]; simpl; destruct (f _); reflexivity.
  - change (removelast (c :: c' :: p')) with (c :: removelast (c' :: p')) in H.
    destruct nd as [s|es0]; [discriminate|].
    rewrite alter_cons. rewrite lookup_cons in H.
    change ((c :: c' :: p') ++ q)%list with (c :: ((c' :: p') ++ q))%list.
    rewrite !lookup_cons. rewrite assoc_alter_entries.
    destruct (assoc c es0) as [ch|]; [|discriminate].
    apply (IH ltac:(discriminate) ch q es H).
Qed.

Lemma lookup_replace_at_below (p q : path) (x nd : node) :
  is_dir nd p = true ->
  lookup (replace_at p x nd) (p ++ q)%list = lookup x q.
Proof.
  intro H. destruct p as [|c p]; [reflexivity|].
  unfold replace_at, put.
  unfold is_dir in H.
  destruct (lookup nd (c :: p)) as [[s|es]|] eqn:E; try discriminate.
  destruct (lookup_parent (c :: p) ltac:(discriminate) nd _ E) as [es' Hes].
  rewrite (lookup_alter_below _ (c :: p) ltac:(discriminate) nd q es' Hes).
  reflexivity.
Qed.

(** [mkdirs] makes a directory. *)
Lemma mkdirs_is_dir (p : path) :
  forall nd nd', mkdirs p nd = Some nd' -> is_dir nd' p = true.
Proof.
  induction p as [|c p IH]; intros nd nd' H.
  - simpl in H. destruct nd; inversion H. reflexivity.
  - simpl in H. destruct nd as [s|es]; [discriminate|].
    destruct (mkdirs p _) as [ch'|] eqn:E; [|discriminate].
    inversion H; subst. unfold is_dir. rewrite lookup_cons.
    rewrite assoc_alter_entries. apply IH in E. exact E.
Qed.

(** Copying folder over folder: one step of the copy. *)
Lemma merge_cons (m : string) (s : node) (items acc : entries_t) :
  merge (Dir ((m, s) :: items)) (Dir acc)
  = merge (Dir items)
      (Dir (alter_entries m
              (fun o => Some match o with
                             | Some d => merge s d
                             | None => s
                             end) acc)).
Proof. reflexivity. Qed.

(** After the copy, every name of the source is in the destination. *)
Lemma merge_has (items : entries_t) :
  forall acc n,
    assoc n items <> None \/ assoc n acc <> None ->
    exists x, lookup (merge (Dir items) (Dir acc)) [n] = Some x.
Proof.
  induction items as [|[m s] items IH]; intros acc n H.
  - simpl in *. destruct H as [H|H]; [congruence|].
    destruct (assoc n acc) as [x|]; [eauto|congruence].
  - rewrite merge_cons. apply IH.
    destruct (name_eqb n m) eqn:E.
    + right. rewrite (assoc_name n m _ E), assoc_alter_entries. discriminate.
    + simpl in H. rewrite E in H.
      rewrite (assoc_alter_entries_other n m _ _ E). exact H.
Qed.

(** ** The extraction *)

Ltac unfold_extract :=
  unfold extract_zip_with_shell, shell_NameSpace, folder_Items,
    folder_CopyHere, os_makedirs, os_path_exists, os_walk, try_except,
    logging, get_env, get_fs, put_fs, ret, raise, ext, bind.

(** A run of [extract_zip_with_shell] on such an archive. *)
Lemma extract_at_root (zip_path extract_path : path)
  (w : World) (c : string) (items es : entries_t) :
  quiet (env w) ->
  lookup (fs w) extract_path = Some (Dir es) ->
  lookup (fs w) zip_path = Some (File c) ->
  zip_items (env w) c = Some items ->
  assoc "msedgedriver.exe" items <> None ->
  exists w',
    extract_zip_with_shell zip_path extract_path w = (Ok true, w') /\
    fs w' = replace_at extract_path (merge (Dir items) (Dir es)) (fs w) /\
    exists_ (fs w') (join extract_path "msedgedriver.exe") = true /\
    env w' = env w /\
    calls w'
    = (calls w ++ [CreateObject "Shell.Application"; NameSpace zip_path; Items;
                   NameSpace extract_path; CopyHere 20%Z])%list.
Proof.
  intros Hq Hex Hz Hi Ha.
  assert (Hd : is_dir (fs w) extract_path = true)
    by (unfold is_dir; rewrite Hex; reflexivity).
  assert (Hex' : exists_ (fs w) extract_path = true)
    by (unfold exists_; rewrite Hex; reflexivity).
  destruct (merge_has items es "msedgedriver.exe" (or_introl Ha)) as [x Hx].
  assert (Htop : exists_ (replace_at extract_path (merge (Dir items) (Dir es)) (fs w))
                   (join extract_path "msedgedriver.exe") = true).
  { unfold exists_, join. rewrite lookup_replace_at_below by exact Hd.
    rewrite Hx. reflexivity. }
  unfold_extract.
  repeat progress (norm; rewrite ?Hq; rewrite ?Hex'; rewrite ?Hz; rewrite ?Hi;
                   rewrite ?Hex; rewrite ?Htop; cbn [negb fst snd]).
  eexists. split; [reflexivity|]. norm.
  split; [reflexivity|]. split; [exact Htop|]. split; [reflexivity|].
  rewrite <- !app_assoc. reflexivity.
Qed.

(** X7.  With a readable archive that has an entry named
    [msedgedriver.exe] (in any case) at its root and an existing
    destination directory, when nothing raises,
    [extract_zip_with_shell] copies the archive with the flags 20,
    finds the driver at the top of the destination and returns
    True. *)
Theorem extract_succeeds_with_driver_at_root (zip_path extract_path : path)
  (w : World) (c : string) (items : entries_t) :
  quiet (env w) ->
  is_dir (fs w) extract_path = true ->
  lookup (fs w) zip_path = Some (File c) ->
  zip_items (env w) c = Some items ->
  assoc "msedgedriver.exe" items <> None ->
  fst (extract_zip_with_shell zip_path extract_path w) = Ok true /\
  exists_ (fs (snd (extract_zip_with_shell zip_path extract_path w)))
    (join extract_path "msedgedriver.exe") = true /\
  calls (snd (extract_zip_with_shell zip_path extract_path w))
  = (calls w ++ [CreateObject "Shell.Application"; NameSpace zip_path; Items;
                 NameSpace extract_path; CopyHere 20%Z])%list.
Proof.
  intros Hq Hd Hz Hi Ha.
  unfold is_dir in Hd.
  destruct (lookup (fs w) extract_path) as [[s|es]|] eqn:Hex; try discriminate.
  destruct (extract_at_root zip_path extract_path w c items es Hq Hex Hz Hi Ha)
    as (w' & E & _ & Ht & _ & Hc).
  rewrite E. auto.
Qed.

Lemma extract_succeeds_witness :
  fst (extract_zip_with_shell (join Scenario.workspace "edgedriver.zip")
         Scenario.base_path Scenario.w_flat_downloaded) = Ok true /\
  exists_
    (fs (snd (extract_zip_with_shell (join Scenario.workspace "edgedriver.zip")
                Scenario.base_path Scenario.w_flat_downloaded)))
    (join Scenario.base_path "msedgedriver.exe") = true /\
  calls (snd (extract_zip_with_shell (join Scenario.workspace "edgedriver.zip")
                Scenario.base_path Scenario.w_flat_downloaded))
  = (calls Scenario.w_flat_downloaded
       ++ [CreateObject "Shell.Application";
           NameSpace (join Scenario.workspace "edgedriver.zip"); Items;
           NameSpace Scenario.base_path; CopyHere 20%Z])%list.
Proof.
  apply (extract_succeeds_with_driver_at_root
           (join Scenario.workspace "edgedriver.zip") Scenario.base_path
           Scenario.w_flat_downloaded Scenario.archive_bytes
           [Scenario.driver_file;
            ("Driver_Notes", Dir [("credits.html", File "c")])]).
  - intros n c. reflexivity.
  - reflexivity.
  - reflexivity.
  - reflexivity.
  - discriminate.
Defined.

(** X8.  When the archive cannot be opened as a folder (it is missing,
    or its content is no archive), [extract_zip_with_shell] returns
    False without copying anything: the filesystem is as before and
    the only calls are the creation of the shell object and the
    look-up of the archive. *)
Theorem unreadable_archive_is_not_copied (zip_path extract_path : path)
  (w : World) :
  quiet (env w) ->
  exists_ (fs w) extract_path = true ->
  match lookup (fs w) zip_path with
  | Some (File c) => zip_items (env w) c = None
  | Some (Dir _) => False
  | None => True
  end ->
  extract_zip_with_shell zip_path extract_path w
  = (Ok false,
     add_log (ERROR, "Could not access ZIP file: " ++ path_str zip_path)
       (add_call (NameSpace zip_path)
          (add_call (CreateObject "Shell.Application")
             (add_log
                (INFO,
                 "Extracting " ++ path_str zip_path ++ " to "
                   ++ path_str extract_path ++ " using Shell.Application")
                w)))).
Proof.
  intros Hq Hex Hz.
  unfold_extract.
  repeat progress (norm; rewrite ?Hq; rewrite ?Hex; cbn [negb fst snd]).
  destruct (lookup (fs w) zip_path) as [[c|es]|]; try contradiction;
    rewrite ?Hz; reflexivity.
Qed.

Lemma unreadable_archive_witness :
  extract_zip_with_shell (join Scenario.workspace "edgedriver.zip")
    Scenario.base_path Scenario.w_offline
  = (Ok false,
     add_log
       (ERROR,
        "Could not access ZIP file: "
          ++ path_str (join Scenario.workspace "edgedriver.zip"))
       (add_call (NameSpace (join Scenario.workspace "edgedriver.zip"))
          (add_call (CreateObject "Shell.Application")
             (add_log
                (INFO,
                 "Extracting "
                   ++ path_str (join Scenario.workspace "edgedriver.zip")
                   ++ " to " ++ path_str Scenario.base_path
                   ++ " using Shell.Application")
                Scenario.w_offline)))).
Proof.
  apply (unreadable_archive_is_not_copied
           (join Scenario.workspace "edgedriver.zip") Scenario.base_path
           Scenario.w_offline).
  - intros n c. reflexivity.
  - reflexivity.
  - exact I.
Defined.

(** The search changes nothing in the world. *)
Lemma extract_search_world (items : list pytuple) (w : World) :
  snd (extract_search items w) = w.
Proof.
  induction items as [|t items IH]; [reflexivity|].
  cbn [extract_search]. unfold bind.
  destruct t as [|a [|b [|c t]]]; try reflexivity.
  simpl. destruct (existsb _ _); [reflexivity|exact IH].
Qed.

(** X9.  [extract_zip_with_shell] creates a missing destination before
    it does anything else: when the destination does not exist and
    can be made, [os.makedirs] is the first call, and the destination
    is a directory when the function returns, whatever becomes of the
    extraction. *)
Theorem extract_creates_destination (zip_path extract_path : path)
  (w : World) (f' : node) :
  quiet (env w) ->
  exists_ (fs w) extract_path = false ->
  mkdirs extract_path (fs w) = Some f' ->
  (exists l,
      calls (snd (extract_zip_with_shell zip_path extract_path w))
      = (calls w ++ Makedirs extract_path :: l)%list) /\
  is_dir (fs (snd (extract_zip_with_shell zip_path extract_path w)))
    extract_path = true.
Proof.
  intros Hq Hex Hm.
  pose proof (mkdirs_is_dir _ _ _ Hm) as Hd.
  pose proof Hd as Hd'. unfold is_dir in Hd'.
  destruct (lookup f' extract_path) as [[s|es]|] eqn:Hl; try discriminate.
  assert (Hr : forall items,
             is_dir (replace_at extract_path (merge (Dir items) (Dir es)) f')
               extract_path = true).
  { intro items. unfold is_dir.
    rewrite <- (app_nil_r extract_path) at 2.
    rewrite lookup_replace_at_below by exact Hd. reflexivity. }
  unfold_extract.
  repeat progress (norm; rewrite ?Hq; rewrite ?Hex; rewrite ?Hm; rewrite ?Hl;
                   cbn [negb fst snd]).
  destruct (lookup f' zip_path) as [[c|es']|];
    repeat progress (norm; rewrite ?Hq; rewrite ?Hl; cbn [negb fst snd]);
    try destruct (zip_items (env w) c);
    repeat progress (norm; rewrite ?Hq; rewrite ?Hl; cbn [negb fst snd]);
    run_all;
    try match goal with
        | |- context [extract_search ?its ?w0] =>
            pose proof (extract_search_world its w0) as Hs;
            destruct (extract_search its w0) as [[[|]|?] ?];
            cbn [snd] in Hs; subst
        end;
    norm; cbn [fst snd calls fs add_call add_log set_fs negb];
    (split; [eexists; rewrite <- ?app_assoc; reflexivity|]);
    first [exact Hd | apply Hr].
Qed.

Lemma extract_creates_destination_witness :
  (exists l,
      calls (snd (extract_zip_with_shell ["C:"; "Temp"; "a.zip"]
                    ["C:"; "drivers"; "edge"] Scenario.w_offline))
      = (calls Scenario.w_offline
           ++ Makedirs ["C:"; "drivers"; "edge"] :: l)%list) /\
  is_dir (fs (snd (extract_zip_with_shell ["C:"; "Temp"; "a.zip"]
                     ["C:"; "drivers"; "edge"] Scenario.w_offline)))
    ["C:"; "drivers"; "edge"] = true.
Proof.
  refine (extract_creates_destination ["C:"; "Temp"; "a.zip"]
            ["C:"; "drivers"; "edge"] Scenario.w_offline _ _ _ _).
  - intros n c. reflexivity.
  - reflexivity.
  - reflexivity.
Defined.

(** ** Local detection stays local *)

Lemma calls_since_refl (Q : call -> Prop) (w : World) : calls_since Q w w.
Proof. exists []. rewrite app_nil_r. auto. Qed.

Lemma calls_since_trans (Q : call -> Prop) (w1 w2 w3 : World) :
  calls_since Q w1 w2 -> calls_since Q w2 w3 -> calls_since Q w1 w3.
Proof.
  intros (l1 & H1 & F1) (l2 & H2 & F2). exists (l1 ++ l2)%list. split.
  - rewrite H2, H1, app_assoc. reflexivity.
  - apply Forall_app; auto.
Qed.

Lemma local_step_refl (w : World) : local_step w w.
Proof. split; [reflexivity|apply calls_since_refl]. Qed.

Lemma local_step_trans (w1 w2 w3 : World) :
  local_step w1 w2 -> local_step w2 w3 -> local_step w1 w3.
Proof.
  intros [H1 C1] [H2 C2]. split; [congruence|].
  eapply calls_since_trans; eauto.
Qed.

Lemma local_step_logging (l : level) (m : string) :
  steps local_step (logging l m).
Proof.
  intro w. split; [reflexivity|]. exists []. simpl. rewrite app_nil_r. auto.
Qed.

Lemma local_step_ext (c : call) :
  local_call c -> steps local_step (ext c).
Proof.
  intros H w. unfold ext.
  destruct (fault _ _ _); (split; [reflexivity|]); exists [c]; auto.
Qed.

#[local] Hint Resolve local_step_logging : leaves.
#[local] Hint Extern 1 (steps local_step (ext _)) =>
  apply local_step_ext; reflexivity : leaves.

Ltac walk_local :=
  repeat first
    [ walk_step local_step_refl local_step_trans
    | solve [eauto with leaves]
    | progress unfold subprocess_run, json_load, open_r ].

Lemma local_method1_loop (paths : list path) :
  steps local_step (method1_loop paths).
Proof.
  induction paths as [|p paths IH]; cbn [method1_loop]; walk_local.
Qed.

Lemma local_method1 : steps local_step method1.
Proof. unfold method1. walk_local. apply local_method1_loop. Qed.

Lemma local_method2 : steps local_step method2.
Proof. unfold method2. walk_local. Qed.

Lemma local_method3 : steps local_step method3.
Proof. unfold method3. walk_local. Qed.

Lemma total_method1 : total method1.
Proof.
  unfold method1. apply total_try_except. intro e.
  apply total_bind; [apply total_logging|]. intros _. apply total_ret.
Qed.

Lemma total_method2 : total method2.
Proof.
  unfold method2. apply total_try_except. intro e.
  apply total_bind; [apply total_logging|]. intros _. apply total_ret.
Qed.

Lemma total_method3 : total method3.
Proof.
  unfold method3. apply total_try_except. intro e.
  apply total_bind; [apply total_logging|]. intros _. apply total_ret.
Qed.

Lemma total_remote_or_default : total remote_or_default.
Proof.
  unfold remote_or_default.
  apply total_bind; [apply total_logging|]. intros _.
  apply total_bind.
  - unfold latest_stable. apply total_try_except. intro e.
    apply total_bind; [apply total_logging|]. intros _. apply total_ret.
  - intros [v|]; [apply total_ret|].
    apply total_bind; [apply total_logging|]. intros _. apply total_ret.
Qed.

(** X10.  [get_edge_version] goes to the network only after the three
    local methods have yielded nothing.  There is a world [w3] reached
    from the start by local steps only (no library loaded, no
    transport called, the filesystem as it was) such that either the
    run ends in [w3] with the value a local method gave (method 1,
    else method 2, else method 3, each tried only when the ones before
    gave nothing), or the three methods gave nothing, one after the
    other, and the run is the last block (warning, remote lookup,
    hardcoded version) started in [w3].  So every network call of a
    run comes after the last call of the local methods and after
    their failure. *)
Theorem remote_lookup_only_after_local_methods (w : World) :
  let w0 := add_log (INFO, "Detecting Edge browser version...") w in
  exists w3,
    local_step w w3 /\
    ((exists s,
         get_edge_version w = (Ok (PyStr s), w3) /\
         (method1 w0 = (Ok (Some s), w3) \/
          exists w1,
            method1 w0 = (Ok None, w1) /\ method2 w1 = (Ok (Some s), w3))) \/
     (exists w1 w2 v,
         method1 w0 = (Ok None, w1) /\ method2 w1 = (Ok None, w2) /\
         method3 w2 = (Ok (inl v), w3) /\
         get_edge_version w = (Ok v, w3)) \/
     (exists w1 w2 v3,
         method1 w0 = (Ok None, w1) /\ method2 w1 = (Ok None, w2) /\
         method3 w2 = (Ok (inr v3), w3) /\ truthy v3 = false /\
         get_edge_version w = remote_or_default w3)).
Proof.
  intro w0.
  assert (S0 : local_step w w0) by apply (local_step_logging INFO _ w).
  destruct (total_method1 w0) as (r1 & w1 & E1).
  pose proof (local_method1 w0) as S1. rewrite E1 in S1. cbn [snd] in S1.
  pose proof (local_step_trans _ _ _ S0 S1) as T1.
  assert (G : get_edge_version w
              = try_except
                  (logging INFO "Detecting Edge browser version..." ;;
                   r1 <- method1 ;;
                   match r1 with
                   | Some v => ret (PyStr v)
                   | None =>
                       r2 <- method2 ;;
                       match r2 with
                       | Some v => ret (PyStr v)
                       | None =>
                           r3 <- method3 ;;
                           match r3 with
                           | inl v => ret v
                           | inr edge_version =>
                               if negb (truthy edge_version)
                               then remote_or_default
                               else ret edge_version
                           end
                       end
                   end)
                  (fun e =>
                     logging ERROR ("Error detecting Edge version: " ++ msg e) ;;
                     logging INFO
                       ("Using fallback Edge version due to error: "
                          ++ FALLBACK_VERSION) ;;
                     ret (PyStr FALLBACK_VERSION)) w) by reflexivity.
  destruct r1 as [s1|].
  { exists w1. split; [exact T1|]. left. exists s1.
    split; [|left; exact E1].
    rewrite G. unfold try_except, bind, logging, ret. fold w0.
    rewrite E1. reflexivity. }
  destruct (total_method2 w1) as (r2 & w2 & E2).
  pose proof (local_method2 w1) as S2. rewrite E2 in S2. cbn [snd] in S2.
  pose proof (local_step_trans _ _ _ T1 S2) as T2.
  destruct r2 as [s2|].
  { exists w2. split; [exact T2|]. left. exists s2.
    split; [|right; exists w1; split; [exact E1|exact E2]].
    rewrite G. unfold try_except, bind, logging, ret. fold w0.
    rewrite E1, E2. reflexivity. }
  destruct (total_method3 w2) as (r3 & w3 & E3).
  pose proof (local_method3 w2) as S3. rewrite E3 in S3. cbn [snd] in S3.
  pose proof (local_step_trans _ _ _ T2 S3) as T3.
  pose proof (method3_result _ _ _ E3) as R3.
  exists w3. split; [exact T3|]. right.
  destruct r3 as [v|v3].
  - left. exists w1, w2, v. repeat split; try assumption; try reflexivity.
    rewrite G. unfold try_except, bind, logging, ret. fold w0.
    rewrite E1, E2, E3. reflexivity.
  - right. exists w1, w2, v3. cbn in R3.
    repeat split; try assumption; try reflexivity.
    rewrite G. unfold try_except, bind at 1. unfold logging at 1. fold w0.
    unfold bind at 1. rewrite E1. unfold bind at 1. rewrite E2.
    unfold bind at 1. rewrite E3, R3. cbn [negb].
    destruct (total_remote_or_default w3) as (v & w4 & E4). rewrite E4.
    reflexivity.
Qed.

(** ** What the two regular expressions find *)

Lemma append_assoc (a b c : string) : ((a ++ b) ++ c = a ++ (b ++ c))%string.
Proof. induction a as [|x a IH]; simpl; [reflexivity|now rewrite IH]. Qed.

Lemma match_here_lits (s : string) (re : list Re.item) (t cap : string) :
  Re.match_here (Re.lits s ++ re)%list (s ++ t) cap = Re.match_here re t cap.
Proof.
  induction s as [|c s IH]; [reflexivity|].
  cbn [Re.lits app String.append Re.match_here Re.cmatch].
  rewrite Ascii.eqb_refl. exact IH.
Qed.

(** [(.+)] at the end of the pattern takes the rest of the line. *)
Lemma match_here_group_dot (v t cap : string) :
  v <> EmptyString ->
  all_chars not_newline v = true ->
  ends_line t = true ->
  Re.match_here [Re.Group Re.CDot] (v ++ t) cap = Some v.
Proof.
  intros Hv Hn Ht. cbn [Re.match_here].
  match goal with
  | |- ?F (v ++ t) EmptyString = _ =>
      assert (G : forall v' acc,
                 v' <> EmptyString -> all_chars not_newline v' = true ->
                 F (v' ++ t) acc = Some (acc ++ v'))
  end.
  { clear v Hv Hn. induction v' as [|c v' IH]; intros acc Hv Hn; [congruence|].
    cbn [all_chars] in Hn. apply andb_prop in Hn. destruct Hn as [Hc Hn].
    cbn [String.append Re.cmatch]. unfold not_newline in Hc. rewrite Hc.
    destruct v' as [|c' v''].
    - cbn [String.append].
      destruct t as [|d t']; cbn [ends_line] in Ht.
      + reflexivity.
      + cbn [Re.cmatch]. rewrite Ht. reflexivity.
    - rewrite IH; [|discriminate|exact Hn].
      rewrite append_assoc. reflexivity. }
  rewrite G by assumption. reflexivity.
Qed.

(** [k+] takes a run of matching characters whole when what follows
    does not match [k] and the rest of the pattern succeeds there. *)
Lemma match_here_plus (k : Re.cclass) (re : list Re.item)
  (ws t cap r : string) :
  ws <> EmptyString ->
  all_chars (Re.cmatch k) ws = true ->
  match t with
  | EmptyString => True
  | String c _ => Re.cmatch k c = false
  end ->
  Re.match_here re t cap = Some r ->
  Re.match_here (Re.Plus k :: re) (ws ++ t) cap = Some r.
Proof.
  intros Hw Ha Ht Hr. cbn [Re.match_here].
  revert Hw Ha. induction ws as [|c ws IH]; intros Hw Ha; [congruence|].
  cbn [all_chars] in Ha. apply andb_prop in Ha. destruct Ha as [Hc Ha].
  cbn [String.append]. rewrite Hc.
  destruct ws as [|c' ws'].
  - cbn [String.append]. destruct t as [|d t'].
    + exact Hr.
    + rewrite Ht. exact Hr.
  - rewrite IH; [reflexivity|discriminate|exact Ha].
Qed.

(** The search passes over text in which the first character of the
    pattern does not occur. *)
Lemma search_skips (c0 : ascii) (re : list Re.item) (pre s : string) :
  all_chars (not_char c0) pre = true ->
  Re.search (Re.One (Re.CLit c0) :: re) (pre ++ s)
  = Re.search (Re.One (Re.CLit c0) :: re) s.
Proof.
  induction pre as [|c pre IH]; intro H; [reflexivity|].
  cbn [all_chars] in H. apply andb_prop in H. destruct H as [Hc H].
  cbn [String.append Re.search Re.match_here Re.cmatch].
  unfold not_char in Hc. apply negb_true_iff in Hc. rewrite Hc.
  apply IH. exact H.
Qed.

Lemma search_here (re : list Re.item) (s g : string) :
  Re.match_here re s EmptyString = Some g -> Re.search re s = Some g.
Proof. intro H. destruct s; simpl; rewrite H; reflexivity. Qed.

(** What [Version=(.+)] finds in the output of wmic. *)
Lemma wmic_version_found (pre v t : string) :
  all_chars (not_char "V") pre = true ->
  v <> EmptyString ->
  all_chars not_newline v = true ->
  ends_line t = true ->
  Re.search Re.wmic_version (pre ++ "Version=" ++ v ++ t) = Some v.
Proof.
  intros Hp Hv Hn Ht.
  change Re.wmic_version
    with (Re.One (Re.CLit "V") :: (Re.lits "ersion=" ++ [Re.Group Re.CDot]))%list.
  rewrite search_skips by exact Hp.
  apply search_here.
  change (Re.One (Re.CLit "V") :: (Re.lits "ersion=" ++ [Re.Group Re.CDot]))%list
    with (Re.lits "Version=" ++ [Re.Group Re.CDot])%list.
  rewrite match_here_lits. apply match_here_group_dot; assumption.
Qed.

(** What [version\s+REG_SZ\s+(.+)] finds in the output of reg. *)
Lemma reg_version_found (pre ws1 ws2 v t : string) :
  all_chars (not_char "v") pre = true ->
  ws1 <> EmptyString -> all_chars is_space ws1 = true ->
  ws2 <> EmptyString -> all_chars is_space ws2 = true ->
  starts_solid v = true ->
  all_chars not_newline v = true ->
  ends_line t = true ->
  Re.search Re.reg_version
    (pre ++ "version" ++ ws1 ++ "REG_SZ" ++ ws2 ++ v ++ t)
  = Some v.
Proof.
  intros Hp Hw1 Ha1 Hw2 Ha2 Hs Hn Ht.
  assert (Hv : v <> EmptyString) by (intros ->; discriminate Hs).
  change Re.reg_version
    with (Re.One (Re.CLit "v")
            :: (Re.lits "ersion"
                  ++ Re.Plus Re.CSpace
                  :: (Re.lits "REG_SZ"
                        ++ [Re.Plus Re.CSpace; Re.Group Re.CDot])))%list.
  rewrite search_skips by exact Hp.
  apply search_here.
  change (Re.One (Re.CLit "v")
            :: (Re.lits "ersion"
                  ++ Re.Plus Re.CSpace
                  :: (Re.lits "REG_SZ"
                        ++ [Re.Plus Re.CSpace; Re.Group Re.CDot])))%list
    with (Re.lits "version"
            ++ Re.Plus Re.CSpace
            :: (Re.lits "REG_SZ" ++ [Re.Plus Re.CSpace; Re.Group Re.CDot]))%list.
  rewrite match_here_lits.
  apply match_here_plus; [exact Hw1|exact Ha1|reflexivity|].
  rewrite match_here_lits.
  apply match_here_plus; [exact Hw2|exact Ha2| |].
  - destruct v as [|c v']; [congruence|].
    cbn [starts_solid] in Hs. apply negb_true_iff in Hs. exact Hs.
  - apply match_here_group_dot; assumption.
Qed.

(** ** The three local methods, one by one *)

Lemma method1_loop_silent (paths : list path) :
  forall w,
    quiet (env w) ->
    (forall p, In p paths ->
       Re.search Re.wmic_version (proc_stdout (env w) (wmic_argv p)) = None) ->
    method1_loop paths w
    = (Ok None,
       add_calls
         (map (fun p => SubprocessRun (wmic_argv p) None)
            (filter (exists_ (fs w)) paths)) w).
Proof.
  induction paths as [|p paths IH]; intros w Hq Hs; [reflexivity|].
  cbn [method1_loop filter].
  unfold os_path_exists, subprocess_run, ext, get_env, ret, bind.
  destruct (exists_ (fs w) p) eqn:E.
  - rewrite Hq. cbn [env add_call]. rewrite (Hs p (or_introl eq_refl)).
    rewrite IH; [reflexivity|exact Hq|].
    intros q Hin. apply Hs. right. exact Hin.
  - apply IH; [exact Hq|]. intros q Hin. apply Hs. right. exact Hin.
Qed.

Lemma method1_silent (w : World) :
  quiet (env w) ->
  (forall p, In p edge_paths ->
     Re.search Re.wmic_version (proc_stdout (env w) (wmic_argv p)) = None) ->
  method1 w = (Ok None, add_calls (wmic_calls (fs w)) w).
Proof.
  intros Hq Hs. unfold method1, try_except.
  rewrite method1_loop_silent by assumption. reflexivity.
Qed.

Lemma method2_silent (w : World) :
  quiet (env w) ->
  Re.search Re.reg_version (proc_stdout (env w) reg_argv) = None ->
  method2 w = (Ok None, add_call (SubprocessRun reg_argv None) w).
Proof.
  intros Hq Hs.
  unfold method2, try_except, subprocess_run, ext, get_env, ret, bind.
  rewrite Hq. cbn [env add_call]. rewrite Hs. reflexivity.
Qed.

Lemma method2_found (w : World) (g : string) :
  quiet (env w) ->
  Re.search Re.reg_version (proc_stdout (env w) reg_argv) = Some g ->
  method2 w
  = (Ok (Some (strip g)),
     add_log (INFO, "Edge version detected (registry): " ++ strip g)
       (add_call (SubprocessRun reg_argv None) w)).
Proof.
  intros Hq Hs.
  unfold method2, try_except, subprocess_run, ext, get_env, logging, ret, bind.
  rewrite Hq. cbn [env add_call]. rewrite Hs. reflexivity.
Qed.

Lemma env_after_wmic (w : World) (r : record_t) :
  env (add_calls (wmic_calls (fs w)) (add_log r w)) = env w.
Proof. rewrite env_add_calls. reflexivity. Qed.

Lemma method1_found (w : World) (pre v t : string) :
  let exe := join edge_dir_x86 "msedge.exe" in
  let spawn := SubprocessRun (wmic_argv exe) None in
  exists_ (fs w) exe = true ->
  fault (env w) (length (calls w)) spawn = None ->
  proc_stdout (env w) (wmic_argv exe) = pre ++ "Version=" ++ v ++ t ->
  all_chars (not_char "V") pre = true ->
  v <> EmptyString ->
  all_chars not_newline v = true ->
  ends_line t = true ->
  method1 w
  = (Ok (Some (strip v)),
     add_log (INFO, "Edge version detected (wmic): " ++ strip v)
       (add_call spawn w)).
Proof.
  intros exe spawn He Hf Ho Hp Hv Hn Ht.
  pose proof (wmic_version_found pre v t Hp Hv Hn Ht) as Hs.
  rewrite <- Ho in Hs.
  unfold method1, try_except.
  change edge_paths with [exe; join edge_dir_64 "msedge.exe"].
  cbn [method1_loop].
  unfold os_path_exists, subprocess_run, ext, get_env, logging, ret, bind.
  rewrite He. unfold spawn in Hf. rewrite Hf. cbn [env add_call add_log].
  rewrite Hs. reflexivity.
Qed.

(** X11.  When the browser is at the first of the two known places and
    wmic prints a line [Version=v], [get_edge_version] returns [v]
    without the white space around it, after that one process and
    nothing else. *)
Theorem wmic_version_is_used (w : World) (pre v t : string) :
  let exe := join edge_dir_x86 "msedge.exe" in
  let spawn := SubprocessRun (wmic_argv exe) None in
  exists_ (fs w) exe = true ->
  fault (env w) (length (calls w)) spawn = None ->
  proc_stdout (env w) (wmic_argv exe) = pre ++ "Version=" ++ v ++ t ->
  all_chars (not_char "V") pre = true ->
  v <> EmptyString ->
  all_chars not_newline v = true ->
  ends_line t = true ->
  get_edge_version w
  = (Ok (PyStr (strip v)),
     add_log (INFO, "Edge version detected (wmic): " ++ strip v)
       (add_call spawn
          (add_log (INFO, "Detecting Edge browser version...") w))).
Proof.
  intros exe spawn He Hf Ho Hp Hv Hn Ht.
  unfold get_edge_version, try_except, bind at 1. unfold logging at 1.
  unfold bind at 1.
  rewrite (method1_found _ pre v t) by assumption.
  reflexivity.
Qed.

Lemma wmic_version_witness :
  get_edge_version Scenario.w_offline
  = (Ok (PyStr "136.0.3240.64"),
     add_log (INFO, "Edge version detected (wmic): 136.0.3240.64")
       (add_call
          (SubprocessRun (wmic_argv (join edge_dir_x86 "msedge.exe")) None)
          (add_log (INFO, "Detecting Edge browser version...")
             Scenario.w_offline))).
Proof.
  apply (wmic_version_is_used Scenario.w_offline
           (Scenario.nl ++ Scenario.nl) "136.0.3240.64"
           (Scenario.nl ++ Scenario.nl));
    try reflexivity.
  discriminate.
Defined.

(** X12.  When wmic prints no version and reg prints the value
    [version] of type REG_SZ, [get_edge_version] returns that value
    without the white space around it; after the wmic processes it
    started the reg process and nothing else. *)
Theorem registry_version_is_used (w : World) (pre ws1 ws2 v t : string) :
  quiet (env w) ->
  (forall p, In p edge_paths ->
     Re.search Re.wmic_version (proc_stdout (env w) (wmic_argv p)) = None) ->
  proc_stdout (env w) reg_argv
  = pre ++ "version" ++ ws1 ++ "REG_SZ" ++ ws2 ++ v ++ t ->
  all_chars (not_char "v") pre = true ->
  ws1 <> EmptyString -> all_chars is_space ws1 = true ->
  ws2 <> EmptyString -> all_chars is_space ws2 = true ->
  starts_solid v = true ->
  all_chars not_newline v = true ->
  ends_line t = true ->
  get_edge_version w
  = (Ok (PyStr (strip v)),
     add_log (INFO, "Edge version detected (registry): " ++ strip v)
       (add_call (SubprocessRun reg_argv None)
          (add_calls (wmic_calls (fs w))
             (add_log (INFO, "Detecting Edge browser version...") w)))).
Proof.
  intros Hq Hw Ho Hp Hw1 Ha1 Hw2 Ha2 Hs Hn Ht.
  pose proof (reg_version_found pre ws1 ws2 v t Hp Hw1 Ha1 Hw2 Ha2 Hs Hn Ht)
    as Hr.
  rewrite <- Ho in Hr.
  unfold get_edge_version, try_except, bind at 1. unfold logging at 1.
  unfold bind at 1.
  rewrite method1_silent by assumption.
  cbn [fs add_log]. unfold bind at 1.
  rewrite (method2_found _ v)
    by (rewrite env_after_wmic; assumption).
  reflexivity.
Qed.

Lemma registry_version_witness :
  get_edge_version w_registry
  = (Ok (PyStr (strip "136.0.3240.64")),
     add_log
       (INFO, "Edge version detected (registry): " ++ strip "136.0.3240.64")
       (add_call (SubprocessRun reg_argv None)
          (add_calls (wmic_calls (fs w_registry))
             (add_log (INFO, "Detecting Edge browser version...")
                w_registry)))).
Proof.
  apply (registry_version_is_used w_registry
           (Scenario.nl
              ++ "HKEY_CURRENT_USER\Software\Microsoft\Edge\BLBeacon"
              ++ Scenario.nl ++ "    ")
           "    " "    " "136.0.3240.64" (Scenario.nl ++ Scenario.nl));
    try reflexivity; try discriminate.
  intros n c. reflexivity.
Defined.

Lemma method3_found (w : World) (c : string)
  (kv pv : list (string * pyval)) (x : pyval) :
  let version_file := join (edge_dir_of (fs w)) "product_versions.json" in
  quiet (env w) ->
  lookup (fs w) version_file = Some (File c) ->
  json_loads (env w) c = Some (PyDict kv) ->
  dict_lookup "product" kv = Some (PyDict pv) ->
  dict_lookup "version" pv = Some x ->
  truthy x = true ->
  method3 w
  = (Ok (inl x),
     add_log (INFO, "Edge version detected (version file): " ++ str x)
       (add_call JsonLoad (add_call (OpenRead version_file) w))).
Proof.
  intros version_file Hq Hl Hj Hp Hv Ht.
  assert (Hd : exists_ (fs w) (edge_dir_of (fs w)) = true).
  { destruct (lookup_parent version_file (join_not_nil _ _) _ _ Hl)
      as [es Hes].
    unfold version_file, join in Hes. rewrite removelast_last in Hes.
    unfold exists_. rewrite Hes. reflexivity. }
  unfold method3, try_except.
  unfold os_path_exists at 1. unfold bind at 1.
  fold (edge_dir_of (fs w)).
  unfold os_path_exists at 1. unfold bind at 1. rewrite Hd.
  fold version_file.
  unfold os_path_exists at 1. unfold bind at 1.
  unfold exists_. rewrite Hl.
  unfold json_load, open_r, py_get, ext, get_env, get_fs, logging, ret, bind.
  rewrite Hq. cbn [fs add_call env]. rewrite Hl.
  change (env (add_call (OpenRead version_file) w)) with (env w).
  rewrite Hq. cbn [fs add_call env]. rewrite Hj, Hp, Hv, Ht.
  reflexivity.
Qed.

(** X13.  When neither wmic nor reg prints a version and the file
    product_versions.json beside the browser decodes to an object
    whose product.version counts as true, [get_edge_version] returns
    that value as it is (a string is not stripped, another value is
    not turned into a string), after reading the file; nothing is
    fetched. *)
Theorem manifest_version_is_used (w : World) (c : string)
  (kv pv : list (string * pyval)) (x : pyval) :
  let version_file := join (edge_dir_of (fs w)) "product_versions.json" in
  quiet (env w) ->
  (forall p, In p edge_paths ->
     Re.search Re.wmic_version (proc_stdout (env w) (wmic_argv p)) = None) ->
  Re.search Re.reg_version (proc_stdout (env w) reg_argv) = None ->
  lookup (fs w) version_file = Some (File c) ->
  json_loads (env w) c = Some (PyDict kv) ->
  dict_lookup "product" kv = Some (PyDict pv) ->
  dict_lookup "version" pv = Some x ->
  truthy x = true ->
  get_edge_version w
  = (Ok x,
     add_log (INFO, "Edge version detected (version file): " ++ str x)
       (add_calls
          (wmic_calls (fs w)
             ++ [SubprocessRun reg_argv None; OpenRead version_file; JsonLoad])
          (add_log (INFO, "Detecting Edge browser version...") w))).
Proof.
  intros version_file Hq Hw Hr Hl Hj Hp Hv Ht.
  unfold get_edge_version, try_except, bind at 1. unfold logging at 1.
  unfold bind at 1.
  rewrite method1_silent by assumption.
  cbn [fs add_log]. unfold bind at 1.
  rewrite method2_silent
    by (rewrite env_after_wmic; assumption).
  unfold bind at 1.
  rewrite (method3_found _ c kv pv x).
  - cbn [fs add_call]. rewrite fs_add_calls. cbn [fs add_log].
    unfold add_calls, ret. rewrite fold_left_app. reflexivity.
  - cbn [env add_call]. rewrite env_after_wmic. exact Hq.
  - cbn [fs add_call]. rewrite fs_add_calls. exact Hl.
  - cbn [env add_call]. rewrite env_after_wmic. exact Hj.
  - exact Hp.
  - exact Hv.
  - exact Ht.
Qed.

Lemma manifest_version_witness :
  get_edge_version w_manifest
  = (Ok (PyStr "136.0.3240.64"),
     add_log
       (INFO,
        "Edge version detected (version file): " ++ str (PyStr "136.0.3240.64"))
       (add_calls
          (wmic_calls (fs w_manifest)
             ++ [SubprocessRun reg_argv None;
                 OpenRead
                   (join (edge_dir_of (fs w_manifest)) "product_versions.json");
                 JsonLoad])
          (add_log (INFO, "Detecting Edge browser version...") w_manifest))).
Proof.
  apply (manifest_version_is_used w_manifest manifest_text
           [("product", PyDict [("version", PyStr "136.0.3240.64")])]
           [("version", PyStr "136.0.3240.64")]
           (PyStr "136.0.3240.64"));
    try reflexivity.
  intros n c. reflexivity.
Defined.

(** ** No file is ever moved *)

Lemma calls_since_weaken (P Q : call -> Prop) (w w' : World) :
  (forall c, P c -> Q c) -> calls_since P w w' -> calls_since Q w w'.
Proof.
  intros H (l & E & F). exists l. split; [exact E|].
  eapply Forall_impl; eauto.
Qed.

Lemma calls_since_same (Q : call -> Prop) (w w' : World) :
  calls w' = calls w -> calls_since Q w w'.
Proof. intro H. exists []. rewrite app_nil_r. auto. Qed.

Lemma calls_since_ext (Q : call -> Prop) (c : call) :
  Q c -> steps (calls_since Q) (ext c).
Proof.
  intros H w. unfold ext. destruct (fault _ _ _); exists [c]; auto.
Qed.

#[local] Hint Extern 1 (steps (calls_since expected_call) (ext _)) =>
  apply calls_since_ext; solve [exact I | reflexivity] : leaves.
#[local] Hint Extern 2 (steps (calls_since _) _) =>
  intro; apply calls_since_same; reflexivity : leaves.

Ltac walk_calls :=
  repeat first
    [ walk_step (calls_since_refl expected_call) (calls_since_trans expected_call)
    | solve [eauto with leaves]
    | progress unfold subprocess_run, json_load, open_r, open_wb, open_append,
        file_write, os_makedirs, os_remove, shutil_rmtree, tempfile_mkdtemp,
        shell_NameSpace, folder_Items, folder_CopyHere, wintypes_attr,
        URLDownloadToFile, urlopen_to_file ].

Lemma expected_read_loop (script : list read_result) :
  forall data, steps (calls_since expected_call) (read_loop script data).
Proof.
  induction script as [|r script IH]; intro data; cbn [read_loop]; walk_calls.
Qed.

Lemma expected_inet_read (url : string) :
  steps (calls_since expected_call) (inet_read url).
Proof. unfold inet_read. walk_calls. apply expected_read_loop. Qed.

Lemma expected_download_file_inet_read (url : string) (p : path) :
  steps (calls_since expected_call) (download_file_inet_read url p).
Proof. unfold download_file_inet_read. walk_calls. apply expected_inet_read. Qed.

Lemma expected_download_file_with_wininet (p : path) :
  steps (calls_since expected_call)
    (download_file_with_wininet LATEST_STABLE_URL p).
Proof. unfold download_file_with_wininet. walk_calls. Qed.

Lemma expected_extract_search (items : list pytuple) :
  steps (calls_since expected_call) (extract_search items).
Proof.
  induction items as [|t items IH]; cbn [extract_search]; walk_calls.
Qed.

Lemma expected_extract_zip_with_shell (p q : path) :
  steps (calls_since expected_call) (extract_zip_with_shell p q).
Proof.
  unfold extract_zip_with_shell. walk_calls; apply expected_extract_search.
Qed.

Lemma expected_method1_loop (paths : list path) :
  steps (calls_since expected_call) (method1_loop paths).
Proof.
  induction paths as [|p paths IH]; cbn [method1_loop]; walk_calls.
Qed.

Lemma expected_get_edge_version : steps (calls_since expected_call) get_edge_version.
Proof.
  unfold get_edge_version, method1, method2, method3, latest_stable.
  walk_calls;
    first [ apply expected_method1_loop | apply expected_download_file_with_wininet ].
Qed.

(** The search for the driver by [os.walk] ends before it looks at a
    single file name. *)
Lemma expected_reconcile (b d : path) :
  steps (calls_since expected_call) (reconcile b d).
Proof.
  intro w. unfold reconcile, os_path_exists, os_walk, bind.
  destruct (exists_ (fs w) d); [apply calls_since_same; reflexivity|].
  destruct (walk (fs w) b) as [|[[x ds] fl] rest];
    apply calls_since_same; reflexivity.
Qed.

Lemma expected_mkdtemp_try (dir : path) (names : list string) :
  steps (calls_since expected_call) (mkdtemp_try dir names).
Proof.
  induction names as [|n names IH]; cbn [mkdtemp_try]; walk_calls.
Qed.

Lemma expected_cache_check (locations : list path) :
  steps (calls_since expected_call) (cache_check locations).
Proof.
  induction locations as [|p locations IH]; cbn [cache_check]; walk_calls.
Qed.

Lemma expected_get_edge_driver_path :
  steps (calls_since expected_call) get_edge_driver_path.
Proof.
  unfold get_edge_driver_path, get_edge_driver_path_try, download_and_extract, try_download_and_extract,
    remove_temp_dir.
  walk_calls;
    first [ apply expected_cache_check | apply expected_get_edge_version
          | apply expected_mkdtemp_try | apply expected_download_file_inet_read
          | apply expected_extract_zip_with_shell | apply expected_reconcile ].
Qed.

(** X14.  Whatever the machine does, a run of the program never calls
    [shutil.move]: the branch of [get_edge_driver_path] that would
    move a driver found in a subfolder is never reached. *)
Theorem no_file_is_ever_moved (w : World) :
  (exists l, calls (snd (get_edge_driver_path w)) = (calls w ++ l)%list /\
             forall a b, ~ In (Move a b) l) /\
  (exists l, calls (snd (main w)) = (calls w ++ l)%list /\
             forall a b, ~ In (Move a b) l).
Proof.
  assert (G : forall w w', calls_since expected_call w w' ->
              exists l, calls w' = (calls w ++ l)%list /\
                        forall a b, ~ In (Move a b) l).
  { intros w1 w2 (l & E & F). exists l. split; [exact E|].
    intros a b Hin. rewrite Forall_forall in F. exact (F _ Hin). }
  split; apply G.
  - apply expected_get_edge_driver_path.
  - revert w. change (steps (calls_since expected_call) main).
    unfold main, initialize_logging. walk_calls.
    apply expected_get_edge_driver_path.
Qed.

(** ** A second run finds the driver of the first *)

(** What is beside or above the place of a change keeps its kind. *)
Lemma kind_alter_off (g : option node -> option node) (d : path) :
  forall p nd,
    prefix_ci d p = false ->
    option_map is_dir_node (lookup (alter d g nd) p)
    = option_map is_dir_node (lookup nd p).
Proof.
  induction d as [|c d IH]; intros p nd H; [discriminate|].
  destruct p as [|c' p'].
  { destruct d; destruct nd; reflexivity. }
  cbn [prefix_ci] in H.
  destruct nd as [s|es]; [destruct d; reflexivity|].
  destruct (name_eqb c c') eqn:En.
  - cbn [andb] in H.
    destruct d as [|c2 d2]; [discriminate|].
    rewrite alter_cons, !lookup_cons.
    assert (En' : name_eqb c' c = true) by (rewrite name_eqb_sym; exact En).
    rewrite (assoc_name c' c _ En'), assoc_alter_entries.
    rewrite (assoc_name c' c es En').
    destruct (assoc c es) as [ch|]; [|reflexivity].
    apply IH. exact H.
  - assert (En' : name_eqb c' c = false) by (rewrite name_eqb_sym; exact En).
    destruct d as [|c2 d2].
    + cbn [alter]. rewrite !lookup_cons.
      rewrite assoc_alter_entries_other by exact En'. reflexivity.
    + rewrite alter_cons, !lookup_cons.
      rewrite assoc_alter_entries_other by exact En'. reflexivity.
Qed.

Lemma is_dir_alter_off (g : option node -> option node) (d p : path)
  (nd : node) :
  prefix_ci d p = false -> is_dir (alter d g nd) p = is_dir nd p.
Proof.
  intro H. pose proof (kind_alter_off g d p nd H) as K. unfold is_dir.
  destruct (lookup (alter d g nd) p) as [[?|?]|];
    destruct (lookup nd p) as [[?|?]|]; simpl in K; congruence.
Qed.

Lemma exists_alter_off (g : option node -> option node) (d p : path)
  (nd : node) :
  prefix_ci d p = false -> exists_ (alter d g nd) p = exists_ nd p.
Proof.
  intro H. pose proof (kind_alter_off g d p nd H) as K. unfold exists_.
  destruct (lookup (alter d g nd) p) as [[?|?]|];
    destruct (lookup nd p) as [[?|?]|]; simpl in K; congruence.
Qed.

(** What is above a directory is a directory, what is above
    something that exists exists. *)
Lemma is_dir_prefix (d : path) :
  forall p nd,
    prefix_ci d p = true -> is_dir nd p = true -> is_dir nd d = true.
Proof.
  induction d as [|c d IH]; intros p nd H Hp.
  - unfold is_dir in *. destruct p as [|c' p']; [exact Hp|].
    destruct nd as [s|es]; [discriminate|reflexivity].
  - destruct p as [|c' p']; [discriminate|].
    cbn [prefix_ci] in H. apply andb_prop in H. destruct H as [En H].
    unfold is_dir in *. destruct nd as [s|es]; [discriminate|].
    rewrite lookup_cons in *. rewrite (assoc_name c c' es En).
    destruct (assoc c' es) as [ch|]; [|discriminate].
    apply (IH p' ch H Hp).
Qed.

Lemma exists_prefix (d : path) :
  forall p nd,
    prefix_ci d p = true -> exists_ nd p = true -> exists_ nd d = true.
Proof.
  induction d as [|c d IH]; intros p nd H Hp; [reflexivity|].
  destruct p as [|c' p']; [discriminate|].
  cbn [prefix_ci] in H. apply andb_prop in H. destruct H as [En H].
  unfold exists_ in *. destruct nd as [s|es]; [discriminate|].
  rewrite lookup_cons in *. rewrite (assoc_name c c' es En).
  destruct (assoc c' es) as [ch|]; [|discriminate].
  apply (IH p' ch H Hp).
Qed.

(** A change at a place that is not a directory keeps every
    directory. *)
Lemma dirs_alter (g : option node -> option node) (d q : path) (nd : node) :
  is_dir nd d = false -> is_dir nd q = true ->
  is_dir (alter d g nd) q = true.
Proof.
  intros Hd Hq. destruct (prefix_ci d q) eqn:E.
  - rewrite (is_dir_prefix d q nd E Hq) in Hd. discriminate.
  - rewrite is_dir_alter_off by exact E. exact Hq.
Qed.

Lemma prefix_ci_snoc (d : path) (a x : string) :
  forall b,
    prefix_ci (d ++ [a])%list (b ++ [x])%list = true ->
    prefix_ci (d ++ [a])%list b = true \/ name_eqb a x = true.
Proof.
  induction d as [|c d IH]; intros b H.
  - destruct b as [|c' b']; simpl in *.
    + right. rewrite andb_true_r in H. exact H.
    + left. exact H.
  - destruct b as [|c' b']; simpl in *.
    + apply andb_prop in H. destruct H as [_ H].
      destruct d; discriminate.
    + apply andb_prop in H. destruct H as [En H]. rewrite En.
      apply IH. exact H.
Qed.

(** *** Directories are kept *)

Lemma dirs_kept_refl (w : World) : dirs_kept w w.
Proof. intros q H. exact H. Qed.

Lemma dirs_kept_trans (w1 w2 w3 : World) :
  dirs_kept w1 w2 -> dirs_kept w2 w3 -> dirs_kept w1 w3.
Proof. intros H1 H2 q H. apply H2, H1, H. Qed.

Lemma dirs_kept_same (w w' : World) : fs w' = fs w -> dirs_kept w w'.
Proof. intros E q H. rewrite E. exact H. Qed.

Lemma dirs_kept_ext (c : call) : steps dirs_kept (ext c).
Proof.
  intro w. apply dirs_kept_same. unfold ext.
  destruct (fault _ _ _); reflexivity.
Qed.

Lemma dirs_kept_logging (l : level) (m : string) :
  steps dirs_kept (logging l m).
Proof. intro w. apply dirs_kept_same. reflexivity. Qed.

Lemma dirs_kept_local {A} (m : M A) :
  steps local_step m -> steps dirs_kept m.
Proof. intros H w. apply dirs_kept_same. apply (H w). Qed.

Lemma dirs_kept_open_wb (p : path) : steps dirs_kept (open_wb p).
Proof.
  intros w q Hq. unfold open_wb, ext, get_fs, put_fs, raise, bind.
  destruct (fault _ _ _); [exact Hq|]. cbn [fs add_call].
  destruct (lookup (fs w) p) as [[c|es]|] eqn:El;
    try destruct (is_dir (fs w) (parent p)); try exact Hq;
    cbn [snd fs set_fs]; apply dirs_alter; auto;
    unfold is_dir; rewrite El; reflexivity.
Qed.

Lemma dirs_kept_os_remove (p : path) : steps dirs_kept (os_remove p).
Proof.
  intros w q Hq. unfold os_remove, ext, get_fs, put_fs, raise, bind.
  destruct (fault _ _ _); [exact Hq|]. cbn [fs add_call].
  destruct (lookup (fs w) p) as [[c|es]|] eqn:El; try exact Hq.
  cbn [snd fs set_fs]. apply dirs_alter; auto.
  unfold is_dir; rewrite El; reflexivity.
Qed.

Lemma dirs_kept_URLDownloadToFile (url : string) (p : path) :
  steps dirs_kept (URLDownloadToFile url p).
Proof.
  intros w q Hq.
  unfold URLDownloadToFile, ext, get_env, get_fs, put_fs, raise, ret, bind.
  destruct (fault _ _ _); [exact Hq|]. cbn [fs env add_call].
  destruct (Z.ltb _ 0); [exact Hq|].
  destruct (Z.eqb _ 0); [|exact Hq].
  destruct (is_dir (fs w) (parent p)); cbn [andb]; [|exact Hq].
  destruct (is_dir (fs w) p) eqn:Ed; cbn [negb]; [exact Hq|].
  cbn [snd fs set_fs]. apply dirs_alter; auto.
Qed.

Lemma open_wb_ok (p : path) (w w' : World) :
  open_wb p w = (Ok tt, w') -> is_dir (fs w') p = false.
Proof.
  unfold open_wb, ext, get_fs, put_fs, raise, bind.
  destruct (fault _ _ _); [discriminate|]. cbn [fs add_call].
  assert (G : is_dir (fs w) (parent p) = true ->
              is_dir (fs w) p = false ->
              is_dir (put p (File EmptyString) (fs w)) p = false).
  { intros Hp Hd. destruct p as [|c p']; [exact Hd|].
    unfold is_dir. rewrite lookup_put; [reflexivity|discriminate|exact Hp]. }
  destruct (lookup (fs w) p) as [[c|es]|] eqn:El; [|discriminate|];
    (destruct (is_dir (fs w) (parent p)) eqn:Ep; [|discriminate]);
    intro H; inversion H; subst; cbn [fs set_fs]; apply G; auto;
    unfold is_dir; rewrite El; reflexivity.
Qed.

Lemma dirs_kept_urlopen_to_file (url : string) (t : option Z) (p : path) :
  steps dirs_kept (urlopen_to_file url t p).
Proof.
  intros w q Hq. unfold urlopen_to_file.
  unfold bind at 1. pose proof (dirs_kept_ext (UrlOpen url t) w q Hq) as H1.
  destruct (ext (UrlOpen url t) w) as [[u|e] w1]; cbn [snd] in *; [|exact H1].
  unfold bind at 1. pose proof (dirs_kept_open_wb p w1 q H1) as H2.
  destruct (open_wb p w1) as [[[]|e] w2] eqn:E; cbn [snd] in *; [|exact H2].
  apply open_wb_ok in E.
  unfold ext, get_env, get_fs, put_fs, bind.
  destruct (fault _ _ _); cbn [snd fs add_call set_fs]; [exact H2|].
  apply dirs_alter; assumption.
Qed.

#[local] Hint Resolve dirs_kept_ext dirs_kept_logging dirs_kept_open_wb
  dirs_kept_os_remove dirs_kept_URLDownloadToFile dirs_kept_urlopen_to_file
  : leaves.

Ltac walk_dirs :=
  repeat first
    [ walk_step dirs_kept_refl dirs_kept_trans
    | solve [eauto with leaves]
    | progress unfold open_r, wintypes_attr ].

Lemma dirs_kept_download_file_with_wininet (url : string) (p : path) :
  steps dirs_kept (download_file_with_wininet url p).
Proof. unfold download_file_with_wininet. walk_dirs. Qed.

Lemma dirs_kept_get_edge_version : steps dirs_kept get_edge_version.
Proof.
  unfold get_edge_version, latest_stable.
  walk_dirs;
    first [ apply dirs_kept_local, local_method1
          | apply dirs_kept_local, local_method2
          | apply dirs_kept_local, local_method3
          | apply dirs_kept_download_file_with_wininet ].
Qed.

(** *** Results with the world they are returned in *)

Lemma post_ret {A} (Q : A -> World -> Prop) (a : A) :
  (forall w, Q a w) -> post Q (ret a).
Proof. intros H w a' w' E. inversion E; subst. apply H. Qed.

Lemma post_bind {A B} (Q : B -> World -> Prop) (m : M A) (k : A -> M B) :
  (forall a, post Q (k a)) -> post Q (bind m k).
Proof.
  intros H w b w' E. destruct (bind_ok_inv m k w w' b E) as (a & w1 & _ & E2).
  exact (H a w1 b w' E2).
Qed.

Lemma post_try_except {A} (Q : A -> World -> Prop) (m : M A)
  (h : exn -> M A) :
  post Q m -> (forall e, post Q (h e)) -> post Q (try_except m h).
Proof.
  intros Hm Hh w a w' E. unfold try_except in E.
  destruct (m w) as [[a1|e] w1] eqn:Em.
  - inversion E; subst. exact (Hm w a w' Em).
  - exact (Hh e w1 a w' E).
Qed.

Lemma post_none (dr : path) : post (at_driver_path dr) (ret None).
Proof. apply post_ret. intros w p H. discriminate. Qed.

Lemma post_reconcile (b dr : path) :
  post (at_driver_path dr) (reconcile b dr).
Proof.
  intros w r w'. unfold reconcile, os_path_exists, os_walk, logging, bind, ret.
  destruct (exists_ (fs w) dr) eqn:E.
  - intro H. inversion H; subst. intros p Hp. inversion Hp; subst.
    split; [reflexivity|exact E].
  - destruct (walk (fs w) b) as [|[[x ds] fl] rest]; simpl.
    + intro H. inversion H; subst. intros p Hp. discriminate.
    + discriminate.
Qed.

Lemma post_try_download_and_extract (b dr : path) (v : pyval) (d : path) :
  post (at_driver_path dr) (try_download_and_extract b dr v d).
Proof.
  unfold try_download_and_extract.
  apply post_try_except.
  - cbv zeta. apply post_bind; intros _. apply post_bind; intros downloaded.
    destruct (negb downloaded).
    + apply post_bind; intros _. apply post_none.
    + apply post_bind; intros _. apply post_bind; intros extracted.
      destruct (negb extracted).
      * apply post_bind; intros _. apply post_none.
      * apply post_bind; intros _. apply post_reconcile.
  - intro e. apply post_bind; intros _. apply post_none.
Qed.

Lemma cache_hit_run (w : World) (p : path) :
  find (exists_ (fs w)) (possible_driver_locations (env w)) = Some p ->
  get_edge_driver_path w
  = (Ok (Some p), add_log (INFO, "Edge driver found at: " ++ path_str p) w).
Proof.
  intro H. unfold get_edge_driver_path, get_edge_driver_path_try, try_except, get_env.
  unfold bind at 1. unfold bind at 1.
  rewrite cache_check_find, H. reflexivity.
Qed.

(** [tempfile.mkdtemp] returns a directory that was not there. *)
Lemma mkdtemp_try_fresh (dir : path) (names : list string) :
  forall w d w',
    mkdtemp_try dir names w = (Ok d, w') ->
    (exists n, d = join dir ("tmp" ++ n)) /\
    exists_ (fs w) d = false /\
    fs w' = put d (Dir []) (fs w) /\ env w' = env w.
Proof.
  induction names as [|n names IH]; intros w d w'; cbn [mkdtemp_try].
  - discriminate.
  - unfold get_fs, put_fs, raise, ret, bind.
    destruct (exists_ (fs w) (join dir ("tmp" ++ n))) eqn:E; [apply IH|].
    destruct (is_dir (fs w) dir); [|discriminate].
    intro H. inversion H; subst.
    split; [exists n; reflexivity|]. split; [exact E|].
    split; reflexivity.
Qed.

Lemma tempfile_mkdtemp_fresh (w : World) (d : path) (w' : World) :
  tempfile_mkdtemp w = (Ok d, w') ->
  (exists n, d = join (tempdir (env w)) ("tmp" ++ n)) /\
  exists_ (fs w) d = false /\
  fs w' = put d (Dir []) (fs w) /\ env w' = env w.
Proof.
  unfold tempfile_mkdtemp, ext, get_env, bind.
  destruct (fault _ _ _); [discriminate|].
  intro H. apply mkdtemp_try_fresh in H. exact H.
Qed.

Lemma remove_temp_dir_fs (d : path) (w : World) :
  fs (snd (remove_temp_dir d w)) = fs w \/
  fs (snd (remove_temp_dir d w)) = delete d (fs w).
Proof.
  unfold remove_temp_dir, try_except, shutil_rmtree, ext, get_fs, put_fs,
    raise, ret, bind.
  destruct (fault _ _ _); [left; reflexivity|]. cbn [fs add_call].
  destruct (lookup (fs w) d) as [[c|es]|]; auto.
Qed.

(** The workspace is neither the place of the driver nor above it. *)
Lemma workspace_off_driver (f : node) (dir b : path) (n : string) :
  is_dir f b = true ->
  exists_ f (join dir ("tmp" ++ n)) = false ->
  prefix_ci (join dir ("tmp" ++ n)) (join b "msedgedriver.exe") = false.
Proof.
  intros Hb Hd. destruct (prefix_ci _ _) eqn:E; [|reflexivity].
  unfold join in E. apply prefix_ci_snoc in E. destruct E as [E|E].
  - assert (Hx : exists_ f b = true).
    { unfold exists_. unfold is_dir in Hb. destruct (lookup f b); congruence. }
    pose proof (exists_prefix _ _ _ E Hx) as Hy. unfold join in Hd.
    congruence.
  - unfold name_eqb in E. cbn in E. discriminate.
Qed.

(** X15.  Idempotence.  When the folder of the program exists and a
    run of [get_edge_driver_path] returns a path, the next run returns
    the same path straight from the check of the expected locations:
    it makes no call at all and only logs where the driver was
    found. *)
Theorem second_run_is_cache_hit (w w1 : World) (p : path) :
  is_dir (fs w) (base_path_of (env w)) = true ->
  get_edge_driver_path w = (Ok (Some p), w1) ->
  get_edge_driver_path w1
  = (Ok (Some p), add_log (INFO, "Edge driver found at: " ++ path_str p) w1).
Proof.
  intros Hb H. unfold get_edge_driver_path, get_edge_driver_path_try, try_except in H.
  match type of H with
  | match ?m w with _ => _ end = _ =>
      destruct (m w) as [[r|e] wb] eqn:Eb
  end; [|unfold logging, ret, bind in H; discriminate].
  inversion H; subst r wb; clear H.
  unfold bind at 1 in Eb. unfold get_env in Eb.
  unfold bind at 1 in Eb. rewrite cache_check_find in Eb.
  destruct (find (exists_ (fs w)) (possible_driver_locations (env w)))
    as [p0|] eqn:Ef.
  - unfold ret in Eb. inversion Eb; subst. apply cache_hit_run. exact Ef.
  - unfold bind at 1 in Eb. unfold logging at 1 in Eb.
    set (w0 := add_log (INFO, "Edge driver not found in expected locations.") w)
      in Eb.
    unfold bind at 1 in Eb.
    pose proof (dirs_kept_get_edge_version w0) as D2.
    destruct (keeps_get_edge_version w0) as (E2 & _).
    destruct (get_edge_version w0) as [[v|e] w2]; [|discriminate].
    cbn [snd] in D2, E2.
    destruct (negb (truthy v));
      [unfold logging, ret, bind in Eb; discriminate|].
    unfold bind at 1 in Eb.
    destruct (tempfile_mkdtemp w2) as [[d|e] w3] eqn:E3; [|discriminate].
    destruct (tempfile_mkdtemp_fresh w2 d w3 E3) as ([n Hn] & Hd & _ & E3').
    unfold download_and_extract, try_finally in Eb.
    set (b := base_path_of (env w)) in *.
    set (dr := driver_path_of (env w)) in *.
    pose proof (post_try_download_and_extract b dr v d w3) as P4.
    destruct (keeps_try_download_and_extract b dr v d w3) as (E4 & _).
    destruct (try_download_and_extract b dr v d w3) as [r4 w4].
    cbn [snd] in E4.
    pose proof (remove_temp_dir_fs d w4) as F5.
    destruct (remove_temp_dir_spec d w4) as (w5 & E5 & E5' & _).
    rewrite E5 in Eb, F5. cbn [snd] in F5.
    inversion Eb; subst r4 w5; clear Eb.
    destruct (P4 (Some p) w4 eq_refl p eq_refl) as [-> Hx].
    assert (Hoff : prefix_ci d dr = false).
    { subst d. apply (workspace_off_driver (fs w2)); [|exact Hd].
      apply D2. exact Hb. }
    assert (Hx1 : exists_ (fs w1) dr = true).
    { destruct F5 as [F5|F5]; rewrite F5; [exact Hx|].
      unfold delete. rewrite exists_alter_off by exact Hoff. exact Hx. }
    apply cache_hit_run.
    assert (Ee : env w1 = env w).
    { rewrite E5', E4, E3', E2. reflexivity. }
    rewrite Ee. unfold possible_driver_locations. fold dr.
    cbn [find]. rewrite Hx1. reflexivity.
Qed.

Lemma second_run_witness :
  get_edge_driver_path (snd (get_edge_driver_path Scenario.w_flat))
  = (Ok (Some Scenario.driver_path),
     add_log (INFO, "Edge driver found at: " ++ path_str Scenario.driver_path)
       (snd (get_edge_driver_path Scenario.w_flat))).
Proof.
  apply (second_run_is_cache_hit Scenario.w_flat).
  - reflexivity.
  - vm_compute. reflexivity.
Defined.

(** ** The whole acquisition *)

Lemma inet_read_full_stream (w : World) (url : string) (chunks : list string) :
  quiet (env w) -> wininet_open (env w) = true ->
  wininet_url (env w) url = Some (map ReadBytes chunks) ->
  Forall (fun b => b <> EmptyString) chunks ->
  inet_read url w
  = (Ok (Some (joined chunks EmptyString)), after_inet_read url chunks w).
Proof.
  intros Hq Ho Hu Hne.
  unfold inet_read, try_except, try_finally, bind, logging, get_env, ret.
  rewrite ext_quiet by apply Hq.
  rewrite ext_quiet by apply Hq.
  cbn [env add_call add_log]. rewrite Ho. cbn [negb].
  rewrite ext_quiet by apply Hq.
  rewrite Hu.
  rewrite read_loop_quiet by (auto; apply Hq).
  rewrite ext_quiet by (cbn [env add_log]; rewrite env_add_calls; apply Hq).
  rewrite ext_quiet
    by (cbn [env add_log add_call]; rewrite env_add_calls; apply Hq).
  reflexivity.
Qed.

Lemma download_full_stream (w : World) (url : string) (save_path : path)
  (chunks : list string) :
  quiet (env w) -> wininet_open (env w) = true ->
  wininet_url (env w) url = Some (map ReadBytes chunks) ->
  Forall (fun b => b <> EmptyString) chunks ->
  is_dir (fs w) (parent save_path) = true ->
  is_dir (fs w) save_path = false ->
  download_file_inet_read url save_path w
  = (Ok true, after_download url save_path chunks w).
Proof.
  intros Hq Ho Hu Hne Hd Hf.
  unfold download_file_inet_read, try_except, bind at 1.
  rewrite (inet_read_full_stream w url chunks) by assumption.
  unfold open_wb, file_write, bind, logging, get_fs, put_fs, ret.
  rewrite ext_quiet by (rewrite env_after_inet_read; apply Hq).
  cbn [fs add_call]. rewrite fs_after_inet_read.
  unfold is_dir in Hf.
  destruct (lookup (fs w) save_path) as [[c|es]|] eqn:El; try discriminate;
    rewrite Hd;
    rewrite ext_quiet
      by (cbn [env set_fs add_call]; rewrite env_after_inet_read; apply Hq);
    reflexivity.
Qed.

Lemma env_after_download (url : string) (p : path) (chunks : list string)
  (w : World) :
  env (after_download url p chunks w) = env w.
Proof.
  unfold after_download. cbn [env add_log set_fs add_call].
  apply env_after_inet_read.
Qed.

Lemma prefix_ci_app (d p : path) (x : string) :
  prefix_ci d p = false -> prefix_ci (d ++ [x])%list p = false.
Proof.
  revert p. induction d as [|c d IH]; intros p H; [discriminate|].
  destruct p as [|c' p']; [reflexivity|].
  simpl in *. destruct (name_eqb c c'); [|reflexivity].
  simpl in *. apply IH. exact H.
Qed.

(** [try: os.remove(zip_path)  except: pass] *)
Lemma remove_zip_spec (p : path) (w : World) :
  exists w',
    try_except (os_remove p) (fun _ => ret tt) w = (Ok tt, w') /\
    env w' = env w /\
    (fs w' = fs w \/ fs w' = delete p (fs w)).
Proof.
  unfold try_except, os_remove, ext, get_fs, put_fs, raise, ret, bind.
  destruct (fault _ _ _); [eexists; repeat split; auto|].
  cbn [fs add_call].
  destruct (lookup (fs w) p) as [[c|es]|]; eexists; repeat split; auto.
Qed.

(** The [try] block of [get_edge_driver_path] when everything works. *)
Lemma try_download_and_extract_ok (w : World) (v : pyval) (d : path)
  (chunks : list string) (items : entries_t) :
  let b := base_path_of (env w) in
  let dr := driver_path_of (env w) in
  let zip_path := join d "edgedriver.zip" in
  quiet (env w) ->
  wininet_open (env w) = true ->
  wininet_url (env w) (driver_url v) = Some (map ReadBytes chunks) ->
  Forall (fun c => c <> EmptyString) chunks ->
  zip_items (env w) (joined chunks EmptyString) = Some items ->
  assoc "msedgedriver.exe" items <> None ->
  is_dir (fs w) d = true ->
  is_dir (fs w) zip_path = false ->
  is_dir (fs w) b = true ->
  prefix_ci d dr = false ->
  exists w',
    try_download_and_extract b dr v d w = (Ok (Some dr), w') /\
    exists_ (fs w') dr = true /\ env w' = env w.
Proof.
  intros b dr zip_path Hq Ho Hu Hne Hi Ha Hd Hz Hb Hoff.
  assert (Hp : parent zip_path = d)
    by (unfold parent, zip_path, join; apply removelast_last).
  unfold try_download_and_extract, try_except. cbv zeta.
  fold zip_path.
  unfold bind at 1. unfold logging at 1. unfold bind at 1.
  rewrite (download_full_stream _ _ _ chunks);
    try assumption; [|rewrite Hp; exact Hd].
  cbn [negb]. unfold bind at 1. unfold logging at 1. unfold bind at 1.
  match goal with
  | |- context [extract_zip_with_shell zip_path b ?w1] => set (w1' := w1)
  end.
  assert (E1 : env w1' = env w)
    by (unfold w1'; cbn [env add_log]; rewrite env_after_download;
        reflexivity).
  assert (F1 : fs w1'
               = put zip_path (File (joined chunks EmptyString))
                   (put zip_path (File EmptyString) (fs w)))
    by reflexivity.
  assert (Hz0 : is_dir (put zip_path (File EmptyString) (fs w)) zip_path
                = false).
  { unfold is_dir. rewrite lookup_put;
      [reflexivity|apply join_not_nil|].
    change (removelast zip_path) with (parent zip_path). rewrite Hp.
    exact Hd. }
  assert (Hd0 : is_dir (put zip_path (File EmptyString) (fs w)) d = true)
    by (apply dirs_alter; assumption).
  assert (Hz1 : lookup (fs w1') zip_path
                = Some (File (joined chunks EmptyString))).
  { rewrite F1. apply lookup_put; [apply join_not_nil|].
    change (removelast zip_path) with (parent zip_path). rewrite Hp.
    exact Hd0. }
  assert (Hb1 : is_dir (fs w1') b = true).
  { rewrite F1. apply dirs_alter; [exact Hz0|].
    apply dirs_alter; assumption. }
  unfold is_dir in Hb1.
  destruct (lookup (fs w1') b) as [[s|es]|] eqn:Hex; try discriminate.
  destruct (extract_at_root zip_path b w1' (joined chunks EmptyString)
              items es) as (w2 & E & _ & Ht & E2 & _);
    try assumption; try (rewrite E1; assumption).
  rewrite E. cbn [negb].
  unfold bind at 1.
  destruct (remove_zip_spec zip_path w2) as (w3 & E3 & E3' & F3).
  unfold try_except in E3. rewrite E3.
  assert (Hx3 : exists_ (fs w3) dr = true).
  { destruct F3 as [F3|F3]; rewrite F3; [exact Ht|].
    unfold delete. rewrite exists_alter_off; [exact Ht|].
    apply prefix_ci_app. exact Hoff. }
  unfold reconcile, os_path_exists, logging, ret, bind.
  rewrite Hx3. eexists. split; [reflexivity|].
  cbn [fs env add_log]. split; [exact Hx3|]. congruence.
Qed.

(** X16.  The acquisition after the version is known and the workspace
    [d] exists: when nothing raises, WinINet delivers the archive for
    that version in non-empty reads, and the archive has the driver at
    its root, [get_edge_driver_path]'s try/finally block returns the
    path of the driver beside the program; the driver is there
    afterwards and no directory is left at [d]. *)
Theorem acquisition_succeeds (w : World) (v : pyval) (d : path)
  (chunks : list string) (items : entries_t) :
  let b := base_path_of (env w) in
  let dr := driver_path_of (env w) in
  let run := download_and_extract b dr v d w in
  quiet (env w) ->
  wininet_open (env w) = true ->
  wininet_url (env w) (driver_url v) = Some (map ReadBytes chunks) ->
  Forall (fun c => c <> EmptyString) chunks ->
  zip_items (env w) (joined chunks EmptyString) = Some items ->
  assoc "msedgedriver.exe" items <> None ->
  is_dir (fs w) d = true ->
  is_dir (fs w) (join d "edgedriver.zip") = false ->
  is_dir (fs w) b = true ->
  prefix_ci d dr = false ->
  fst run = Ok (Some dr) /\
  exists_ (fs (snd run)) dr = true /\
  is_dir (fs (snd run)) d = false.
Proof.
  intros b dr run Hq Ho Hu Hne Hi Ha Hd Hz Hb Hoff.
  destruct (try_download_and_extract_ok w v d chunks items
              Hq Ho Hu Hne Hi Ha Hd Hz Hb Hoff) as (w4 & E4 & Hx4 & Ee4).
  fold b dr in E4, Hx4.
  pose proof (remove_temp_dir_fs d w4) as F.
  destruct (remove_temp_dir_spec d w4) as (w5 & E5 & _ & _ & _ & _ & Hgone).
  unfold run, download_and_extract, try_finally. rewrite E4, E5.
  rewrite E5 in F. cbn [fst snd] in *.
  split; [reflexivity|]. split.
  - destruct F as [F|F]; rewrite F; [exact Hx4|].
    unfold delete. rewrite exists_alter_off by exact Hoff. exact Hx4.
  - apply Hgone; [rewrite Ee4; apply Hq|].
    intros ->. discriminate Hoff.
Qed.

Lemma acquisition_witness :
  let run :=
    download_and_extract Scenario.base_path Scenario.driver_path
      (PyStr "136.0.3240.64") Scenario.workspace Scenario.w_flat_downloaded in
  fst run = Ok (Some Scenario.driver_path) /\
  exists_ (fs (snd run)) Scenario.driver_path = true /\
  is_dir (fs (snd run)) Scenario.workspace = false.
Proof.
  apply (acquisition_succeeds Scenario.w_flat_downloaded
           (PyStr "136.0.3240.64") Scenario.workspace ["PK03"; "04"]
           [Scenario.driver_file;
            ("Driver_Notes", Dir [("credits.html", File "c")])]);
    try reflexivity.
  - intros n c. reflexivity.
  - repeat constructor; discriminate.
  - discriminate.
Defined.

(** X17.  The whole of [get_edge_driver_path] on a machine where
    everything works: no driver at the expected locations, wmic
    prints the version of the browser, the temporary directory takes
    the first name [tempfile.mkdtemp] tries, WinINet delivers the
    archive of that version and the archive has the driver at its
    root.  The function returns the path of the driver beside the
    program; the driver is there afterwards, and no directory is left
    at the workspace. *)
Theorem pipeline_succeeds (w : World) (pre ver t n : string)
  (names : list string) (chunks : list string) (items : entries_t) :
  let e := env w in
  let b := base_path_of e in
  let dr := driver_path_of e in
  let exe := join edge_dir_x86 "msedge.exe" in
  let d := join (tempdir e) ("tmp" ++ n) in
  let run := get_edge_driver_path w in
  quiet e ->
  exists_ (fs w) dr = false ->
  exists_ (fs w) (join (dirname (sys_executable e)) "msedgedriver.exe")
  = false ->
  exists_ (fs w) exe = true ->
  proc_stdout e (wmic_argv exe) = pre ++ "Version=" ++ ver ++ t ->
  all_chars (not_char "V") pre = true ->
  all_chars not_newline ver = true ->
  ends_line t = true ->
  strip ver <> EmptyString ->
  mkdtemp_names e = n :: names ->
  is_dir (fs w) (tempdir e) = true ->
  exists_ (fs w) d = false ->
  wininet_open e = true ->
  wininet_url e (driver_url (PyStr (strip ver))) = Some (map ReadBytes chunks) ->
  Forall (fun c => c <> EmptyString) chunks ->
  zip_items e (joined chunks EmptyString) = Some items ->
  assoc "msedgedriver.exe" items <> None ->
  is_dir (fs w) b = true ->
  fst run = Ok (Some dr) /\
  exists_ (fs (snd run)) dr = true /\
  is_dir (fs (snd run)) d = false.
Proof.
  intros e b dr exe d run Hq Hm1 Hm2 He Ho Hp Hn Ht Hv Hk Htd Hfree
    Hopen Hurl Hne Hzip Ha Hb.
  assert (Hver : ver <> EmptyString) by (intros ->; apply Hv; reflexivity).
  assert (Hoff : prefix_ci d dr = false)
    by (apply (workspace_off_driver (fs w)); assumption).
  assert (Hnd : is_dir (fs w) d = false).
  { unfold is_dir. unfold exists_ in Hfree. destruct (lookup (fs w) d);
      [discriminate|reflexivity]. }
  enough (G : exists w5,
            get_edge_driver_path w = (Ok (Some dr), w5) /\
            exists_ (fs w5) dr = true /\ is_dir (fs w5) d = false).
  { destruct G as (w5 & E & G1 & G2). unfold run. rewrite E. auto. }
  unfold get_edge_driver_path, get_edge_driver_path_try, try_except, get_env.
  unfold bind at 1. unfold bind at 1.
  rewrite cache_check_find. unfold possible_driver_locations.
  fold e dr. cbn [find]. rewrite Hm1, Hm2.
  unfold bind at 1. unfold logging at 1. unfold bind at 1.
  unfold get_edge_version, try_except, bind at 1. unfold logging at 1.
  unfold bind at 1.
  rewrite (method1_found _ pre ver t); try assumption; [|apply Hq].
  unfold ret at 1.
  assert (Htr : truthy (PyStr (strip ver)) = true).
  { cbn [truthy]. destruct (strip ver); [congruence|reflexivity]. }
  rewrite Htr. cbn [negb].
  unfold bind at 1.
  unfold tempfile_mkdtemp, ext, get_env, bind at 1. rewrite Hq.
  unfold bind at 1.
  cbn [env add_call add_log]. fold e. rewrite Hk. cbn [mkdtemp_try].
  unfold get_fs, put_fs, ret, bind at 1.
  cbn [fs add_call add_log]. fold d. rewrite Hfree, Htd.
  unfold bind. fold b.
  match goal with
  | |- context [download_and_extract b dr _ d ?w3] => set (w3' := w3)
  end.
  assert (E3 : env w3' = env w) by reflexivity.
  assert (F3 : fs w3' = put d (Dir []) (fs w)) by reflexivity.
  assert (Hd3 : is_dir (fs w3') d = true).
  { rewrite F3. unfold is_dir. rewrite lookup_put;
      [reflexivity|apply join_not_nil|].
    unfold d, join. rewrite removelast_last. exact Htd. }
  assert (Hz3 : is_dir (fs w3') (join d "edgedriver.zip") = false).
  { rewrite F3. unfold is_dir, put.
    assert (Hr : removelast d = tempdir e)
      by (unfold d, join; apply removelast_last).
    pose proof Htd as Htd'. unfold is_dir in Htd'. rewrite <- Hr in Htd'.
    destruct (lookup (fs w) (removelast d)) as [[s0|es0]|] eqn:El;
      try discriminate.
    unfold join at 1.
    rewrite (lookup_alter_below _ d (join_not_nil _ _) (fs w) _ es0 El).
    reflexivity. }
  assert (Hb3 : is_dir (fs w3') b = true)
    by (rewrite F3; apply dirs_alter; assumption).
  destruct (try_download_and_extract_ok w3' (PyStr (strip ver)) d chunks items)
    as (w4 & E4 & Hx4 & Ee4); try (rewrite ?E3; assumption).
  rewrite E3 in E4, Hx4. subst b dr e.
  pose proof (remove_temp_dir_fs d w4) as F.
  destruct (remove_temp_dir_spec d w4) as (w5 & E5 & _ & _ & _ & _ & Hgone).
  unfold download_and_extract, try_finally. rewrite E4, E5.
  rewrite E5 in F. cbn [fst snd] in *.
  exists w5. split; [reflexivity|]. split.
  - destruct F as [F|F]; rewrite F; [exact Hx4|].
    unfold delete. rewrite exists_alter_off by exact Hoff. exact Hx4.
  - apply Hgone; [rewrite Ee4; apply Hq|apply join_not_nil].
Qed.

Lemma pipeline_witness :
  let run := get_edge_driver_path Scenario.w_flat in
  fst run = Ok (Some Scenario.driver_path) /\
  exists_ (fs (snd run)) Scenario.driver_path = true /\
  is_dir (fs (snd run)) Scenario.workspace = false.
Proof.
  apply (pipeline_succeeds Scenario.w_flat
           (Scenario.nl ++ Scenario.nl) "136.0.3240.64"
           (Scenario.nl ++ Scenario.nl) "k3x9q2ab" [] ["PK03"; "04"]
           [Scenario.driver_file;
            ("Driver_Notes", Dir [("credits.html", File "c")])]);
    try reflexivity.
  - intros n c. reflexivity.
  - vm_compute. discriminate.
  - repeat constructor; discriminate.
  - discriminate.
Defined.

(** ** What is returned, and what [main] does without its log file *)

Lemma post_try_finally_value {A} (Q : A -> Prop) (m : M A) (f : M unit) :
  post (fun a _ => Q a) m -> post (fun a _ => Q a) (try_finally m f).
Proof.
  intros Hm w a w' E. unfold try_finally in E.
  destruct (m w) as [r w1] eqn:Em. destruct (f w1) as [[u|e] w2].
  - inversion E; subst. exact (Hm w a w1 Em).
  - discriminate.
Qed.

Lemma post_weaken {A} (P Q : A -> World -> Prop) (m : M A) :
  (forall a w, P a w -> Q a w) -> post P m -> post Q m.
Proof. intros H Hm w a w' E. apply H. exact (Hm w a w' E). Qed.

(** X18.  A path returned by [get_edge_driver_path] is one of the two
    expected locations: the folder of the program or the folder of the
    interpreter.  A driver found anywhere else is never returned. *)
Theorem returned_path_is_expected_location (w w' : World) (p : path) :
  get_edge_driver_path w = (Ok (Some p), w') ->
  In p (possible_driver_locations (env w)).
Proof.
  intro H. unfold get_edge_driver_path, get_edge_driver_path_try, try_except in H.
  match type of H with
  | match ?m w with _ => _ end = _ =>
      destruct (m w) as [[r|e] wb] eqn:Eb
  end; [|unfold logging, ret, bind in H; discriminate].
  inversion H; subst r wb; clear H.
  unfold bind at 1 in Eb. unfold get_env in Eb.
  unfold bind at 1 in Eb. rewrite cache_check_find in Eb.
  destruct (find (exists_ (fs w)) (possible_driver_locations (env w)))
    as [p0|] eqn:Ef.
  - unfold ret in Eb. inversion Eb; subst.
    apply (find_some _ _ Ef).
  - set (dr := driver_path_of (env w)) in *.
    assert (P : post (fun r _ => forall q, r = Some q -> q = dr)
                  (logging INFO "Edge driver not found in expected locations." ;;
                   edge_version <- get_edge_version ;;
                   if negb (truthy edge_version) then
                     logging ERROR "Could not determine Edge version." ;;
                     ret None
                   else
                     temp_dir <- tempfile_mkdtemp ;;
                     download_and_extract (base_path_of (env w)) dr
                       edge_version temp_dir)).
    { apply post_bind; intros _. apply post_bind; intros v.
      destruct (negb (truthy v)).
      - apply post_bind; intros _. apply post_ret. discriminate.
      - apply post_bind; intros d. unfold download_and_extract.
        apply (post_try_finally_value (fun r => forall q, r = Some q -> q = dr)).
        eapply post_weaken; [|apply post_try_download_and_extract].
        intros r w0 Hr q Hq. exact (proj1 (Hr q Hq)). }
    rewrite (P w (Some p) w' Eb p eq_refl). left. reflexivity.
Qed.

Lemma returned_path_witness :
  In ["C:"; "Python312"; "msedgedriver.exe"]
    (possible_driver_locations (env Scenario.w_cached)).
Proof.
  apply (returned_path_is_expected_location Scenario.w_cached
           (snd (get_edge_driver_path Scenario.w_cached))).
  vm_compute. reflexivity.
Defined.

(** X19.  [main] opens the log file before anything else and outside
    any [try]: when that fails, the exception leaves [main], nothing
    is printed and [get_edge_driver_path] is not run. *)
Theorem log_failure_stops_main (w w0 : World) (e : exn) :
  let log_file := join (dirname (module_file (env w))) LOG_FILE_NAME in
  initialize_logging (dirname (module_file (env w))) w = (Raise e, w0) ->
  main w = (Raise e, w0) /\
  stdout w0 = stdout w /\
  log w0 = log w /\
  calls w0 = (calls w ++ [OpenAppend log_file])%list.
Proof.
  intros log_file H. split.
  - unfold main, get_env, bind at 1. unfold bind at 1. rewrite H. reflexivity.
  - revert H. unfold initialize_logging, open_append, ext, get_fs, put_fs,
      logging, raise, ret, bind.
    fold log_file.
    destruct (fault _ _ _).
    + intro H. inversion H; subst. repeat split.
    + cbn [fs add_call].
      destruct (lookup (fs w) log_file) as [[c|es]|];
        try destruct (is_dir (fs w) (parent log_file));
        intro H; inversion H; subst; repeat split.
Qed.

Lemma log_failure_witness :
  main w_log_denied
  = (Raise (Exn PermissionError "[Errno 13] Permission denied"),
     add_call (OpenAppend ["C:"; "automation"; "inet_read.log"]) w_log_denied)
  /\ stdout (add_call (OpenAppend ["C:"; "automation"; "inet_read.log"])
               w_log_denied) = stdout w_log_denied
  /\ log (add_call (OpenAppend ["C:"; "automation"; "inet_read.log"])
            w_log_denied) = log w_log_denied
  /\ calls (add_call (OpenAppend ["C:"; "automation"; "inet_read.log"])
              w_log_denied)
     = (calls w_log_denied
          ++ [OpenAppend
                (join (dirname (module_file (env w_log_denied)))
                   LOG_FILE_NAME)])%list.
Proof.
  apply (log_failure_stops_main w_log_denied).
  reflexivity.
Defined.

(** * The archive download *)

(** The acquisition uses neither transport of
    [download_file_with_wininet]. *)
Lemma not_chain_try_download_and_extract (base_path driver_path : path)
  (v : pyval) (d : path) :
  keeps not_chain any_record
    (try_download_and_extract base_path driver_path v d).
Proof.
  unfold try_download_and_extract, extract_zip_with_shell, reconcile. frame;
    first [ apply keeps_extract_search; exact (fun _ => I)
          | apply keeps_reconcile_walk; intros; exact I
          | eapply keeps_weaken; [| |apply keeps_download_file_inet_read];
            [intros c H; exact H|intros; exact I] ].
Qed.

Lemma not_chain_download_and_extract (base_path driver_path : path)
  (v : pyval) (d : path) :
  keeps not_chain any_record
    (download_and_extract base_path driver_path v d).
Proof.
  unfold download_and_extract, remove_temp_dir. frame.
  apply not_chain_try_download_and_extract.
Qed.

Lemma string_length_append (a b : string) :
  String.length (a ++ b) = String.length a + String.length b.
Proof. induction a as [|c a IH]; simpl; [reflexivity|now rewrite IH]. Qed.

Lemma string_append_inj (p a b : string) : (p ++ a = p ++ b -> a = b)%string.
Proof.
  induction p as [|c p IH]; simpl; intro H; [exact H|].
  inversion H. auto.
Qed.

(** The address of the archive is not the address of the marker. *)
Lemma driver_url_not_marker (v : pyval) : driver_url v <> LATEST_STABLE_URL.
Proof.
  unfold driver_url.
  change LATEST_STABLE_URL
    with ("https://msedgedriver.azureedge.net/" ++ "LATEST_STABLE").
  intro H. apply string_append_inj in H.
  apply (f_equal String.length) in H.
  rewrite string_length_append in H. simpl in H. lia.
Qed.

(** C2, as the code has it.  The archive is fetched with
    [download_file_inet_read], the single WinINet read: during it
    neither [URLDownloadToFileW] nor [urlopen] is called and no warning
    is logged; nor is either of them called in the rest of the
    acquisition (extraction, check, clean-up), whether the download
    succeeds or fails.  When the download reports failure,
    [get_edge_driver_path] logs the error [Failed to download Edge
    driver using InetRead method.], attempts to remove the workspace
    and returns None.  In a whole run of [get_edge_driver_path], every
    call of [URLDownloadToFileW] or [urlopen] is for the address of
    the version marker, which is never the address of the archive:
    the two-step download serves the marker only. *)
Theorem archive_download_is_single_read (base_path driver_path : path)
  (v : pyval) (d : path) (w : World) :
  let w0 := add_log (INFO, "Downloading Edge driver from: " ++ driver_url v) w in
  let run :=
    download_file_inet_read (driver_url v) (join d "edgedriver.zip") w0 in
  extends not_chain not_warning w0 (snd run) /\
  extends not_chain any_record w
    (snd (download_and_extract base_path driver_path v d w)) /\
  (fst run = Ok false ->
   exists w2,
     download_and_extract base_path driver_path v d w = (Ok None, w2) /\
     log w2
     = (log (snd run)
          ++ [(ERROR, "Failed to download Edge driver using InetRead method.")])%list
     /\
     calls w2 = (calls (snd run) ++ [Rmtree d])%list) /\
  (forall wr,
      exists l,
        calls (snd (get_edge_driver_path wr)) = (calls wr ++ l)%list /\
        Forall for_marker l) /\
  driver_url v <> LATEST_STABLE_URL.
Proof.
  cbv zeta.
  split; [apply keeps_download_file_inet_read|].
  split; [apply not_chain_download_and_extract|].
  split; [|split; [|apply driver_url_not_marker]].
  2:{ intro wr.
      apply (calls_since_weaken expected_call for_marker);
        [|apply expected_get_edge_driver_path].
      intros c H. destruct c; try exact I; try exact H. }
  unfold download_and_extract, try_finally, try_download_and_extract,
    try_except, bind, logging. cbv zeta.
  destruct (download_file_inet_read _ _ _) as [[b|e] w1]; cbn [fst snd];
    intro H; inversion H; subst. cbn [negb]. unfold ret.
  destruct (remove_temp_dir_spec d
              (add_log (ERROR, "Failed to download Edge driver using InetRead method.") w1))
    as (w2 & E2 & He2 & Hl2 & Ht2 & Hc2 & _).
  rewrite E2. exists w2. repeat split.
  - rewrite Hl2. reflexivity.
  - rewrite Hc2. reflexivity.
Qed.

Lemma archive_download_witness :
  let w0 :=
    add_log (INFO, "Downloading Edge driver from: "
                     ++ driver_url (PyStr "136.0.3240.64"))
      Scenario.w_offline in
  let run :=
    download_file_inet_read (driver_url (PyStr "136.0.3240.64"))
      (join Scenario.workspace "edgedriver.zip") w0 in
  fst run = Ok false /\
  exists w2,
    download_and_extract Scenario.base_path Scenario.driver_path
      (PyStr "136.0.3240.64") Scenario.workspace Scenario.w_offline
    = (Ok None, w2) /\
    log w2
    = (log (snd run)
         ++ [(ERROR, "Failed to download Edge driver using InetRead method.")])%list
    /\
    calls w2 = (calls (snd run) ++ [Rmtree Scenario.workspace])%list.
Proof.
  cbv zeta. split; [reflexivity|].
  apply (proj1 (proj2 (proj2 (archive_download_is_single_read
                                Scenario.base_path Scenario.driver_path
                                (PyStr "136.0.3240.64")
                                Scenario.workspace Scenario.w_offline)))).
  reflexivity.
Defined.

(** C2 as stated fails: the version is known, the archive download
    fails and [get_edge_driver_path] returns None, yet neither strategy
    of the two-step chain was called and no warning was logged: the
    log holds two errors. *)
Lemma download_failure_without_chain :
  fst (get_edge_driver_path Scenario.w_offline) = Ok None /\
  In (ERROR, "Failed to download Edge driver using InetRead method.")
    (log (snd (get_edge_driver_path Scenario.w_offline))) /\
  existsb is_chain_call (calls (snd (get_edge_driver_path Scenario.w_offline)))
  = false /\
  filter is_warning (log (snd (get_edge_driver_path Scenario.w_offline))) = [] /\
  length (filter is_error (log (snd (get_edge_driver_path Scenario.w_offline))))
  = 2.
Proof. vm_compute. repeat split. auto 10. Qed.

(** * The reconciling step *)





